(** * A shallow embedding of the documentation interpreter's core

    The development follows the TypeScript sources:
    - [src/indexer/DocumentationIndexer.ts]  (module [Indexer]),
    - [src/cache/ExplanationCache.ts]        (module [Cache]),
    - [src/rag/RAGEngine.ts]                 (module [Engine]),
    - [src/storage/VectorStore.ts]           (module [Store]).

    JavaScript strings are sequences of UTF-16 code units, numbers are
    IEEE-754 binary64 values (Rocq's primitive floats), a [Map] is a finite
    map, and an exception is an explicit error result. *)

From Stdlib Require Import ZArith NArith List Bool Lia Ascii String.
From Stdlib Require Import DecimalString DecimalNat Permutation Sorted.
From Stdlib Require Import Floats.
From stdpp Require Import gmap sorting.
Import ListNotations.

Set Default Proof Using "Type".
(* Decimal literals denote the nearest binary64 value, as in JavaScript. *)
Set Warnings "-inexact-float".

(* ===================================================================== *)
(** * Part I: definitions                                                 *)
(* ===================================================================== *)

(** ** The JavaScript values the code works on *)

Module JS.

(** A string is its list of UTF-16 code units. *)
Abbreviation jsstring := (list N).

Definition str (s : string) : jsstring :=
  map N_of_ascii (list_ascii_of_string s).

(** [\s] of a regular expression and the characters [trim] removes:
    WhiteSpace and LineTerminator of ECMAScript. *)
Definition is_ws (c : N) : bool :=
  ((9 <=? c) && (c <=? 13) || (c =? 32) || (c =? 160) || (c =? 5760)
   || (8192 <=? c) && (c <=? 8202) || (c =? 8232) || (c =? 8233)
   || (c =? 8239) || (c =? 8287) || (c =? 12288) || (c =? 65279))%N.

(** The characters [.] of a regular expression does not match. *)
Definition is_line_terminator (c : N) : bool :=
  ((c =? 10) || (c =? 13) || (c =? 8232) || (c =? 8233))%N.

(** [\w] is [[A-Za-z0-9_]]. *)
Definition is_lower (c : N) : bool := ((97 <=? c) && (c <=? 122))%N.
Definition is_upper (c : N) : bool := ((65 <=? c) && (c <=? 90))%N.
Definition is_digit (c : N) : bool := ((48 <=? c) && (c <=? 57))%N.
Definition is_word (c : N) : bool :=
  is_lower c || is_upper c || is_digit c || (c =? 95)%N.

Definition is_empty (s : jsstring) : bool :=
  match s with [] => true | _ => false end.

Definition eqb (s t : jsstring) : bool := bool_decide (s = t).

Fixpoint drop_while (p : N -> bool) (s : jsstring) : jsstring :=
  match s with
  | [] => []
  | c :: s' => if p c then drop_while p s' else s
  end.

Definition trimStart (s : jsstring) : jsstring := drop_while is_ws s.
Definition trimEnd (s : jsstring) : jsstring := rev (drop_while is_ws (rev s)).
Definition trim (s : jsstring) : jsstring := trimEnd (trimStart s).

(** [s.split(c)] for a one-character separator. *)
Fixpoint split_char (sep : N) (s : jsstring) : list jsstring :=
  match s with
  | [] => [[]]
  | c :: s' =>
      if (c =? sep)%N then [] :: split_char sep s'
      else match split_char sep s' with
           | w :: ws => (c :: w) :: ws
           | [] => [[c]]
           end
  end.

(** [s.split(/[p]+/)]: the separators are the maximal runs of characters
    of the class [p]; a run at either end leaves an empty string there. *)
Fixpoint split_runs_from (p : N -> bool) (in_run : bool) (s : jsstring)
  : list jsstring :=
  match s with
  | [] => [[]]
  | c :: s' =>
      if p c then
        if in_run then split_runs_from p true s'
        else [] :: split_runs_from p true s'
      else match split_runs_from p false s' with
           | w :: ws => (c :: w) :: ws
           | [] => [[c]]
           end
  end.

Definition split_runs (p : N -> bool) (s : jsstring) : list jsstring :=
  split_runs_from p false s.

Definition nonempty (s : jsstring) : bool := negb (is_empty s).

Definition newline : jsstring := [10%N].

Definition is_empty_list {A} (l : list A) : bool :=
  match l with [] => true | _ => false end.

(** [l.join(sep)]. *)
Fixpoint join (sep : jsstring) (l : list jsstring) : jsstring :=
  match l with
  | [] => []
  | [w] => w
  | w :: ws => w ++ sep ++ join sep ws
  end.

Fixpoint starts_with (pre s : jsstring) : bool :=
  match pre, s with
  | [], _ => true
  | _ :: _, [] => false
  | a :: pre', b :: s' => (a =? b)%N && starts_with pre' s'
  end.

(** [s.includes(sub)]. *)
Fixpoint includes (s sub : jsstring) : bool :=
  starts_with sub s ||
  match s with
  | [] => false
  | _ :: s' => includes s' sub
  end.

(** [s.replace(/[p]/g, r)] for a character class [p]. *)
Definition replace_class (p : N -> bool) (r : jsstring) (s : jsstring)
  : jsstring :=
  flat_map (fun c => if p c then r else [c]) s.

(** Decimal rendering of a counter, as in a template literal. *)
Definition decimal (n : nat) : jsstring :=
  str (NilEmpty.string_of_uint (Nat.to_uint n)).

(** A number is a binary64 float; array lengths and counters are exact. *)
Definition number_of_nat (n : nat) : float :=
  PrimFloat.of_uint63 (Uint63.of_Z (Z.of_nat n)).

End JS.
Import JS.

(** What the code takes from its host: the Unicode case mapping, the
    collation order, the two trigonometric functions (which ECMAScript leaves
    implementation-approximated), the SHA-256 digest of the [crypto] module and
    [path.relative] from the workspace root. *)
Class Host := {
  toLowerCase : jsstring -> jsstring;
  localeCompare : jsstring -> jsstring -> float;
  Math_sin : float -> float;
  Math_cos : float -> float;
  sha256_hex : jsstring -> jsstring;
  path_relative : jsstring -> jsstring
}.

(** ** Shared data ([src/types/interfaces.ts]) *)

Record Metadata := {
  level : float;
  wordCount : float;
  lastModified : Z
}.

Record DocumentationChunk := {
  id : jsstring;
  filePath : jsstring;
  sectionHeading : jsstring;
  content : jsstring;
  embedding : option (list float);
  metadata : Metadata
}.

Record CodeContext := {
  selectedText : jsstring;
  fileName : jsstring;
  functionName : option jsstring;
  className : option jsstring;
  imports : list jsstring;
  surroundingContext : jsstring;
  language : jsstring
}.

Record Citation := {
  cit_filePath : jsstring;
  cit_sectionHeading : jsstring;
  relevanceScore : float
}.

Record ExplanationResult := {
  explanation : jsstring;
  citations : list Citation;
  confidence : float;
  hasRelevantDocs : bool
}.

Record ExplanationCache := {
  key : jsstring;
  cached_explanation : jsstring;
  cached_citations : list Citation;
  timestamp : Z;
  ttl : Z
}.

(** ** The chunker ([DocumentationIndexer.splitByHeaders]) *)

Module Indexer.

Definition is_hash (c : N) : bool := (c =? 35)%N.

(** One way of matching [^(#{1,6})\s+(.+)$]: [k] hashes, [p] whitespace
    characters, and the rest of the line for [(.+)]. *)
Definition try_header (line : jsstring) (k p : nat)
  : option (nat * jsstring) :=
  let hs := firstn k line in
  let ws := firstn p (skipn k line) in
  let rest := skipn p (skipn k line) in
  if (length hs =? k)%nat && forallb is_hash hs
     && (length ws =? p)%nat && forallb is_ws ws
     && nonempty rest && forallb (fun c => negb (is_line_terminator c)) rest
  then Some (k, rest) else None.

Fixpoint first_some {A B} (f : A -> option B) (l : list A) : option B :=
  match l with
  | [] => None
  | a :: l' => match f a with Some b => Some b | None => first_some f l' end
  end.

(** [line.match(/^(#{1,6})\s+(.+)$/)]: both quantifiers are greedy, so the
    matcher tries the longest run first and backtracks to shorter ones.
    The result is the number of hashes and the second group. *)
Definition header_match (line : jsstring) : option (nat * jsstring) :=
  first_some
    (fun k => first_some (try_header line k) (rev (seq 1 (length line))))
    [6; 5; 4; 3; 2; 1]%nat.

(** The chunk being accumulated ([currentChunk]). *)
Record Current := {
  cur_heading : jsstring;
  cur_level : nat;
  cur_content : list jsstring;
  cur_startLine : nat
}.

(** The loop state: the chunks pushed so far, the ids in use, the open chunk. *)
Record State := {
  chunks : list DocumentationChunk;
  usedIds : list jsstring;
  current : option Current
}.

Definition wordCountOf (content : jsstring) : nat :=
  length (List.filter nonempty (split_runs is_ws content)).

Section WithHost.
Context `{Host}.

(** The reading of the clock at the creation of the [n]-th chunk. *)
Variable clock : nat -> Z.

Definition is_id_char (c : N) : bool := is_lower c || is_digit c.
Definition dash : N := 45%N.
Definition is_dash (c : N) : bool := (c =? dash)%N.

(** [.replace(/-+/g, '-')] *)
Fixpoint collapse_dashes_from (in_run : bool) (s : jsstring) : jsstring :=
  match s with
  | [] => []
  | c :: s' =>
      if is_dash c then
        if in_run then collapse_dashes_from true s'
        else dash :: collapse_dashes_from true s'
      else c :: collapse_dashes_from false s'
  end.

Definition collapse_dashes (s : jsstring) : jsstring :=
  collapse_dashes_from false s.

(** [.replace(/^-+|-+$/g, '')] *)
Definition strip_dashes (s : jsstring) : jsstring :=
  rev (drop_while is_dash (rev (drop_while is_dash s))).

(** The [while (usedIds.has(uniqueId))] loop.  It tries [cleanId],
    [cleanId-1], [cleanId-2], ...; [fuel] bounds the number of tests. *)
Fixpoint unique_loop (fuel : nat) (cleanId : jsstring)
    (used : list jsstring) (uniqueId : jsstring) (counter : nat)
  : jsstring :=
  match fuel with
  | O => uniqueId
  | S fuel' =>
      if bool_decide (uniqueId ∈ used) then
        unique_loop fuel' cleanId used
          (cleanId ++ [dash] ++ decimal counter) (S counter)
      else uniqueId
  end.

Definition generateUniqueChunkId (filePath heading : jsstring)
    (used : list jsstring) : jsstring * list jsstring :=
  let baseId :=
    replace_class (fun c => negb (is_id_char c)) [dash]
      (toLowerCase (filePath ++ str "#" ++ heading)) in
  let cleanId := strip_dashes (collapse_dashes baseId) in
  let cleanId := if is_empty cleanId then str "unnamed-section" else cleanId in
  let uniqueId := unique_loop (S (length used)) cleanId used cleanId 1 in
  (uniqueId, used ++ [uniqueId]).

Definition createDocumentationChunk (heading : jsstring) (lvl : nat)
    (content filePath : jsstring) (used : list jsstring) (created : nat)
  : DocumentationChunk * list jsstring :=
  let relativePath := path_relative filePath in
  let wc := wordCountOf content in
  let '(newId, used') := generateUniqueChunkId relativePath heading used in
  ({| id := newId;
      filePath := relativePath;
      sectionHeading := heading;
      content := content;
      embedding := None;
      metadata := {| level := number_of_nat lvl;
                     wordCount := number_of_nat wc;
                     lastModified := clock created |} |},
   used').

Definition push_chunk (filePath : jsstring) (c : Current) (chunkContent : jsstring)
    (st : State) : State :=
  let '(chunk, used') :=
    createDocumentationChunk (cur_heading c) (cur_level c) chunkContent
      filePath (usedIds st) (length (chunks st)) in
  {| chunks := chunks st ++ [chunk]; usedIds := used'; current := current st |}.

(** "Save previous chunk if it exists". *)
Definition save_previous (filePath : jsstring) (st : State) : State :=
  match current st with
  | Some c =>
      let chunkContent := trim (join newline (cur_content c)) in
      if nonempty chunkContent || is_empty_list (cur_content c)
      then push_chunk filePath c chunkContent st
      else st
  | None => st
  end.

Definition set_current (c : option Current) (st : State) : State :=
  {| chunks := chunks st; usedIds := usedIds st; current := c |}.

(** One iteration of the [for] loop over the lines. *)
Definition step (filePath : jsstring) (st : State) (i : nat) (line : jsstring)
  : State :=
  match header_match line with
  | Some (hashes, text) =>
      let st1 := save_previous filePath st in
      let heading := trim text in
      if is_empty heading then st1
      else set_current
             (Some {| cur_heading := heading; cur_level := hashes;
                      cur_content := []; cur_startLine := i |}) st1
  | None =>
      match current st with
      | Some c =>
          set_current
            (Some {| cur_heading := cur_heading c; cur_level := cur_level c;
                     cur_content := cur_content c ++ [line];
                     cur_startLine := cur_startLine c |}) st
      | None =>
          if nonempty (trim line) then
            set_current
              (Some {| cur_heading := str "Introduction"; cur_level := 1;
                       cur_content := [line]; cur_startLine := i |}) st
          else st
      end
  end.

Fixpoint run (filePath : jsstring) (st : State) (i : nat)
    (lines : list jsstring) : State :=
  match lines with
  | [] => st
  | line :: rest => run filePath (step filePath st i line) (S i) rest
  end.

(** "Save final chunk". *)
Definition save_final (filePath : jsstring) (st : State) : State :=
  match current st with
  | Some c => push_chunk filePath c (trim (join newline (cur_content c))) st
  | None => st
  end.

Definition keep_chunk (c : DocumentationChunk) : bool :=
  nonempty (trim (content c))
  || negb (JS.eqb (sectionHeading c) (str "Introduction")).

Definition initial : State :=
  {| chunks := []; usedIds := []; current := None |}.

Definition splitByHeaders (content filePath : jsstring)
  : list DocumentationChunk :=
  if is_empty content then []
  else
    let lines := split_char 10 content in
    let st := save_final filePath (run filePath initial 0 lines) in
    List.filter keep_chunk (chunks st).

End WithHost.

(** The whitespace-separated tokens of a text, counted as the spec words
    them: a token starts at every character that is not whitespace and
    that follows whitespace or the start of the text. *)
Fixpoint token_starts (in_token : bool) (s : jsstring) : nat :=
  match s with
  | [] => 0
  | c :: s' =>
      if is_ws c then token_starts false s'
      else (if in_token then 0 else 1) + token_starts true s'
  end.

Definition count_tokens (s : jsstring) : nat := token_starts false s.

(** The heading lines of an input: the lines the pattern matches. *)
Definition heading_lines (content : jsstring) : nat :=
  length (List.filter (fun l => bool_decide (is_Some (header_match l)))
                 (split_char 10 content)).

End Indexer.


(** ** Numbers, sorting and exceptions *)

Module Num.

Definition isNaN (x : float) : bool := PrimFloat.is_nan x.
Definition isFinite (x : float) : bool :=
  negb (PrimFloat.is_nan x) && negb (PrimFloat.is_infinity x).

(** [Math.min] and [Math.max]: NaN if either argument is, and -0 below +0. *)
Definition Math_min (x y : float) : float :=
  if isNaN x || isNaN y then nan
  else if (x <? y)%float then x
  else if (y <? x)%float then y
  else if PrimFloat.get_sign x then x else y.

Definition Math_max (x y : float) : float :=
  if isNaN x || isNaN y then nan
  else if (x <? y)%float then y
  else if (y <? x)%float then x
  else if PrimFloat.get_sign x then y else x.

Definition Math_abs (x : float) : float := PrimFloat.abs x.
Definition Math_sqrt (x : float) : float := PrimFloat.sqrt x.

(** [x > 0], [x >= y], [x !== 0] on numbers. *)
Definition gt0 (x : float) : bool := (0 <? x)%float.
Definition geb (x y : float) : bool := (y <=? x)%float.
Definition gtb (x y : float) : bool := (y <? x)%float.
Definition neq0 (x : float) : bool := negb (x =? 0)%float.

(** [ToInt32]: the signed 32-bit integer a bit operation works on. *)
Definition to_int32 (z : Z) : Z :=
  ((z + 2147483648) mod 4294967296 - 2147483648)%Z.

(** The loop body shared by [generateContextHash] and [simpleHash]:
    [hash = ((hash << 5) - hash) + char; hash = hash & hash]. *)
Definition hash_step (hash : Z) (char : N) : Z :=
  to_int32 (to_int32 (hash * 32) - hash + Z.of_N char).

Definition string_hash (s : jsstring) : Z := fold_left hash_step s 0%Z.

Fixpoint hex_chars (d : Hexadecimal.uint) : jsstring :=
  match d with
  | Hexadecimal.Nil => []
  | Hexadecimal.D0 d => 48%N :: hex_chars d
  | Hexadecimal.D1 d => 49%N :: hex_chars d
  | Hexadecimal.D2 d => 50%N :: hex_chars d
  | Hexadecimal.D3 d => 51%N :: hex_chars d
  | Hexadecimal.D4 d => 52%N :: hex_chars d
  | Hexadecimal.D5 d => 53%N :: hex_chars d
  | Hexadecimal.D6 d => 54%N :: hex_chars d
  | Hexadecimal.D7 d => 55%N :: hex_chars d
  | Hexadecimal.D8 d => 56%N :: hex_chars d
  | Hexadecimal.D9 d => 57%N :: hex_chars d
  | Hexadecimal.Da d => 97%N :: hex_chars d
  | Hexadecimal.Db d => 98%N :: hex_chars d
  | Hexadecimal.Dc d => 99%N :: hex_chars d
  | Hexadecimal.Dd d => 100%N :: hex_chars d
  | Hexadecimal.De d => 101%N :: hex_chars d
  | Hexadecimal.Df d => 102%N :: hex_chars d
  end.

(** [n.toString(16)] of a non-negative integer. *)
Definition toString16 (n : N) : jsstring := hex_chars (N.to_hex_uint n).

End Num.

Module Sort.

(** [Array.prototype.sort(cmp)], which is stable: an element goes after
    another one exactly when the comparator is positive on the pair.  (For
    an inconsistent comparator ECMAScript leaves the order to the engine;
    this is the order of an insertion sort.) *)
Fixpoint insert {A} (cmp : A -> A -> float) (x : A) (l : list A) : list A :=
  match l with
  | [] => [x]
  | y :: l' => if Num.gt0 (cmp x y) then y :: insert cmp x l' else x :: l
  end.

Definition sort {A} (cmp : A -> A -> float) (l : list A) : list A :=
  fold_right (insert cmp) [] l.

(** The default order of [sort()] on strings: by UTF-16 code units. *)
Fixpoint code_unit_leb (s t : jsstring) : bool :=
  match s, t with
  | [], _ => true
  | _ :: _, [] => false
  | a :: s', b :: t' => (a <? b)%N || (a =? b)%N && code_unit_leb s' t'
  end.

Fixpoint insert_default (x : jsstring) (l : list jsstring) : list jsstring :=
  match l with
  | [] => [x]
  | y :: l' => if code_unit_leb x y then x :: l else y :: insert_default x l'
  end.

Definition sort_default (l : list jsstring) : list jsstring :=
  fold_right insert_default [] l.

End Sort.

(** A thrown value: an [Error] object with its name and message, or a value
    that is not an object. *)
Inductive Thrown :=
| ErrorObject (name message : jsstring)
| Primitive (text : jsstring).

Definition Error (message : jsstring) : Thrown := ErrorObject (str "Error") message.

(** [String(e)] and [`${e}`]. *)
Definition thrown_toString (e : Thrown) : jsstring :=
  match e with
  | ErrorObject name message =>
      if is_empty message then name
      else if is_empty name then message
      else name ++ str ": " ++ message
  | Primitive text => text
  end.

(** [e.message]; a value that is not an object has none. *)
Definition thrown_message (e : Thrown) : jsstring :=
  match e with
  | ErrorObject _ message => message
  | Primitive _ => str "undefined"
  end.

(** A computation over a state that returns or throws. *)
Definition M (S A : Type) : Type := S -> (Thrown + A) * S.

Definition ret {S A} (a : A) : M S A := fun s => (inr a, s).
Definition throw {S A} (e : Thrown) : M S A := fun s => (inl e, s).
Definition bind {S A B} (m : M S A) (k : A -> M S B) : M S B :=
  fun s => match m s with
           | (inr a, s') => k a s'
           | (inl e, s') => (inl e, s')
           end.
Definition try_catch {S A} (m : M S A) (handler : Thrown -> M S A) : M S A :=
  fun s => match m s with
           | (inr a, s') => (inr a, s')
           | (inl e, s') => handler e s'
           end.
Definition try_finally {S A} (m : M S A) (cleanup : S -> S) : M S A :=
  fun s => let '(r, s') := m s in (r, cleanup s').
Definition modify {S} (f : S -> S) : M S unit := fun s => (inr tt, f s).
Definition gets {S A} (f : S -> A) : M S A := fun s => (inr (f s), s).

Declare Scope js_scope.
Delimit Scope js_scope with js.
Notation "'let*' x ':=' m 'in' k" := (bind m (fun x => k))
  (at level 10, x name, m at level 100, k at level 200) : js_scope.
Notation "'perform' m 'in' k" := (bind m (fun _ => k))
  (at level 10, m at level 100, k at level 200) : js_scope.

(** ** The explanation cache ([ExplanationCacheManager]) *)

Module Cache.

Record Manager := {
  cache : gmap jsstring ExplanationCache;
  defaultTTL : Z
}.

(** A new manager: an empty map and thirty minutes of life. *)
Definition new : Manager := {| cache := ∅; defaultTTL := 30 * 60 * 1000 |}.

Definition or_empty (o : option jsstring) : jsstring :=
  match o with Some s => s | None => [] end.

Definition keyString (context : CodeContext) : jsstring :=
  join (str "|")
    [fileName context; or_empty (functionName context);
     or_empty (className context); selectedText context].

Definition generateCacheKey `{Host} (context : CodeContext) : jsstring :=
  sha256_hex (keyString context).

(** The largest time value of a [Date], in milliseconds either side of
    the epoch. *)
Definition maxTime : Z := 8640000000000000.

(** [new Date(t)] for an integer [t]: its time value, or nothing when the
    date is an Invalid Date. *)
Definition TimeClip (t : Z) : option Z :=
  if (Z.abs t <=? maxTime)%Z then Some t else None.

(** [now < new Date(timestamp.getTime() + ttl)], for an integer [ttl]; the
    comparison with an Invalid Date is false. *)
Definition isValidEntry (now : Z) (entry : ExplanationCache) : bool :=
  match TimeClip (timestamp entry + ttl entry) with
  | Some expirationTime => (now <? expirationTime)%Z
  | None => false
  end.

Definition store `{Host} (now : Z) (context : CodeContext)
    (explanation : jsstring) (citations : list Citation) (ttl : option Z)
    (m : Manager) : Manager :=
  let k := generateCacheKey context in
  let entry := {| key := k;
                  cached_explanation := explanation;
                  cached_citations := citations;
                  timestamp := now;
                  ttl := match ttl with
                         | Some t => if (t =? 0)%Z then defaultTTL m else t
                         | None => defaultTTL m
                         end |} in
  {| cache := <[k := entry]> (cache m); defaultTTL := defaultTTL m |}.

Definition retrieve `{Host} (now : Z) (context : CodeContext) (m : Manager)
  : option ExplanationCache * Manager :=
  let k := generateCacheKey context in
  match cache m !! k with
  | None => (None, m)
  | Some entry =>
      if isValidEntry now entry then (Some entry, m)
      else (None, {| cache := delete k (cache m); defaultTTL := defaultTTL m |})
  end.

Definition has `{Host} (now : Z) (context : CodeContext) (m : Manager)
  : bool * Manager :=
  let k := generateCacheKey context in
  match cache m !! k with
  | None => (false, m)
  | Some entry =>
      if isValidEntry now entry then (true, m)
      else (false, {| cache := delete k (cache m); defaultTTL := defaultTTL m |})
  end.

Definition hasFileReference (filePath : jsstring) (entry : ExplanationCache) : bool :=
  existsb (fun c => JS.eqb (cit_filePath c) filePath) (cached_citations entry).

Definition invalidateFile (filePath : jsstring) (m : Manager) : Manager :=
  {| cache := filter (fun kv => hasFileReference filePath kv.2 = false) (cache m);
     defaultTTL := defaultTTL m |}.

Definition cleanupExpired (now : Z) (m : Manager) : Manager :=
  {| cache := filter (fun kv => isValidEntry now kv.2 = true) (cache m);
     defaultTTL := defaultTTL m |}.

Definition clear (m : Manager) : Manager :=
  {| cache := ∅; defaultTTL := defaultTTL m |}.

Definition size (m : Manager) : nat := base.size (cache m).


End Cache.

(** ** The grounding and enforcement engine ([RAGEngine]) *)

Module Engine.

(** A promise is modelled by what it settles to. *)
Abbreviation Promise := (Thrown + ExplanationResult)%type.

(** The three [catch] blocks, each of which logs what it caught. *)
Inductive Site := InExplainCode | InProcessRequest | InRetrieval.

Record State := {
  cacheManager : Cache.Manager;
  requestDeduplication : gmap jsstring Promise;
  (** how often [vectorStore.searchSimilar] has been called *)
  retrievals : nat;
  (** what the [catch] blocks have logged, latest first *)
  errorLog : list (Site * Thrown)
}.

(** The places where an unexpected exception can be raised. *)
Inductive Stage :=
| AtHashing | AtCacheLookup | AtQuery | AtEnforcement | AtGeneration
| AtGrounding | AtCitations | AtScoring | AtCacheStore.

(** What a call meets: the vector store behind its interface, the exceptions
    the runtime raises, and the reading of the clock. *)
Record Env := {
  searchSimilar : jsstring -> float -> Thrown + list DocumentationChunk;
  fault : Stage -> option Thrown;
  now : Z
}.

Definition dquote : jsstring := [34%N].
Definition notDocumented : jsstring := str "Not documented.".

Definition truthy (o : option jsstring) : option jsstring :=
  match o with
  | Some s => if is_empty s then None else Some s
  | None => None
  end.

Definition set_cache (c : Cache.Manager) (st : State) : State :=
  {| cacheManager := c; requestDeduplication := requestDeduplication st;
     retrievals := retrievals st; errorLog := errorLog st |}.
Definition set_registry (r : gmap jsstring Promise) (st : State) : State :=
  {| cacheManager := cacheManager st; requestDeduplication := r;
     retrievals := retrievals st; errorLog := errorLog st |}.
Definition count_retrieval (st : State) : State :=
  {| cacheManager := cacheManager st;
     requestDeduplication := requestDeduplication st;
     retrievals := S (retrievals st); errorLog := errorLog st |}.
Definition log_error (site : Site) (e : Thrown) (st : State) : State :=
  {| cacheManager := cacheManager st;
     requestDeduplication := requestDeduplication st;
     retrievals := retrievals st; errorLog := (site, e) :: errorLog st |}.

Section WithHost.
Context `{Host}.
Local Open Scope js_scope.

(** [generateContextHash]; [imports.sort()] sorts the caller's array in
    place, so the context comes back with it. *)
Definition hashInput (context : CodeContext) : jsstring :=
  join (str "|")
    [selectedText context; fileName context;
     Cache.or_empty (functionName context);
     Cache.or_empty (className context);
     join (str ",") (Sort.sort_default (imports context));
     language context].

Definition sorted_imports (context : CodeContext) : CodeContext :=
  {| selectedText := selectedText context;
     fileName := fileName context;
     functionName := functionName context;
     className := className context;
     imports := Sort.sort_default (imports context);
     surroundingContext := surroundingContext context;
     language := language context |}.

Definition generateContextHash (context : CodeContext)
  : jsstring * CodeContext :=
  (Num.toString16 (Z.to_N (Z.abs (Num.string_hash (hashInput context)))),
   sorted_imports context).

Definition queryStopWords : list jsstring :=
  map str ["const"; "let"; "var"; "function"; "class"; "return"; "if";
           "else"; "for"; "while"; "result"]%string.

(** [.replace(/([a-z])([A-Z])/g, '$1 $2')] *)
Fixpoint split_camel (s : jsstring) : jsstring :=
  match s with
  | a :: ((b :: s'') as s') =>
      if is_lower a && is_upper b then a :: 32%N :: b :: split_camel s''
      else a :: split_camel s'
  | _ => s
  end.

Definition mem (w : jsstring) (l : list jsstring) : bool :=
  existsb (JS.eqb w) l.

Definition buildQueryFromContext (context : CodeContext) : jsstring :=
  let parts1 := match truthy (functionName context) with
                | Some f => [f] | None => [] end in
  let parts2 := match truthy (className context) with
                | Some c => [c] | None => [] end in
  let selectedWords :=
    firstn 3
      (List.filter (fun word => (2 <? length word)%nat && negb (mem word queryStopWords))
         (split_runs is_ws
            (toLowerCase
               (split_camel
                  (replace_class (fun c => negb (is_word c || is_ws c)) (str " ")
                     (selectedText context)))))) in
  let relevantImports :=
    firstn 2
      (List.filter (fun imp => negb (starts_with (str ".") imp)
                               && negb (includes imp (str "node_modules")))
         (imports context)) in
  join (str " ")
    (List.filter nonempty (parts1 ++ parts2 ++ selectedWords ++ relevantImports)).

(** The order of the documents: by file path, then by section heading. *)
Definition compareDocs (a b : DocumentationChunk) : float :=
  let fileComparison := localeCompare (filePath a) (filePath b) in
  if Num.neq0 fileComparison then fileComparison
  else localeCompare (sectionHeading a) (sectionHeading b).

Definition scoreStopWords : list jsstring :=
  map str ["function"; "class"; "const"; "let"; "var"]%string.

Definition calculateRelevanceScore (context : CodeContext)
    (doc : DocumentationChunk) : float :=
  let docContentLower := toLowerCase (content doc) in
  let docHeadingLower := toLowerCase (sectionHeading doc) in
  let named (o : option jsstring) (score : float) : float :=
    match truthy o with
    | Some name =>
        let nameLower := toLowerCase name in
        if includes docContentLower nameLower || includes docHeadingLower nameLower
        then (score + 10)%float else score
    | None => score
    end in
  let score := named (functionName context) 0%float in
  let score := named (className context) score in
  let score :=
    fold_left (fun score imp =>
                 if includes docContentLower (toLowerCase imp)
                 then (score + 5)%float else score)
              (imports context) score in
  let selectedWords :=
    List.filter (fun word => (3 <? length word)%nat && negb (mem word scoreStopWords))
      (split_runs is_ws (toLowerCase (selectedText context))) in
  let score :=
    fold_left (fun score word =>
                 let score := if includes docContentLower word
                              then (score + 2)%float else score in
                 if includes docHeadingLower word
                 then (score + 3)%float else score)
              selectedWords score in
  (score + Num.Math_min (wordCount (metadata doc) / 50) 2)%float.

Definition genericPhrases : list jsstring :=
  map str ["todo"; "tbd"; "to be determined"; "placeholder"; "coming soon";
           "under construction"; "not implemented"]%string.

(** [enforceDocumentationRequirement]: does valid documentation exist, and
    the answer to give when it does not. *)
Definition enforceDocumentationRequirement (context : CodeContext)
    (docs : list DocumentationChunk) : bool * jsstring :=
  if is_empty_list docs then (false, notDocumented)
  else
    let relevantDocs :=
      List.filter (fun doc => Num.geb (calculateRelevanceScore context doc) 0.1%float)
        docs in
    if is_empty_list relevantDocs then (false, notDocumented)
    else
      let substantialDocs :=
        List.filter (fun doc => (20 <=? length (trim (content doc)))%nat) relevantDocs in
      if is_empty_list substantialDocs then (false, notDocumented)
      else
        let hasGenericContent :=
          existsb (fun doc =>
                     existsb (fun phrase => includes (toLowerCase (content doc)) phrase)
                             genericPhrases)
                  substantialDocs in
        if hasGenericContent && (length substantialDocs =? 1)%nat
        then (false, notDocumented)
        else (true, []).

Definition is_sentence_end (c : N) : bool :=
  ((c =? 46) || (c =? 33) || (c =? 63))%N.

(** The loop that looks for a sentence sharing a word with the code. *)
Fixpoint pick_sentence (codeWords : list jsstring) (sentences : list jsstring)
  : option jsstring :=
  match sentences with
  | [] => None
  | sentence :: rest =>
      let lowerSentence := toLowerCase sentence in
      let matchCount :=
        length (List.filter (fun word => includes lowerSentence word) codeWords) in
      if (0 <? matchCount)%nat then Some sentence
      else pick_sentence codeWords rest
  end.

Definition introduction (context : CodeContext) : jsstring :=
  match truthy (functionName context) with
  | Some f => str "The function " ++ dquote ++ f ++ dquote ++ str " "
  | None =>
      match truthy (className context) with
      | Some c => str "The class " ++ dquote ++ c ++ dquote ++ str " "
      | None => str "This code "
      end
  end.

Definition generateImprovedExplanation (context : CodeContext)
    (docs : list DocumentationChunk) : jsstring :=
  match docs with
  | [] => notDocumented
  | primaryDoc :: _ =>
      let text := trim (content primaryDoc) in
      let sentences :=
        List.filter (fun s => (10 <? length (trim s))%nat)
          (split_runs is_sentence_end text) in
      let body :=
        match sentences with
        | first :: _ =>
            let codeWords :=
              List.filter (fun w => (2 <? length w)%nat)
                (split_runs (fun c => negb (is_word c))
                   (toLowerCase (selectedText context))) in
            let bestSentence :=
              match pick_sentence codeWords sentences with
              | Some s => s
              | None => first
              end in
            str "is documented as: " ++ dquote ++ trim bestSentence
              ++ dquote ++ str "."
        | [] =>
            str "is mentioned in the " ++ sectionHeading primaryDoc
              ++ str " section."
        end in
      introduction context ++ body
        ++ str " (Source: " ++ filePath primaryDoc ++ str " - "
        ++ sectionHeading primaryDoc ++ str ")"
  end.

Definition generateDeterministicExplanation (context : CodeContext)
    (docs : list DocumentationChunk) : jsstring :=
  if is_empty_list docs then notDocumented
  else generateImprovedExplanation context (Sort.sort compareDocs docs).

Definition groundingStopWords : list jsstring :=
  map str ["this"; "that"; "with"; "from"; "they"; "have"; "been"; "will";
           "were"; "said"; "each"; "which"; "their"; "time"; "would";
           "there"; "could"; "other"; "more"; "very"; "what"; "know";
           "just"; "first"; "into"; "over"; "think"; "also"; "your";
           "work"; "life"; "only"; "can"; "still"; "should"; "after";
           "being"; "now"; "made"; "before"; "here"; "through"; "when";
           "where"; "much"; "some"; "these"; "many"; "then"; "them";
           "well"; "were"]%string.

Definition validateExplanationGrounding (explanation : jsstring)
    (docs : list DocumentationChunk) : bool :=
  if includes explanation notDocumented then true
  else
    let explanationLower := toLowerCase explanation in
    let docContents :=
      join (str " ") (map (fun doc => toLowerCase (content doc)) docs) in
    let explanationWords :=
      List.filter (fun word => (3 <? length word)%nat
                               && negb (mem word groundingStopWords))
        (split_runs is_ws
           (replace_class (fun c => negb (is_word c || is_ws c)) (str " ")
              explanationLower)) in
    if is_empty_list explanationWords then false
    else
      let matchingWords :=
        length (List.filter (fun word => includes docContents word) explanationWords) in
      let overlapRatio :=
        (number_of_nat matchingWords / number_of_nat (length explanationWords))%float in
      Num.geb overlapRatio 0.3%float.

Definition compareCitations (a b : Citation) : float :=
  let scoreComparison := (relevanceScore b - relevanceScore a)%float in
  if Num.gtb (Num.Math_abs scoreComparison) 0.001%float then scoreComparison
  else
    let fileComparison := localeCompare (cit_filePath a) (cit_filePath b) in
    if Num.neq0 fileComparison then fileComparison
    else localeCompare (cit_sectionHeading a) (cit_sectionHeading b).

Fixpoint citations_from (index : nat) (docs : list DocumentationChunk)
  : list Citation :=
  match docs with
  | [] => []
  | doc :: rest =>
      {| cit_filePath := filePath doc;
         cit_sectionHeading := sectionHeading doc;
         relevanceScore :=
           Num.Math_max 0.1%float (1 - number_of_nat index * 0.2)%float |}
      :: citations_from (S index) rest
  end.

Definition extractCitationsWithConsistentOrdering
    (docs : list DocumentationChunk) : list Citation :=
  Sort.sort compareCitations (citations_from 0 docs).

Definition calculateDeterministicConfidence (docs : list DocumentationChunk)
  : float :=
  if is_empty_list docs then 0%float
  else
    let sortedDocs := Sort.sort compareDocs docs in
    let n := number_of_nat (length sortedDocs) in
    let baseConfidence := Num.Math_min (n / 3)%float 1%float in
    let avgWordCount :=
      (fold_left (fun sum doc => (sum + wordCount (metadata doc))%float)
                 sortedDocs 0 / n)%float in
    let qualityMultiplier := Num.Math_min (avgWordCount / 50)%float 1.2%float in
    Num.Math_min (baseConfidence * qualityMultiplier)%float 1%float.

(** The messages of [createErrorFallbackResponse]. *)
Definition genericMessage := str "Error generating explanation.".
Definition networkMessage :=
  str "Unable to access documentation. Please check your connection.".
Definition storageMessage :=
  str "Documentation storage error. Please re-index documentation.".
Definition embeddingMessage := str "Embedding generation error. Please try again.".
Definition timeoutMessage :=
  str "Request timeout. Please try again with a smaller code selection.".
Definition resourceMessage :=
  str "Insufficient resources. Please try again with a smaller code selection.".

Definition fallbackMessage (error : Thrown) : jsstring :=
  match error with
  | ErrorObject name message =>
      let errorMessage :=
        if is_empty message then thrown_toString error else message in
      if includes errorMessage (str "network")
         || includes errorMessage (str "connection") then networkMessage
      else if includes errorMessage (str "storage")
              || includes errorMessage (str "database") then storageMessage
      else if includes errorMessage (str "embedding")
              || includes errorMessage (str "vector") then embeddingMessage
      else if includes errorMessage (str "timeout") then timeoutMessage
      else if includes errorMessage (str "memory")
              || includes errorMessage (str "resource") then resourceMessage
      else genericMessage
  | Primitive _ => genericMessage
  end.

Definition createErrorFallbackResponse (error : Thrown) : ExplanationResult :=
  {| explanation := fallbackMessage error;
     citations := [];
     confidence := 0;
     hasRelevantDocs := false |}.

Section WithEnv.
Variable env : Env.

(** An unexpected exception at [stage], if the runtime raises one. *)
Definition checkpoint (stage : Stage) : M State unit :=
  match fault env stage with
  | Some e => throw e
  | None => ret tt
  end.

(** [retrieveRelevantDocsWithConsistentRanking]: a failure of the store
    is caught and gives no documents. *)
Definition retrieveRelevantDocsWithConsistentRanking (query : jsstring)
  : M State (list DocumentationChunk) :=
  try_catch
    (perform modify count_retrieval in
     match searchSimilar env query 5%float with
     | inr relevantChunks => ret (Sort.sort compareDocs relevantChunks)
     | inl e => throw e
     end)
    (fun error => perform modify (log_error InRetrieval error) in ret []).

Definition cache_retrieve (context : CodeContext)
  : M State (option ExplanationCache) :=
  fun st =>
    let '(entry, c) := Cache.retrieve (now env) context (cacheManager st) in
    (inr entry, set_cache c st).

Definition cache_store (context : CodeContext) (text : jsstring)
    (cited : list Citation) : M State unit :=
  modify (fun st =>
            set_cache (Cache.store (now env) context text cited None
                         (cacheManager st)) st).

Definition rejection (text : jsstring) : ExplanationResult :=
  {| explanation := text; citations := []; confidence := 0;
     hasRelevantDocs := false |}.

Definition processExplanationRequest (context : CodeContext)
  : M State ExplanationResult :=
  try_catch
    (perform checkpoint AtCacheLookup in
     let* cachedResult := cache_retrieve context in
     match cachedResult with
     | Some entry =>
         ret {| explanation := cached_explanation entry;
                citations := cached_citations entry;
                confidence := 1;
                hasRelevantDocs := (0 <? length (cached_citations entry))%nat |}
     | None =>
         (* ensureDeterministicBehavior hashes the context again *)
         let context := snd (generateContextHash context) in
         perform checkpoint AtQuery in
         let query := buildQueryFromContext context in
         let* relevantDocs := retrieveRelevantDocsWithConsistentRanking query in
         perform checkpoint AtEnforcement in
         let '(hasValidDocumentation, fallbackResponse) :=
           enforceDocumentationRequirement context relevantDocs in
         if negb hasValidDocumentation then
           let result := rejection fallbackResponse in
           perform checkpoint AtCacheStore in
           perform cache_store context (explanation result) (citations result) in
           ret result
         else
           perform checkpoint AtGeneration in
           let generated := generateDeterministicExplanation context relevantDocs in
           perform checkpoint AtGrounding in
           let isGrounded := validateExplanationGrounding generated relevantDocs in
           if negb isGrounded then
             let result := rejection notDocumented in
             perform checkpoint AtCacheStore in
             perform cache_store context (explanation result) (citations result) in
             ret result
           else
             perform checkpoint AtCitations in
             let cited := extractCitationsWithConsistentOrdering relevantDocs in
             perform checkpoint AtScoring in
             let score := calculateDeterministicConfidence relevantDocs in
             let result := {| explanation := generated;
                              citations := cited;
                              confidence := score;
                              hasRelevantDocs := true |} in
             perform checkpoint AtCacheStore in
             perform cache_store context generated cited in
             ret result
     end)
    (fun error =>
       perform modify (log_error InProcessRequest error) in
       ret (createErrorFallbackResponse error)).

Definition noCodeSelected : ExplanationResult :=
  rejection (str "No code selected for explanation.").

(** [await promise] *)
Definition await (p : Promise) : M State ExplanationResult :=
  match p with
  | inr result => ret result
  | inl e => throw e
  end.

(** [explainCode], run to completion.  The promise of the request is
    registered under the context hash while it is awaited and removed
    afterwards. *)
Definition explainCode (context : CodeContext) : M State ExplanationResult :=
  try_catch
    (if is_empty (selectedText context) then
       throw (Error (str "Selected text is required and must be a string"))
     else if is_empty (trim (selectedText context)) then ret noCodeSelected
     else
       perform checkpoint AtHashing in
       let '(contextHash, context) := generateContextHash context in
       let* ongoingRequest := gets (fun st => requestDeduplication st !! contextHash) in
       match ongoingRequest with
       | Some ongoing => await ongoing
       | None =>
           fun st =>
             let '(requestPromise, st1) := processExplanationRequest context st in
             let st2 := set_registry (<[contextHash := requestPromise]>
                                        (requestDeduplication st1)) st1 in
             try_finally (await requestPromise)
               (fun st => set_registry (delete contextHash (requestDeduplication st)) st)
               st2
       end)
    (fun error =>
       perform modify (log_error InExplainCode error) in
       ret (createErrorFallbackResponse error)).

(** [invalidateCacheForFile] *)
Definition invalidateCacheForFile (filePath : jsstring) (st : State) : State :=
  set_cache (Cache.invalidateFile filePath (cacheManager st)) st.

End WithEnv.
End WithHost.

Definition new : State :=
  {| cacheManager := Cache.new; requestDeduplication := ∅; retrievals := 0;
     errorLog := [] |}.

End Engine.

(** ** The vector store ([VectorStore]) *)

Module Store.

Record VectorStoreConfig := {
  similarityThreshold : float;
  maxResults : Z
}.

(** A row of [documentation_chunks].  The embedding is what the blob decodes
    to ([None] for NULL or a blob that does not decode); the numeric columns
    may be NULL. *)
Record Row := {
  row_id : jsstring;
  file_path : jsstring;
  section_heading : jsstring;
  row_content : jsstring;
  row_embedding : option (list float);
  word_count : option float;
  header_level : option float;
  last_modified : option Z
}.

Record VectorStore := {
  db_open : bool;
  isInitialized : bool;
  config : VectorStoreConfig
}.

(** A chunk with its similarity, as [searchSimilar] collects them. *)
Record Scored := {
  chunk : DocumentationChunk;
  similarity : float
}.

(** [simpleHash]: the 32-bit string hash, made non-negative. *)
Definition simpleHash (word : jsstring) : Z := Z.abs (Num.string_hash word).

Definition number_of_Z (z : Z) : float :=
  if (z <? 0)%Z then (- PrimFloat.of_uint63 (Uint63.of_Z (- z)))%float
  else PrimFloat.of_uint63 (Uint63.of_Z z).

Definition dimensions : nat := 128.
Definition zeros : list float := repeat 0%float dimensions.

(** [a || b] on a numeric column: NULL, 0 and NaN give [b]. *)
Definition or_number (a : option float) (b : float) : float :=
  match a with
  | Some x => if (x =? 0)%float || Num.isNaN x then b else x
  | None => b
  end.

(** [l.slice(0, n)]: a negative [n] counts from the end. *)
Definition slice0 {A} (n : Z) (l : list A) : list A :=
  if (n <? 0)%Z then firstn (Z.to_nat (Z.max (Z.of_nat (length l) + n) 0)) l
  else firstn (Z.to_nat n) l.

(** [cosineSimilarity].  The [throw]s of the body are caught by its own
    [catch], which returns 0. *)
Fixpoint accumulate (a b : list float) (dotProduct normA normB : float)
  : float * float * float :=
  match a, b with
  | valA :: a', valB :: b' =>
      if negb (Num.isFinite valA) || negb (Num.isFinite valB)
      then accumulate a' b' dotProduct normA normB
      else accumulate a' b' (dotProduct + valA * valB)%float
             (normA + valA * valA)%float (normB + valB * valB)%float
  | _, _ => (dotProduct, normA, normB)
  end.

Definition cosineSimilarity (a b : list float) : float :=
  if negb (length a =? length b)%nat then 0%float
  else if (length a =? 0)%nat then 0%float
  else
    let '(dotProduct, normA, normB) := accumulate a b 0 0 0 in
    let normA := Num.Math_sqrt normA in
    let normB := Num.Math_sqrt normB in
    if (normA =? 0)%float || (normB =? 0)%float then 0%float
    else
      let similarity := (dotProduct / (normA * normB))%float in
      if (similarity <? -1)%float || (1 <? similarity)%float
      then Num.Math_max (-1) (Num.Math_min 1 similarity)
      else similarity.

Section WithHost.
Context `{Host}.

(** The inner loop over the dimensions [j], for the word at position [i]. *)
Fixpoint add_features (hash : Z) (i : nat) (count : float) (j : nat)
    (embedding : list float) : list float :=
  match embedding with
  | [] => []
  | v :: rest =>
      let feature :=
        (Math_sin ((number_of_Z hash + number_of_nat j) * 0.1)
         * Math_cos ((number_of_nat i + number_of_nat j) * 0.05))%float in
      (v + feature / Num.Math_sqrt count)%float
      :: add_features hash i count (S j) rest
  end.

(** The outer loop over the words. *)
Fixpoint add_words (count : float) (i : nat) (words : list jsstring)
    (embedding : list float) : list float :=
  match words with
  | [] => embedding
  | word :: rest =>
      add_words count (S i) rest
        (add_features (simpleHash word) i count 0 embedding)
  end.

Definition words_of (text : jsstring) : list jsstring :=
  List.filter nonempty (split_runs is_ws (toLowerCase text)).

(** The vector before it is normalised, and its norm. *)
Definition accumulated (text : jsstring) : list float :=
  add_words (number_of_nat (length (words_of text))) 0 (words_of text) zeros.

Definition norm_of (embedding : list float) : float :=
  Num.Math_sqrt (fold_left (fun sum val => (sum + val * val)%float) embedding 0%float).

(** The fallback for a norm that is not positive: [Math.random] is called
    once per dimension; [random i] is what the [i]-th call returns. *)
Fixpoint randomise (random : nat -> float) (i : nat) (embedding : list float)
  : list float :=
  match embedding with
  | [] => []
  | _ :: rest => ((random i - 0.5) * 0.01)%float :: randomise random (S i) rest
  end.

(** [generateEmbedding]; every exception is thrown again in a new [Error]. *)
Definition generateEmbedding (random : nat -> float) (text : jsstring)
  : Thrown + list float :=
  if is_empty text then
    inl (Error (str "Failed to generate embedding: "
                ++ thrown_toString
                     (Error (str "Text input is required and must be a string"))))
  else if is_empty (trim text) then inr zeros
  else if is_empty_list (words_of text) then inr zeros
  else
    let embedding := accumulated text in
    let norm := norm_of embedding in
    if Num.gt0 norm then inr (map (fun v => (v / norm)%float) embedding)
    else inr (randomise random 0 embedding).

(** The body of the [rows.forEach] callback: the scored chunk of a row, if it
    is kept. *)
Definition score_row (now : Z) (threshold : float) (queryEmbedding : list float)
    (row : Row) : option Scored :=
  if is_empty (row_id row) || is_empty (file_path row)
     || is_empty (section_heading row) || is_empty (row_content row)
  then None
  else
    match row_embedding row with
    | None => None
    | Some embedding =>
        if is_empty_list embedding then None
        else
          let similarity := cosineSimilarity queryEmbedding embedding in
          if Num.isNaN similarity || negb (Num.isFinite similarity) then None
          else if Num.geb similarity threshold then
            Some {| chunk :=
                      {| id := row_id row;
                         filePath := file_path row;
                         sectionHeading := section_heading row;
                         content := row_content row;
                         embedding := Some embedding;
                         metadata :=
                           {| level := or_number (header_level row) 1;
                              wordCount := or_number (word_count row) 0;
                              lastModified :=
                                match last_modified row with
                                | Some t => t
                                | None => now
                                end |} |};
                    similarity := similarity |}
          else None
    end.

(** The [results] array after the loop. *)
Definition collect (now : Z) (threshold : float) (queryEmbedding : list float)
    (rows : list Row) : list Scored :=
  flat_map (fun row => match score_row now threshold queryEmbedding row with
                       | Some sc => [sc]
                       | None => []
                       end) rows.

Definition bySimilarity (a b : Scored) : float :=
  (similarity b - similarity a)%float.

Definition wrap (pre : string) (e : Thrown) : Thrown :=
  Error (str pre ++ thrown_toString e).

(** [searchSimilar]; [rows] is what the [SELECT] gives, rows or an error. *)
Definition searchSimilar (random : nat -> float) (now : Z) (store : VectorStore)
    (rows : Thrown + list Row) (query : jsstring) (topK : Z)
  : Thrown + list DocumentationChunk :=
  if negb (db_open store) then
    inl (wrap "Similarity search failed: " (Error (str "Database not initialized")))
  else if negb (isInitialized store) then
    inl (wrap "Similarity search failed: "
           (Error (str "VectorStore not properly initialized")))
  else if is_empty query then
    inl (wrap "Similarity search failed: "
           (Error (str "Query must be a non-empty string")))
  else if is_empty (trim query) then inr []
  else if (topK <=? 0)%Z then
    inl (wrap "Similarity search failed: "
           (Error (str "topK must be a positive integer")))
  else
    match generateEmbedding random query with
    | inl embeddingError =>
        inl (wrap "Similarity search failed: "
               (wrap "Failed to generate query embedding: " embeddingError))
    | inr queryEmbedding =>
        match rows with
        | inl err =>
            inl (Error (str "Failed to search chunks: " ++ thrown_message err))
        | inr rows =>
            let results :=
              collect now (similarityThreshold (config store)) queryEmbedding rows in
            let sorted := Sort.sort bySimilarity results in
            let limit := Z.min topK (maxResults (config store)) in
            let topResults := slice0 limit sorted in
            inr (map chunk topResults)
        end
    end.

End WithHost.
End Store.

(** ** A host to run the code on

    For the examples: the case mapping and the collation of the ASCII
    range, polynomial stand-ins for the sine and the cosine, and a digest
    that returns its input (so that it has no collisions). *)

Module TestHost.

Definition lower_ascii (s : jsstring) : jsstring :=
  map (fun c => if is_upper c then (c + 32)%N else c) s.

Definition compare_code_units (s t : jsstring) : float :=
  if JS.eqb s t then 0%float
  else if Sort.code_unit_leb s t then (-1)%float else 1%float.

Definition poly_sin (x : float) : float := (x - x * x * x / 6)%float.
Definition poly_cos (x : float) : float := (1 - x * x / 2)%float.

Definition host : Host := {|
  toLowerCase := lower_ascii;
  localeCompare := compare_code_units;
  Math_sin := poly_sin;
  Math_cos := poly_cos;
  sha256_hex := fun s => s;
  path_relative := fun p => p
|}.

End TestHost.

(** ** Inputs for the examples *)

Module Examples.
Import Engine.

(** A selection naming [calculateSum]. *)
Definition ctx_sum : CodeContext :=
  {| selectedText := str "function calculateSum(a,b){return a+b;}";
     fileName := str "math.js";
     functionName := Some (str "calculateSum");
     className := None;
     imports := [str "zlib"; str "fs"];
     surroundingContext := str "// helpers";
     language := str "javascript" |}.


(** The same selection with other lines around it. *)
Definition ctx_sum_moved : CodeContext :=
  {| selectedText := selectedText ctx_sum;
     fileName := fileName ctx_sum;
     functionName := functionName ctx_sum;
     className := className ctx_sum;
     imports := imports ctx_sum;
     surroundingContext := str "// moved to another place";
     language := language ctx_sum |}.

(** Two selections whose texts have the same 32-bit hash. *)
Definition ctx_Aa : CodeContext :=
  {| selectedText := str "Aa"; fileName := str "math.js";
     functionName := None; className := None; imports := [];
     surroundingContext := []; language := str "javascript" |}.
Definition ctx_BB : CodeContext :=
  {| selectedText := str "BB"; fileName := str "math.js";
     functionName := None; className := None; imports := [];
     surroundingContext := []; language := str "javascript" |}.

Definition doc_sum : DocumentationChunk :=
  {| id := str "readme-md-calculatesum";
     filePath := str "README.md";
     sectionHeading := str "calculateSum";
     content := str "The calculateSum function adds two numbers together and returns it.";
     embedding := None;
     metadata := {| level := 2; wordCount := 10; lastModified := 0 |} |}.

Definition no_fault : Stage -> option Thrown := fun _ => None.

(** A store of three sections, embedded on the test host. *)
Definition embed (text : string) : list float :=
  match Store.generateEmbedding (H := TestHost.host) (fun _ => 0.5%float) (str text) with
  | inr v => v
  | inl _ => []
  end.

Definition row (name text : string) : Store.Row :=
  {| Store.row_id := str name;
     Store.file_path := str "README.md";
     Store.section_heading := str name;
     Store.row_content := str text;
     Store.row_embedding := Some (embed text);
     Store.word_count := Some 3%float;
     Store.header_level := Some 2%float;
     Store.last_modified := Some 0%Z |}.

Definition rows : list Store.Row :=
  [row "render" "render the page"; row "sum" "calculate sum";
   row "total" "calculate sum total"].

Definition store : Store.VectorStore :=
  {| Store.db_open := true; Store.isInitialized := true;
     Store.config := {| Store.similarityThreshold := (-1)%float;
                        Store.maxResults := 2 |} |}.

(** An empty store, a store holding [doc_sum], and a store that fails. *)
Definition env_empty (t : Z) : Env :=
  {| searchSimilar := fun _ _ => inr []; fault := no_fault; now := t |}.
Definition env_sum (t : Z) : Env :=
  {| searchSimilar := fun _ _ => inr [doc_sum]; fault := no_fault; now := t |}.
Definition env_down (t : Z) : Env :=
  {| searchSimilar := fun _ _ => inl (Error (str "network connection lost"));
     fault := no_fault; now := t |}.

(** A README of one section [A] with a heading line of hashes and blanks
    only between its two lines, and the same README without that line. *)
Definition md_empty_heading : jsstring :=
  str "# A" ++ newline ++ str "foo" ++ newline ++ str "#  " ++ newline ++ str "bar".
Definition md_heading_deleted : jsstring :=
  str "# A" ++ newline ++ str "foo" ++ newline ++ str "bar".

End Examples.

(** ** Cache statistics ([ExplanationCacheManager.getStats]) *)

Module CacheStats.
Import Cache.

Record Stats := {
  stats_size : nat;
  validEntries : nat;
  expiredEntries : nat
}.

(** One turn of the loop over [cache.values()]: the pair of counters. *)
Definition count_entry (now : Z) (counts : nat * nat) (entry : ExplanationCache)
  : nat * nat :=
  if isValidEntry now entry then (S (fst counts), snd counts)
  else (fst counts, S (snd counts)).

(** [getStats].  The loop visits the entries in the order of the [Map]; the
    counters do not depend on it. *)
Definition getStats (now : Z) (m : Manager) : Stats :=
  let counts :=
    fold_left (count_entry now) (map snd (map_to_list (cache m))) (0, 0)%nat in
  {| stats_size := Cache.size m;
     validEntries := fst counts;
     expiredEntries := snd counts |}.


End CacheStats.

(** ** The other operations of the engine ([RAGEngine]) *)

Module EngineOps.
Import Engine.

(** [clearCache], [cleanupCache], [getCacheStats] *)
Definition clearCache (st : State) : State :=
  set_cache (Cache.clear (cacheManager st)) st.

Definition cleanupCache (now : Z) (st : State) : State :=
  set_cache (Cache.cleanupExpired now (cacheManager st)) st.

Definition getCacheStats (now : Z) (st : State) : CacheStats.Stats :=
  CacheStats.getStats now (cacheManager st).

(** [getDeduplicationStats().activeRequests] *)
Definition activeRequests (st : State) : nat := size (requestDeduplication st).

Section WithHost.
Context `{Host}.
Local Open Scope js_scope.

Section WithEnv.
Variable env : Env.

(** [JSON.stringify] of a list of citations. *)
Variable stringify : list Citation -> jsstring.

(** The first loop of [validateDeterministicBehavior].  (A request that
    misses the cache sorts the imports of the context it is given; the
    next turns see them sorted, which changes neither the cache key nor
    what a miss computes.) *)
Fixpoint run_iterations (iterations : nat) (context : CodeContext)
  : M State (list ExplanationResult) :=
  match iterations with
  | O => ret []
  | S n =>
      let* result := processExplanationRequest env context in
      let* results := run_iterations n context in
      ret (result :: results)
  end.

(** The four tests of the second loop. *)
Definition differs (firstResult currentResult : ExplanationResult) : bool :=
  negb (JS.eqb (explanation firstResult) (explanation currentResult))
  || negb (JS.eqb (stringify (citations firstResult))
                  (stringify (citations currentResult)))
  || Num.gtb (Num.Math_abs (confidence firstResult - confidence currentResult))
             0.001%float
  || negb (Bool.eqb (hasRelevantDocs firstResult) (hasRelevantDocs currentResult)).

Definition all_identical (results : list ExplanationResult) : bool :=
  match results with
  | [] => true
  | firstResult :: rest =>
      forallb (fun currentResult => negb (differs firstResult currentResult)) rest
  end.

(** [validateDeterministicBehavior]: the requests run against a new
    cache manager, and the [finally] block puts the original one back. *)
Definition validateDeterministicBehavior (context : CodeContext)
    (iterations : nat) : M State bool :=
  fun st =>
    let originalCache := cacheManager st in
    try_finally
      (let* results := run_iterations iterations context in
       ret (all_identical results))
      (set_cache originalCache)
      (set_cache Cache.new st).

End WithEnv.
End WithHost.
End EngineOps.

(** ** Embeddings for the chunks ([DocumentationIndexer.generateEmbeddings]) *)

Module IndexerEmbed.

(** The vector store as the indexer uses it: what [generateEmbedding]
    gives for a text at its [n]-th call. *)
Definition Embedder := nat -> jsstring -> Thrown + list float.

(** [{ ...chunk, embedding }] *)
Definition with_embedding (chunk : DocumentationChunk) (e : list float)
  : DocumentationChunk :=
  {| id := id chunk;
     filePath := filePath chunk;
     sectionHeading := sectionHeading chunk;
     content := content chunk;
     embedding := Some e;
     metadata := metadata chunk |}.

(** The loop over the chunks; a chunk whose embedding fails is kept as it
    is. *)
Fixpoint embed_from (embed : Embedder) (n : nat) (chunks : list DocumentationChunk)
  : list DocumentationChunk :=
  match chunks with
  | [] => []
  | chunk :: rest =>
      match embed n (content chunk) with
      | inr e => with_embedding chunk e
      | inl _ => chunk
      end :: embed_from embed (S n) rest
  end.

(** [generateEmbeddings]; without a vector store the chunks come back. *)
Definition generateEmbeddings (vectorStore : option Embedder)
    (chunks : list DocumentationChunk) : list DocumentationChunk :=
  match vectorStore with
  | None => chunks
  | Some embed => embed_from embed 0 chunks
  end.

(** [VectorStore.generateEmbedding] as an embedder; [random n] is what
    [Math.random] returns during the [n]-th call. *)
Definition store_embedder `{Host} (random : nat -> nat -> float) : Embedder :=
  fun n text => Store.generateEmbedding (random n) text.

End IndexerEmbed.

(** ** The store without a database ([SimpleVectorStore]) *)

Module SimpleStore.

Record SimpleVectorStore := {
  chunks : list DocumentationChunk;
  config : Store.VectorStoreConfig;
  isInitialized : bool
}.

(** A chunk with its score, as [searchSimilar] maps them. *)
Record ScoredChunk := {
  chunk : DocumentationChunk;
  score : float
}.

(** [simpleHash]: the 32-bit string hash, with its sign. *)
Definition simpleHash (word : jsstring) : Z := Num.string_hash word.

Definition notInitialized : Thrown := Error (str "VectorStore not initialized").

Section WithHost.
Context `{Host}.

(** One turn of the loop over the words of the query. *)
Definition word_score (contentLower headingLower : jsstring) (score : float)
    (word : jsstring) : float :=
  let score := if includes contentLower word then (score + 1)%float else score in
  if includes headingLower word then (score + 2)%float else score.

(** The callback of [this.chunks.map]. *)
Definition score_chunk (queryLower : jsstring) (queryWords : list jsstring)
    (c : DocumentationChunk) : ScoredChunk :=
  let contentLower := toLowerCase (content c) in
  let headingLower := toLowerCase (sectionHeading c) in
  let score := 0%float in
  let score := if includes contentLower queryLower then (score + 10)%float else score in
  let score := if includes headingLower queryLower then (score + 8)%float else score in
  {| chunk := c;
     score := fold_left (word_score contentLower headingLower) queryWords score |}.

Definition byScore (a b : ScoredChunk) : float := (score b - score a)%float.

Definition queryWords_of (queryLower : jsstring) : list jsstring :=
  List.filter (fun word => (2 <? length word)%nat) (split_runs is_ws queryLower).

(** [item.score >= this.config.similarityThreshold * 10] *)
Definition passes (store : SimpleVectorStore) (item : ScoredChunk) : bool :=
  Num.geb (score item) (Store.similarityThreshold (config store) * 10)%float.

(** [searchSimilar], for an integer [topK]. *)
Definition searchSimilar (store : SimpleVectorStore) (query : jsstring) (topK : Z)
  : Thrown + list DocumentationChunk :=
  if negb (isInitialized store) then inl notInitialized
  else
    let queryLower := toLowerCase query in
    let queryWords := queryWords_of queryLower in
    let scoredChunks := map (score_chunk queryLower queryWords) (chunks store) in
    let filteredChunks :=
      map chunk
        (Store.slice0 (Z.min topK (Store.maxResults (config store)))
           (Sort.sort byScore (List.filter (passes store) scoredChunks))) in
    inr filteredChunks.

(** The loop of [generateEmbedding] over the words: the index is a
    remainder by the length, so the update is within the array. *)
Definition count_word (embedding : list float) (word : jsstring) : list float :=
  let hash := simpleHash word in
  let index := Z.to_nat (Z.abs hash mod Z.of_nat (length embedding)) in
  alter (fun v => (v + 1)%float) index embedding.

Definition generateEmbedding (text : jsstring) : list float :=
  let words := split_runs is_ws (toLowerCase text) in
  let embedding := fold_left count_word words (repeat 0%float 100) in
  let magnitude :=
    Num.Math_sqrt (fold_left (fun sum val => (sum + val * val)%float) embedding 0%float) in
  if Num.gt0 magnitude then map (fun v => (v / magnitude)%float) embedding
  else embedding.

(** [chunk.embedding = ...] *)
Definition embed (c : DocumentationChunk) : DocumentationChunk :=
  {| id := id c;
     filePath := filePath c;
     sectionHeading := sectionHeading c;
     content := content c;
     embedding := Some (generateEmbedding (content c));
     metadata := metadata c |}.

(** [storeChunks]; [save] is what writing the file gives.  The chunks are
    replaced before the file is written. *)
Definition storeChunks (save : Thrown + unit) (given : list DocumentationChunk)
    (store : SimpleVectorStore) : (Thrown + unit) * SimpleVectorStore :=
  if negb (isInitialized store) then (inl notInitialized, store)
  else
    (save,
     {| chunks := map embed given;
        config := config store;
        isInitialized := isInitialized store |}).

(** [clearIndex] and [close]. *)
Definition clearIndex (save : Thrown + unit) (store : SimpleVectorStore)
  : (Thrown + unit) * SimpleVectorStore :=
  (save, {| chunks := []; config := config store;
            isInitialized := isInitialized store |}).

Definition close (store : SimpleVectorStore) : SimpleVectorStore :=
  {| chunks := chunks store; config := config store; isInitialized := false |}.

End WithHost.
End SimpleStore.

(* ===================================================================== *)
(** * Part II: properties                                                 *)
(* ===================================================================== *)

(** ** Strings *)

Module JSFacts.

Lemma split_runs_from_cons p b s : split_runs_from p b s <> [] \/ (b = true).
Proof.
  destruct s as [|c s']; simpl; [left; discriminate|].
  destruct (p c), b; auto; try (left; discriminate);
    destruct (split_runs_from p false s'); left; discriminate.
Qed.

Lemma split_runs_false_nonnil p s : split_runs_from p false s <> [].
Proof. destruct (split_runs_from_cons p false s); congruence. Qed.

(** The pieces [split(/\s+/)] leaves, empty ones dropped, are as many as
    the tokens of the text. *)
Lemma split_runs_count s :
  length (List.filter nonempty (split_runs_from is_ws true s)) = Indexer.token_starts false s
  /\ length (List.filter nonempty (split_runs_from is_ws false s)) = Indexer.token_starts false s
  /\ length (List.filter nonempty (tl (split_runs_from is_ws false s))) = Indexer.token_starts true s.
Proof.
  induction s as [|c s' (IH1 & IH2 & IH3)]; simpl; [auto|].
  destruct (is_ws c); simpl; [auto|].
  pose proof (split_runs_false_nonnil is_ws s') as Hne.
  destruct (split_runs_from is_ws false s') as [|w ws]; [congruence|].
  simpl in *. rewrite IH3. auto.
Qed.

Lemma wordCountOf_tokens s : Indexer.wordCountOf s = Indexer.count_tokens s.
Proof. apply (split_runs_count s). Qed.

End JSFacts.

(** ** The chunker *)

Module IndexerFacts.
Import Indexer.

Lemma first_some_In {A B} (f : A -> option B) l b :
  first_some f l = Some b -> exists a, In a l /\ f a = Some b.
Proof.
  induction l as [|a l IH]; simpl; [discriminate|].
  destruct (f a) eqn:E; intros Hb.
  - exists a. split; [now left | congruence].
  - destruct (IH Hb) as (a' & Hin & Ha'). exists a'. auto.
Qed.

Lemma try_header_hashes line k p n text :
  try_header line k p = Some (n, text) -> n = k /\ text <> [].
Proof.
  unfold try_header.
  destruct (_ && _) eqn:E; [|discriminate].
  intros [= <- <-]. split; [reflexivity|].
  repeat (apply andb_prop in E; destruct E as [E ?]).
  destruct (skipn p (skipn k line)); [discriminate | discriminate].
Qed.

Lemma header_match_level line n text :
  header_match line = Some (n, text) -> (1 <= n <= 6)%nat.
Proof.
  unfold header_match. intros Hm.
  apply first_some_In in Hm. destruct Hm as (k & Hk & Hm).
  apply first_some_In in Hm. destruct Hm as (p & _ & Hm).
  apply try_header_hashes in Hm. destruct Hm as [-> _].
  simpl in Hk. lia.
Qed.

(** *** The ids

    The [while] loop of [generateUniqueChunkId] is run with as many tests
    as there are ids in use, and one more.  That is enough: the ids it
    tries differ from each other, so one of them is not in use. *)

Lemma str_inj s t : str s = str t -> s = t.
Proof.
  unfold str. intros E.
  rewrite <- (string_of_list_ascii_of_string s), <- (string_of_list_ascii_of_string t).
  f_equal. revert E. generalize (list_ascii_of_string s) (list_ascii_of_string t).
  induction l as [|a l IH]; intros [|b l']; simpl; try discriminate; [reflexivity|].
  intros [= E1 E2]. f_equal; [|apply IH; exact E2].
  rewrite <- (ascii_N_embedding a), <- (ascii_N_embedding b), E1. reflexivity.
Qed.

Lemma decimal_inj j k : decimal j = decimal k -> j = k.
Proof.
  unfold decimal. intros E. apply str_inj in E.
  apply (f_equal NilEmpty.uint_of_string) in E. rewrite !NilEmpty.usu in E.
  injection E as E. apply (f_equal Nat.of_uint) in E.
  rewrite !DecimalNat.Unsigned.of_to in E. exact E.
Qed.

(** The ids the loop tries, in order. *)
Definition candidate (cleanId : jsstring) (k : nat) : jsstring :=
  match k with
  | O => cleanId
  | S _ => cleanId ++ [dash] ++ decimal k
  end.

Lemma candidate_inj cleanId j k : candidate cleanId j = candidate cleanId k -> j = k.
Proof.
  destruct j as [|j], k as [|k]; simpl; intros E; [reflexivity| | |].
  - apply (f_equal (@length N)) in E. rewrite length_app in E. simpl in E. lia.
  - apply (f_equal (@length N)) in E. rewrite length_app in E. simpl in E. lia.
  - apply app_inv_head in E. injection E as E. apply decimal_inj. exact E.
Qed.

Lemma unique_loop_tested cleanId used fuel : forall k,
  unique_loop fuel cleanId used (candidate cleanId k) (S k) ∉ used
  \/ incl (map (candidate cleanId) (seq k fuel)) used.
Proof.
  induction fuel as [|fuel IH]; intros k; cbn [unique_loop seq map].
  - right. intros x [].
  - destruct (bool_decide (candidate cleanId k ∈ used)) eqn:E.
    + apply bool_decide_eq_true_1 in E.
      destruct (IH (S k)) as [Hf | Hi]; [left; exact Hf|].
      right. intros x [<- | Hx]; [apply list_elem_of_In; exact E | apply Hi; exact Hx].
    + left. apply bool_decide_eq_false_1 in E. exact E.
Qed.

(** The loop ends before its fuel does: the id it returns is not in use. *)
Lemma unique_loop_fresh cleanId used :
  unique_loop (S (length used)) cleanId used cleanId 1 ∉ used.
Proof.
  destruct (unique_loop_tested cleanId used (S (length used)) 0) as [Hf | Hi];
    [exact Hf|].
  apply NoDup_incl_length in Hi.
  - rewrite length_map, length_seq in Hi. lia.
  - apply Finite.Injective_map_NoDup; [|apply seq_NoDup].
    intros j k. apply candidate_inj.
Qed.

(** More fuel does not change the id. *)
Lemma unique_loop_fuel cleanId used fuel extra : forall uniqueId counter,
  unique_loop fuel cleanId used uniqueId counter ∉ used ->
  unique_loop (fuel + extra) cleanId used uniqueId counter
  = unique_loop fuel cleanId used uniqueId counter.
Proof.
  induction fuel as [|fuel IH]; intros uniqueId counter; cbn [unique_loop Nat.add].
  - intros Hf. destruct extra as [|extra]; [reflexivity|]. cbn [unique_loop].
    rewrite bool_decide_eq_false_2 by exact Hf. reflexivity.
  - destruct (bool_decide (uniqueId ∈ used)); [apply IH | reflexivity].
Qed.

Lemma generateUniqueChunkId_fresh `{Host} filePath heading used :
  (fst (generateUniqueChunkId filePath heading used) ∉ used)
  /\ snd (generateUniqueChunkId filePath heading used)
     = used ++ [fst (generateUniqueChunkId filePath heading used)].
Proof.
  unfold generateUniqueChunkId. cbn [fst snd].
  split; [apply unique_loop_fresh | reflexivity].
Qed.

(** *** The chunks *)

Definition level_ok (m : Metadata) : Prop :=
  exists k, (1 <= k <= 6)%nat /\ level m = number_of_nat k.

(** What the chunk property of the spec asks of one chunk. *)
Definition chunk_ok (c : DocumentationChunk) : Prop :=
  sectionHeading c <> []
  /\ level_ok (metadata c)
  /\ wordCount (metadata c) = number_of_nat (count_tokens (content c)).

Definition current_ok (c : Current) : Prop :=
  cur_heading c <> [] /\ (1 <= cur_level c <= 6)%nat.

Definition state_ok (st : State) : Prop :=
  Forall chunk_ok (chunks st)
  /\ forall c, current st = Some c -> current_ok c.

Section WithHost.
Context `{Host}.
Variable clock : nat -> Z.
Variable filePath : jsstring.

Lemma push_chunk_chunks c text st :
  exists chunk,
    chunks (push_chunk clock filePath c text st) = chunks st ++ [chunk]
    /\ current (push_chunk clock filePath c text st) = current st
    /\ sectionHeading chunk = cur_heading c
    /\ content chunk = text
    /\ level (metadata chunk) = number_of_nat (cur_level c)
    /\ wordCount (metadata chunk) = number_of_nat (wordCountOf text).
Proof.
  unfold push_chunk, createDocumentationChunk.
  destruct (generateUniqueChunkId _ _ _) as [newId used'].
  eexists. simpl. repeat split; reflexivity.
Qed.

Lemma push_chunk_ok c text st :
  state_ok st -> current_ok c -> state_ok (push_chunk clock filePath c text st).
Proof.
  intros [Hch Hcur] [Hh Hl]. unfold state_ok.
  destruct (push_chunk_chunks c text st) as (chunk & -> & -> & Hs & Hc & Hlv & Hw).
  split; [|exact Hcur].
  apply Forall_app. split; [exact Hch|].
  constructor; [|constructor].
  repeat split.
  - rewrite Hs. exact Hh.
  - exists (cur_level c). auto.
  - rewrite Hw, Hc. f_equal. apply JSFacts.wordCountOf_tokens.
Qed.

Lemma save_previous_ok st : state_ok st -> state_ok (save_previous clock filePath st).
Proof.
  intros Hst. unfold save_previous.
  destruct (current st) as [c|] eqn:Ec; [|exact Hst].
  destruct (_ || _); [|exact Hst].
  apply push_chunk_ok; [exact Hst|]. apply Hst. exact Ec.
Qed.

Lemma set_current_ok c st :
  state_ok st -> current_ok c -> state_ok (set_current (Some c) st).
Proof.
  intros [Hch _] Hc. split; [exact Hch|].
  simpl. intros c' [= <-]. exact Hc.
Qed.

Lemma introduction_nonempty : str "Introduction" <> [].
Proof. discriminate. Qed.

Lemma step_ok st i line : state_ok st -> state_ok (step clock filePath st i line).
Proof.
  intros Hst. unfold step.
  destruct (header_match line) as [[hashes text]|] eqn:Hm.
  - pose proof (save_previous_ok st Hst) as Hst1.
    destruct (is_empty (trim text)) eqn:Ee; [exact Hst1|].
    apply set_current_ok; [exact Hst1|]. split; simpl.
    + intros E. rewrite E in Ee. discriminate.
    + eapply header_match_level. exact Hm.
  - destruct (current st) as [c|] eqn:Ec.
    + apply set_current_ok; [exact Hst|].
      destruct Hst as [_ Hc]. specialize (Hc c Ec). exact Hc.
    + destruct (nonempty (trim line)); [|exact Hst].
      apply set_current_ok; [exact Hst|]. split; simpl.
      * apply introduction_nonempty.
      * lia.
Qed.

Lemma run_ok lines : forall st i,
  state_ok st -> state_ok (run clock filePath st i lines).
Proof.
  induction lines as [|line rest IH]; intros st i Hst; simpl; [exact Hst|].
  apply IH. apply step_ok. exact Hst.
Qed.

Lemma save_final_ok st : state_ok st -> state_ok (save_final clock filePath st).
Proof.
  intros Hst. unfold save_final.
  destruct (current st) as [c|] eqn:Ec; [|exact Hst].
  apply push_chunk_ok; [exact Hst|]. apply Hst. exact Ec.
Qed.

(** Counting: a heading line pushes at most one chunk, other lines none. *)
Definition headers_in (lines : list jsstring) : nat :=
  length (List.filter (fun l => bool_decide (is_Some (header_match l))) lines).

Lemma push_chunk_length c text st :
  length (chunks (push_chunk clock filePath c text st)) = S (length (chunks st)).
Proof.
  destruct (push_chunk_chunks c text st) as (chunk & -> & _).
  rewrite length_app. simpl. lia.
Qed.

Lemma save_previous_length st :
  (length (chunks (save_previous clock filePath st)) <= S (length (chunks st)))%nat.
Proof.
  unfold save_previous. destruct (current st); [|lia].
  destruct (_ || _); [|lia]. rewrite push_chunk_length. lia.
Qed.

Lemma step_length st i line :
  (length (chunks (step clock filePath st i line))
   <= length (chunks st) + headers_in [line])%nat.
Proof.
  unfold step, headers_in. simpl.
  destruct (header_match line) as [[hashes text]|] eqn:Hm.
  - rewrite bool_decide_true by eauto. simpl.
    pose proof (save_previous_length st).
    destruct (is_empty (trim text)); simpl; lia.
  - rewrite bool_decide_false by (intros [? ?]; discriminate). simpl.
    destruct (current st); simpl; [lia|].
    destruct (nonempty (trim line)); simpl; lia.
Qed.

Lemma run_length lines : forall st i,
  (length (chunks (run clock filePath st i lines))
   <= length (chunks st) + headers_in lines)%nat.
Proof.
  induction lines as [|line rest IH]; intros st i; simpl; [unfold headers_in; simpl; lia|].
  specialize (IH (step clock filePath st i line) (S i)).
  pose proof (step_length st i line) as Hs.
  unfold headers_in in *. simpl in *.
  destruct (bool_decide _); simpl in *; lia.
Qed.

Lemma save_final_length st :
  (length (chunks (save_final clock filePath st)) <= S (length (chunks st)))%nat.
Proof.
  unfold save_final. destruct (current st); [|lia].
  rewrite push_chunk_length. lia.
Qed.

End WithHost.

Lemma level_between m :
  level_ok m -> (1 <=? level m)%float = true /\ (level m <=? 6)%float = true.
Proof.
  intros (k & Hk & ->).
  assert (k = 1 \/ k = 2 \/ k = 3 \/ k = 4 \/ k = 5 \/ k = 6)%nat as Hc by lia.
  repeat (destruct Hc as [-> | Hc]; [split; vm_compute; reflexivity|]).
  subst. split; vm_compute; reflexivity.
Qed.

(** C6. For every markdown input, every chunk [splitByHeaders] returns has a
    non-empty [sectionHeading], a [metadata.level] that is one of 1..6, and
    a [metadata.wordCount] equal to the number of whitespace-separated
    non-empty tokens of its [content]; and there are at most as many chunks
    as heading lines in the input, plus one. *)
Theorem splitByHeaders_chunks_wellformed `{Host} (clock : nat -> Z)
    (markdown filePath : jsstring) :
  Forall (fun c =>
            sectionHeading c <> []
            /\ (exists k, (1 <= k <= 6)%nat /\ level (metadata c) = number_of_nat k)
            /\ (1 <=? level (metadata c))%float = true
            /\ (level (metadata c) <=? 6)%float = true
            /\ wordCount (metadata c)
               = number_of_nat (count_tokens (content c)))
         (splitByHeaders clock markdown filePath)
  /\ (length (splitByHeaders clock markdown filePath)
      <= heading_lines markdown + 1)%nat.
Proof.
  unfold splitByHeaders.
  destruct (is_empty markdown); [split; [constructor | simpl; lia]|].
  set (st := save_final clock filePath
               (run clock filePath initial 0 (split_char 10 markdown))).
  assert (state_ok st) as [Hok _].
  { apply save_final_ok, run_ok. split; [constructor | discriminate]. }
  split.
  - apply List.Forall_forall. intros c Hc.
    apply filter_In in Hc. destruct Hc as [Hc _].
    rewrite List.Forall_forall in Hok. destruct (Hok c Hc) as (Hh & Hl & Hw).
    destruct (level_between _ Hl) as [H1 H6].
    repeat split; assumption.
  - etransitivity; [apply List.filter_length_le|].
    subst st. etransitivity; [apply save_final_length|].
    pose proof (run_length clock filePath (split_char 10 markdown) initial 0) as Hr.
    simpl in Hr. unfold heading_lines, headers_in in *. lia.
Qed.

(** The heading and the content of a chunk. *)
Definition summary (c : DocumentationChunk) : jsstring * jsstring :=
  (sectionHeading c, content c).

(** C7 on the code.  A heading line whose text trims to nothing opens no
    chunk and leaves the open chunk open, so the lines after it go to that
    chunk; but the loop saves the open chunk before it looks at the heading
    text, so the line acts as "save previous chunk".  On the README
    [# A / foo / #  / bar] this gives section [A] twice, with content [foo]
    and with content [foo / bar]; without the line it gives section [A]
    once, with content [foo / bar]. *)
Theorem splitByHeaders_empty_heading_duplicates `{Host} (clock : nat -> Z) :
  (forall filePath st i line k text,
      header_match line = Some (k, text) -> trim text = [] ->
      step clock filePath st i line = save_previous clock filePath st
      /\ current (step clock filePath st i line) = current st)
  /\ header_match (str "#  ") = Some (1%nat, str " ")
  /\ trim (str " ") = []
  /\ map summary (splitByHeaders clock Examples.md_empty_heading (str "README.md"))
     = [(str "A", str "foo"); (str "A", str "foo" ++ newline ++ str "bar")]
  /\ map summary (splitByHeaders clock Examples.md_heading_deleted (str "README.md"))
     = [(str "A", str "foo" ++ newline ++ str "bar")].
Proof.
  split; [|repeat split; reflexivity].
  intros filePath st i line k text Hm Ht.
  assert (step clock filePath st i line = save_previous clock filePath st) as Hs.
  { unfold step. rewrite Hm, Ht. reflexivity. }
  split; [exact Hs|]. rewrite Hs. unfold save_previous.
  destruct (current st) as [c|] eqn:Ec; [|exact Ec].
  destruct (_ || _); [|exact Ec].
  unfold push_chunk. destruct (createDocumentationChunk _ _ _ _ _ _ _). exact Ec.
Qed.

(** The same on the host of the examples, where the two chunks of the
    first README get the ids [readme-md-a] and [readme-md-a-1]. *)
Lemma splitByHeaders_empty_heading_duplicates_witness :
  step (H := TestHost.host) (fun _ => 0%Z) (str "README.md") initial 0 (str "#  ")
  = save_previous (H := TestHost.host) (fun _ => 0%Z) (str "README.md") initial
  /\ map id (splitByHeaders (H := TestHost.host) (fun _ => 0%Z)
               Examples.md_empty_heading (str "README.md"))
     = [str "readme-md-a"; str "readme-md-a-1"]
  /\ map summary (splitByHeaders (H := TestHost.host) (fun _ => 0%Z)
                    Examples.md_empty_heading (str "README.md"))
     = [(str "A", str "foo"); (str "A", str "foo" ++ newline ++ str "bar")].
Proof.
  destruct (splitByHeaders_empty_heading_duplicates (H := TestHost.host) (fun _ => 0%Z))
    as (Hstep & _ & _ & Hdup & _).
  split; [|split; [vm_compute; reflexivity | exact Hdup]].
  apply (Hstep (str "README.md") initial 0%nat (str "#  ") 1%nat (str " "));
    vm_compute; reflexivity.
Defined.

End IndexerFacts.

(** ** Sorting *)

Module SortFacts.
Import Sort.

Lemma insert_length {A} (cmp : A -> A -> float) x l :
  length (insert cmp x l) = S (length l).
Proof.
  induction l as [|y l IH]; simpl; [reflexivity|].
  destruct (Num.gt0 (cmp x y)); simpl; congruence.
Qed.

Lemma sort_length {A} (cmp : A -> A -> float) l :
  length (sort cmp l) = length l.
Proof.
  induction l as [|x l IH]; simpl; [reflexivity|].
  rewrite insert_length. f_equal. exact IH.
Qed.

Lemma sort_nonempty {A} (cmp : A -> A -> float) l : l <> [] -> sort cmp l <> [].
Proof.
  intros Hl Hs. apply (f_equal (@length A)) in Hs.
  rewrite sort_length in Hs. destruct l; [exact (Hl eq_refl) | discriminate].
Qed.

(** The default order on strings is a total order. *)
Definition code_unit_le (s t : jsstring) : Prop := code_unit_leb s t = true.

Lemma code_unit_leb_total s : forall t,
  code_unit_leb s t = true \/ code_unit_leb t s = true.
Proof.
  induction s as [|a s IH]; intros [|b t]; simpl; auto.
  destruct (N.compare_spec a b) as [-> | Hlt | Hgt].
  - rewrite N.ltb_irrefl, N.eqb_refl. simpl. apply IH.
  - left. apply N.ltb_lt in Hlt. rewrite Hlt. reflexivity.
  - right. apply N.ltb_lt in Hgt. rewrite Hgt. reflexivity.
Qed.

Lemma code_unit_leb_cons a s b t :
  code_unit_leb (a :: s) (b :: t) = true <->
  (a < b)%N \/ (a = b /\ code_unit_leb s t = true).
Proof.
  simpl. rewrite orb_true_iff, andb_true_iff, N.ltb_lt, N.eqb_eq. tauto.
Qed.

#[export] Instance code_unit_le_trans : Transitive code_unit_le.
Proof.
  intros s. induction s as [|a s IH]; intros [|b t] [|c u]; unfold code_unit_le;
    try (simpl; congruence).
  rewrite !code_unit_leb_cons.
  intros [Hab | [-> Hst]] [Hbc | [-> Htu]]; try (left; lia).
  right. split; [reflexivity|]. exact (IH t u Hst Htu).
Qed.

#[export] Instance code_unit_le_antisym : AntiSymm (=) code_unit_le.
Proof.
  intros s. induction s as [|a s IH]; intros [|b t]; unfold code_unit_le;
    try (simpl; congruence).
  rewrite !code_unit_leb_cons.
  intros [Hab | [-> Hst]] [Hba | [Heq Hts]]; try lia.
  f_equal. exact (IH t Hst Hts).
Qed.

Lemma insert_default_perm x l : insert_default x l ≡ₚ x :: l.
Proof.
  induction l as [|y l IH]; simpl; [reflexivity|].
  destruct (code_unit_leb x y); [reflexivity|].
  rewrite IH. apply Permutation_swap.
Qed.

Lemma sort_default_perm l : sort_default l ≡ₚ l.
Proof.
  induction l as [|x l IH]; simpl; [reflexivity|].
  rewrite insert_default_perm. unfold sort_default in IH. rewrite IH. reflexivity.
Qed.

Lemma insert_default_sorted x l :
  Sorted code_unit_le l -> Sorted code_unit_le (insert_default x l).
Proof.
  induction l as [|y l IH]; intros Hs; simpl.
  - repeat constructor.
  - destruct (code_unit_leb x y) eqn:E.
    + constructor; [exact Hs|]. constructor. exact E.
    + inversion Hs as [|? ? Hs' Hhd]; subst.
      constructor; [apply IH; exact Hs'|].
      assert (code_unit_le y x) as Hyx.
      { destruct (code_unit_leb_total x y) as [Hc|Hc]; [congruence | exact Hc]. }
      destruct l as [|z l]; simpl.
      * constructor. exact Hyx.
      * destruct (code_unit_leb x z); constructor; [exact Hyx|].
        inversion Hhd; subst. assumption.
Qed.

Lemma sort_default_sorted l : Sorted code_unit_le (sort_default l).
Proof.
  induction l as [|x l IH]; simpl; [constructor|].
  apply insert_default_sorted. exact IH.
Qed.

(** Sorting forgets the order the strings came in. *)
Lemma sort_default_permutation l l' :
  l ≡ₚ l' -> sort_default l = sort_default l'.
Proof.
  intros Hp. apply (Sorted_unique code_unit_le); try apply sort_default_sorted.
  rewrite !sort_default_perm. exact Hp.
Qed.

End SortFacts.

(** ** A program logic for computations that return or throw *)

Module Logic.

(** [wp m Q E s]: run from [s], [m] returns a value and a state in [Q] or
    throws a value and leaves a state in [E]. *)
Definition wp {S A} (m : M S A) (Q : A -> S -> Prop) (E : Thrown -> S -> Prop)
    (s : S) : Prop :=
  match m s with
  | (inr a, s') => Q a s'
  | (inl e, s') => E e s'
  end.

Lemma wp_ret {S A} (a : A) Q E (s : S) : Q a s -> wp (ret a) Q E s.
Proof. exact (fun H => H). Qed.

Lemma wp_throw {S A} e (Q : A -> S -> Prop) E (s : S) : E e s -> wp (throw e) Q E s.
Proof. exact (fun H => H). Qed.

Lemma wp_bind {S A B} (m : M S A) (k : A -> M S B) Q E s :
  wp m (fun a s' => wp (k a) Q E s') E s -> wp (bind m k) Q E s.
Proof. unfold wp, bind. destruct (m s) as [[e|a] s']; auto. Qed.

Lemma wp_try_catch {S A} (m : M S A) handler Q E s :
  wp m Q (fun e s' => wp (handler e) Q E s') s -> wp (try_catch m handler) Q E s.
Proof. unfold wp, try_catch. destruct (m s) as [[e|a] s']; auto. Qed.

Lemma wp_try_finally {S A} (m : M S A) cleanup Q E s :
  wp m (fun a s' => Q a (cleanup s')) (fun e s' => E e (cleanup s')) s ->
  wp (try_finally m cleanup) Q E s.
Proof. unfold wp, try_finally. destruct (m s) as [[e|a] s']; auto. Qed.

Lemma wp_modify {S} (f : S -> S) Q E s : Q tt (f s) -> wp (modify f) Q E s.
Proof. exact (fun H => H). Qed.

Lemma wp_gets {S A} (f : S -> A) Q E s : Q (f s) s -> wp (gets f) Q E s.
Proof. exact (fun H => H). Qed.

Lemma wp_mono {S A} (m : M S A) (Q Q' : A -> S -> Prop) (E E' : Thrown -> S -> Prop) s :
  (forall a s', Q a s' -> Q' a s') -> (forall e s', E e s' -> E' e s') ->
  wp m Q E s -> wp m Q' E' s.
Proof. unfold wp. destruct (m s) as [[e|a] s']; auto. Qed.

(** A computation that cannot throw returns. *)
Lemma wp_returns {S A} (m : M S A) Q s :
  wp m Q (fun _ _ => False) s -> exists a s', m s = (inr a, s') /\ Q a s'.
Proof. unfold wp. destruct (m s) as [[e|a] s']; [tauto | eauto]. Qed.

End Logic.

(** ** Dates and the validity of a cache entry *)

Module ValidityFacts.
Import Cache.

(** An entry is valid before its expiry, when the expiry is a date. *)
Lemma isValidEntry_iff now e :
  isValidEntry now e = true
  <-> (now < timestamp e + ttl e)%Z /\ (Z.abs (timestamp e + ttl e) <= maxTime)%Z.
Proof.
  unfold isValidEntry, TimeClip.
  destruct (Z.abs (timestamp e + ttl e) <=? maxTime)%Z eqn:E.
  - apply Z.leb_le in E. rewrite Z.ltb_lt. tauto.
  - apply Z.leb_gt in E. split; [discriminate | lia].
Qed.

Lemma isValidEntry_expired now e :
  (timestamp e + ttl e <= now)%Z -> isValidEntry now e = false.
Proof.
  intros Hexp. destruct (isValidEntry now e) eqn:E; [|reflexivity].
  apply isValidEntry_iff in E. lia.
Qed.

(** An expiry beyond the last date is never reached: the entry is never
    valid. *)
Lemma isValidEntry_invalid_date now e :
  (maxTime < Z.abs (timestamp e + ttl e))%Z -> isValidEntry now e = false.
Proof.
  intros Hexp. destruct (isValidEntry now e) eqn:E; [|reflexivity].
  apply isValidEntry_iff in E. lia.
Qed.

End ValidityFacts.

(** ** The engine *)

Module EngineFacts.
Import Engine Logic.

(** An entry the engine stores: a rejection has no citations, and the other
    way round. *)
Definition entry_ok (e : ExplanationCache) : Prop :=
  cached_explanation e = notDocumented <-> cached_citations e = [].

Definition noCodeText : jsstring := str "No code selected for explanation.".

Section WithHost.
Context `{Host}.

(** What remains of the coupling of the four fields on every result. *)
Definition result_ok (r : ExplanationResult) : Prop :=
  (hasRelevantDocs r = false <-> citations r = [])
  /\ (explanation r = notDocumented -> citations r = [])
  /\ (citations r = [] ->
      explanation r = notDocumented \/ explanation r = noCodeText
      \/ exists e, explanation r = fallbackMessage e)
  /\ (citations r = [] -> confidence r = 0%float \/ confidence r = 1%float).



Definition cache_ok (st : State) : Prop :=
  map_Forall (fun _ e => entry_ok e) (Cache.cache (cacheManager st)).

Definition registry_ok (st : State) : Prop :=
  map_Forall (fun _ (p : Promise) =>
                match p with inr r => result_ok r | inl _ => True end)
             (requestDeduplication st).

Definition state_ok (st : State) : Prop := cache_ok st /\ registry_ok st.

Lemma cacheKey_sorted ctx :
  Cache.generateCacheKey (sorted_imports ctx) = Cache.generateCacheKey ctx.
Proof. reflexivity. Qed.



Lemma enforce_true_nonempty ctx docs :
  fst (enforceDocumentationRequirement ctx docs) = true -> docs <> [].
Proof.
  unfold enforceDocumentationRequirement.
  destruct docs; [discriminate | discriminate].
Qed.

Lemma enforce_false_text ctx docs :
  fst (enforceDocumentationRequirement ctx docs) = false ->
  snd (enforceDocumentationRequirement ctx docs) = notDocumented.
Proof.
  unfold enforceDocumentationRequirement.
  repeat match goal with
         | |- context [if ?b then _ else _] => destruct b
         end; simpl; congruence.
Qed.

Lemma citations_from_length docs : forall i,
  length (citations_from i docs) = length docs.
Proof. induction docs as [|d docs IH]; intros i; simpl; [reflexivity|]. f_equal. apply IH. Qed.

Lemma extractCitations_nonempty docs :
  docs <> [] -> extractCitationsWithConsistentOrdering docs <> [].
Proof.
  intros Hd. apply SortFacts.sort_nonempty.
  destruct docs; [congruence | discriminate].
Qed.






(** The state while a request runs: the cache keeps its invariant and the
    registry is [reg]. *)
Definition Inv (reg : gmap jsstring Promise) (st : State) : Prop :=
  cache_ok st /\ requestDeduplication st = reg.

Lemma inv_count reg st : Inv reg st -> Inv reg (count_retrieval st).
Proof. exact (fun H => H). Qed.




Section WithEnv.
Variable env : Env.

Lemma wp_checkpoint stage (Q : unit -> State -> Prop) E st :
  (forall e, fault env stage = Some e -> E e st) -> Q tt st ->
  wp (checkpoint env stage) Q E st.
Proof.
  intros HE HQ. unfold checkpoint.
  destruct (fault env stage) as [e|]; [apply wp_throw; auto | apply wp_ret; exact HQ].
Qed.

(** Retrieval never throws: it returns the ranked documents, or none
    when the store failed, and has called the store once. *)
Definition retrieved (query : jsstring) : list DocumentationChunk :=
  match searchSimilar env query 5%float with
  | inr relevantChunks => Sort.sort compareDocs relevantChunks
  | inl _ => []
  end.

Definition after_retrieval (query : jsstring) (st : State) : State :=
  match searchSimilar env query 5%float with
  | inr _ => count_retrieval st
  | inl e => log_error InRetrieval e (count_retrieval st)
  end.

Lemma retrieve_run query st :
  retrieveRelevantDocsWithConsistentRanking env query st
  = (inr (retrieved query), after_retrieval query st).
Proof.
  unfold retrieveRelevantDocsWithConsistentRanking, retrieved, after_retrieval,
    try_catch, bind, modify.
  destruct (searchSimilar env query 5%float); reflexivity.
Qed.







End WithEnv.


(** *** Runs without unexpected exceptions *)

Definition cached_result (e : ExplanationCache) : ExplanationResult :=
  {| explanation := cached_explanation e;
     citations := cached_citations e;
     confidence := 1;
     hasRelevantDocs := (0 <? length (cached_citations e))%nat |}.

(** What the request computes from the documents it retrieved. *)
Definition fresh_result (ctx : CodeContext) (docs : list DocumentationChunk)
  : ExplanationResult :=
  if negb (enforceDocumentationRequirement ctx docs).1 then
    rejection (enforceDocumentationRequirement ctx docs).2
  else
    let generated := generateDeterministicExplanation ctx docs in
    if negb (validateExplanationGrounding generated docs) then rejection notDocumented
    else {| explanation := generated;
            citations := extractCitationsWithConsistentOrdering docs;
            confidence := calculateDeterministicConfidence docs;
            hasRelevantDocs := true |}.

(** Enforcement or grounding fails on the documents. *)
Definition rejects (ctx : CodeContext) (docs : list DocumentationChunk) : bool :=
  negb (enforceDocumentationRequirement ctx docs).1
  || negb (validateExplanationGrounding
             (generateDeterministicExplanation ctx docs) docs).

Lemma fresh_result_rejects ctx docs :
  rejects ctx docs = true -> fresh_result ctx docs = rejection notDocumented.
Proof.
  unfold rejects, fresh_result. intros Hr.
  destruct ((enforceDocumentationRequirement ctx docs).1) eqn:Ee; simpl in *.
  - rewrite Hr. reflexivity.
  - rewrite (enforce_false_text ctx docs Ee). reflexivity.
Qed.

Lemma fresh_result_flag ctx docs :
  hasRelevantDocs (fresh_result ctx docs)
  = (0 <? length (citations (fresh_result ctx docs)))%nat.
Proof.
  unfold fresh_result.
  destruct ((enforceDocumentationRequirement ctx docs).1) eqn:Ee; simpl; [|reflexivity].
  destruct (validateExplanationGrounding _ docs); simpl; [|reflexivity].
  pose proof (extractCitations_nonempty docs (enforce_true_nonempty ctx docs Ee)) as Hx.
  destruct (extractCitationsWithConsistentOrdering docs); [congruence | reflexivity].
Qed.

Lemma set_cache_id st : set_cache (cacheManager st) st = st.
Proof. destruct st; reflexivity. Qed.

Lemma set_registry_id st : set_registry (requestDeduplication st) st = st.
Proof. destruct st; reflexivity. Qed.

Lemma registry_roundtrip st h (p : Promise) :
  requestDeduplication st !! h = None ->
  set_registry
    (delete h (requestDeduplication
                 (set_registry (<[h := p]> (requestDeduplication st)) st)))
    (set_registry (<[h := p]> (requestDeduplication st)) st) = st.
Proof.
  destruct st as [c reg n log]. simpl. intros Hreg. unfold set_registry. simpl.
  rewrite delete_insert_id by exact Hreg. reflexivity.
Qed.

Lemma manager_eta (m : Cache.Manager) :
  {| Cache.cache := Cache.cache m; Cache.defaultTTL := Cache.defaultTTL m |} = m.
Proof. destruct m; reflexivity. Qed.

Lemma retrieve_hit now ctx m e c :
  Cache.retrieve now ctx m = (Some e, c) ->
  c = m /\ Cache.cache m !! Cache.generateCacheKey ctx = Some e
  /\ Cache.isValidEntry now e = true.
Proof.
  unfold Cache.retrieve.
  destruct (Cache.cache m !! Cache.generateCacheKey ctx) as [e'|]; [|discriminate].
  destruct (Cache.isValidEntry now e') eqn:Ev; [|discriminate].
  intros [= <- <-]. auto.
Qed.

Lemma retrieve_valid now ctx m e :
  Cache.cache m !! Cache.generateCacheKey ctx = Some e ->
  Cache.isValidEntry now e = true ->
  Cache.retrieve now ctx m = (Some e, m).
Proof. intros El Ev. unfold Cache.retrieve. rewrite El, Ev. reflexivity. Qed.

Lemma retrieve_miss_other now ctx m c k :
  Cache.retrieve now ctx m = (None, c) ->
  k <> Cache.generateCacheKey ctx ->
  Cache.cache c !! k = Cache.cache m !! k.
Proof.
  unfold Cache.retrieve. intros Hr Hk.
  destruct (Cache.cache m !! Cache.generateCacheKey ctx) as [e'|].
  - destruct (Cache.isValidEntry now e'); [discriminate|].
    injection Hr as <-. simpl. apply lookup_delete_ne. congruence.
  - injection Hr as <-. reflexivity.
Qed.

Lemma retrieve_defaultTTL now ctx m o c :
  Cache.retrieve now ctx m = (o, c) -> Cache.defaultTTL c = Cache.defaultTTL m.
Proof.
  unfold Cache.retrieve.
  destruct (Cache.cache m !! Cache.generateCacheKey ctx) as [e'|].
  - destruct (Cache.isValidEntry now e'); intros [= <- <-]; reflexivity.
  - intros [= <- <-]. reflexivity.
Qed.

Lemma sorted_imports_idem ctx :
  sorted_imports (sorted_imports ctx) = sorted_imports ctx.
Proof.
  unfold sorted_imports. simpl. f_equal.
  apply SortFacts.sort_default_permutation, SortFacts.sort_default_perm.
Qed.

Lemma trim_nonblank s : is_empty (trim s) = false -> is_empty s = false.
Proof. destruct s; [discriminate | reflexivity]. Qed.

Section Runs.
Variable env : Env.

Definition query_of (ctx : CodeContext) : jsstring :=
  buildQueryFromContext (sorted_imports ctx).

Definition docs_of (ctx : CodeContext) : list DocumentationChunk :=
  retrieved env (query_of ctx).

(** The state a request leaves when the cache had no valid entry. *)
Definition after_miss (ctx : CodeContext) (c : Cache.Manager) (st : State) : State :=
  let r := fresh_result (sorted_imports ctx) (docs_of ctx) in
  let st2 := after_retrieval env (query_of ctx) (set_cache c st) in
  set_cache (Cache.store (now env) (sorted_imports ctx) (explanation r)
               (citations r) None (cacheManager st2)) st2.

Lemma after_retrieval_cache query st :
  cacheManager (after_retrieval env query st) = cacheManager st.
Proof. unfold after_retrieval. destruct (searchSimilar env query 5%float); reflexivity. Qed.

Lemma after_retrieval_registry query st :
  requestDeduplication (after_retrieval env query st) = requestDeduplication st.
Proof. unfold after_retrieval. destruct (searchSimilar env query 5%float); reflexivity. Qed.

Lemma after_retrieval_count query st :
  retrievals (after_retrieval env query st) = S (retrievals st).
Proof. unfold after_retrieval. destruct (searchSimilar env query 5%float); reflexivity. Qed.

Lemma after_miss_registry ctx c st :
  requestDeduplication (after_miss ctx c st) = requestDeduplication st.
Proof. unfold after_miss. simpl. rewrite after_retrieval_registry. reflexivity. Qed.

Lemma after_miss_cache ctx c st :
  Cache.cache (cacheManager (after_miss ctx c st))
  = <[Cache.generateCacheKey ctx :=
        {| key := Cache.generateCacheKey ctx;
           cached_explanation :=
             explanation (fresh_result (sorted_imports ctx) (docs_of ctx));
           cached_citations :=
             citations (fresh_result (sorted_imports ctx) (docs_of ctx));
           timestamp := now env;
           ttl := Cache.defaultTTL c |}]> (Cache.cache c).
Proof. unfold after_miss. simpl. rewrite after_retrieval_cache. reflexivity. Qed.

Hypothesis no_faults : forall stage, fault env stage = None.

Lemma process_hit ctx st e c :
  Cache.retrieve (now env) ctx (cacheManager st) = (Some e, c) ->
  processExplanationRequest env ctx st = (inr (cached_result e), st).
Proof using no_faults.
  intros Hr. destruct (retrieve_hit _ _ _ _ _ Hr) as (-> & _ & _).
  unfold processExplanationRequest, try_catch, bind, checkpoint, cache_retrieve.
  rewrite no_faults. cbn [ret]. rewrite Hr. cbn [ret].
  rewrite set_cache_id. reflexivity.
Qed.

Lemma process_miss ctx st c :
  Cache.retrieve (now env) ctx (cacheManager st) = (None, c) ->
  processExplanationRequest env ctx st
  = (inr (fresh_result (sorted_imports ctx) (docs_of ctx)), after_miss ctx c st).
Proof using no_faults.
  intros Hr.
  unfold processExplanationRequest, try_catch, bind, checkpoint, cache_retrieve.
  repeat rewrite no_faults. cbn [ret]. rewrite Hr. cbn [ret snd generateContextHash].
  rewrite retrieve_run. fold (query_of ctx). fold (docs_of ctx).
  unfold after_miss, fresh_result.
  destruct (enforceDocumentationRequirement (sorted_imports ctx) (docs_of ctx))
    as [ok fb].
  destruct ok; cbn [negb fst snd]; [|reflexivity].
  destruct (validateExplanationGrounding _ (docs_of ctx)); reflexivity.
Qed.

Lemma explainCode_started ctx st r st1 :
  is_empty (trim (selectedText ctx)) = false ->
  requestDeduplication st !! (generateContextHash ctx).1 = None ->
  processExplanationRequest env (sorted_imports ctx) st = (inr r, st1) ->
  requestDeduplication st1 = requestDeduplication st ->
  explainCode env ctx st = (inr r, st1).
Proof using no_faults.
  intros Hb Hreg Hp Hr1.
  unfold explainCode, try_catch, bind, checkpoint, gets.
  rewrite (trim_nonblank _ Hb), Hb, no_faults. cbn [ret generateContextHash].
  cbn [generateContextHash fst] in Hreg. rewrite Hreg, Hp.
  unfold try_finally, await, ret. f_equal.
  apply registry_roundtrip. rewrite Hr1. exact Hreg.
Qed.

Lemma explainCode_joined ctx st r :
  is_empty (trim (selectedText ctx)) = false ->
  requestDeduplication st !! (generateContextHash ctx).1 = Some (inr r) ->
  explainCode env ctx st = (inr r, st).
Proof using no_faults.
  intros Hb Hreg.
  unfold explainCode, try_catch, bind, checkpoint, gets.
  rewrite (trim_nonblank _ Hb), Hb, no_faults. cbn [ret generateContextHash].
  cbn [generateContextHash fst] in Hreg. rewrite Hreg. reflexivity.
Qed.

(** A request whose context has a valid entry is answered from it, and
    nothing changes. *)
Lemma explainCode_hit ctx st e :
  is_empty (trim (selectedText ctx)) = false ->
  requestDeduplication st !! (generateContextHash ctx).1 = None ->
  Cache.cache (cacheManager st) !! Cache.generateCacheKey ctx = Some e ->
  Cache.isValidEntry (now env) e = true ->
  explainCode env ctx st = (inr (cached_result e), st).
Proof using no_faults.
  intros Hb Hreg El Ev. apply explainCode_started; try assumption; [|reflexivity].
  apply (process_hit _ _ e (cacheManager st)).
  apply (retrieve_valid _ (sorted_imports ctx)); assumption.
Qed.

(** A request without a valid entry retrieves, decides and stores. *)
Lemma explainCode_miss ctx st c :
  is_empty (trim (selectedText ctx)) = false ->
  requestDeduplication st !! (generateContextHash ctx).1 = None ->
  Cache.retrieve (now env) ctx (cacheManager st) = (None, c) ->
  explainCode env ctx st
  = (inr (fresh_result (sorted_imports ctx) (docs_of ctx)), after_miss ctx c st).
Proof using no_faults.
  intros Hb Hreg Hr. apply explainCode_started; try assumption.
  - rewrite (process_miss (sorted_imports ctx) st c Hr).
    unfold after_miss, docs_of, query_of. rewrite !sorted_imports_idem. reflexivity.
  - apply after_miss_registry.
Qed.

End Runs.

(** *** The cache across calls *)

(** The two contexts differ in [selectedText] and in nothing else. *)
Definition differs_only_in_selectedText (ctx ctx2 : CodeContext) : Prop :=
  selectedText ctx2 <> selectedText ctx
  /\ fileName ctx2 = fileName ctx
  /\ functionName ctx2 = functionName ctx
  /\ className ctx2 = className ctx
  /\ imports ctx2 = imports ctx
  /\ surroundingContext ctx2 = surroundingContext ctx
  /\ language ctx2 = language ctx.

Lemma keyString_selectedText ctx ctx2 :
  differs_only_in_selectedText ctx ctx2 ->
  Cache.keyString ctx2 <> Cache.keyString ctx.
Proof.
  intros (Hs & Hf & Hn & Hc & _). unfold Cache.keyString. simpl.
  rewrite Hf, Hn, Hc. intros E.
  do 3 (apply app_inv_head in E; injection E as E). contradiction.
Qed.

Lemma after_miss_retrievals env ctx c st :
  retrievals (after_miss env ctx c st) = S (retrievals st).
Proof. unfold after_miss. simpl. rewrite after_retrieval_count. reflexivity. Qed.

Lemma after_miss_lookup env ctx c st :
  exists e,
    Cache.cache (cacheManager (after_miss env ctx c st)) !! Cache.generateCacheKey ctx
    = Some e
    /\ cached_explanation e
       = explanation (fresh_result (sorted_imports ctx) (docs_of env ctx))
    /\ cached_citations e
       = citations (fresh_result (sorted_imports ctx) (docs_of env ctx))
    /\ timestamp e = now env /\ ttl e = Cache.defaultTTL c.
Proof.
  rewrite after_miss_cache. eexists. rewrite lookup_insert_eq.
  split; [reflexivity|]. simpl. auto.
Qed.

Lemma invalidateFile_keeps filePath m k e :
  Cache.cache m !! k = Some e -> cached_citations e = [] ->
  Cache.cache (Cache.invalidateFile filePath m) !! k = Some e.
Proof.
  intros El Hc. unfold Cache.invalidateFile. simpl.
  apply map_lookup_filter_Some_2; [exact El|].
  simpl. unfold Cache.hasFileReference. rewrite Hc. reflexivity.
Qed.

Definition invalidate_all (paths : list jsstring) (st : State) : State :=
  fold_left (fun s filePath => invalidateCacheForFile filePath s) paths st.

Lemma invalidate_all_keeps paths : forall st k e,
  Cache.cache (cacheManager st) !! k = Some e -> cached_citations e = [] ->
  Cache.cache (cacheManager (invalidate_all paths st)) !! k = Some e
  /\ requestDeduplication (invalidate_all paths st) = requestDeduplication st.
Proof.
  induction paths as [|filePath paths IH]; intros st k e El Hc; simpl; [auto|].
  destruct (IH (invalidateCacheForFile filePath st) k e) as [H1 H2].
  - simpl. apply invalidateFile_keeps; assumption.
  - exact Hc.
  - split; [exact H1 | exact H2].
Qed.

(** C2, as amended.  After a request that ran without an unexpected
    exception, the cache holds its explanation and citations under the
    key of its context; while that entry is valid, a second call with the
    same context returns the same explanation, citations and
    [hasRelevantDocs] with confidence 1 (whatever the confidence of the
    first result was) and leaves the state as it is, so the store is not
    searched again.  A context that differs in [selectedText] only has
    another key string; unless the digests of the two collide, its
    entry stands beside the first one, which is left alone, and when it
    had no entry the result is computed from a new retrieval. *)
Theorem explainCode_second_call (env1 env2 : Env) (ctx : CodeContext)
    (st : State) (r1 : ExplanationResult) (st1 : State) :
  (forall stage, fault env1 stage = None) ->
  (forall stage, fault env2 stage = None) ->
  is_empty (trim (selectedText ctx)) = false ->
  requestDeduplication st !! (generateContextHash ctx).1 = None ->
  explainCode env1 ctx st = (inr r1, st1) ->
  exists e,
    Cache.cache (cacheManager st1) !! Cache.generateCacheKey ctx = Some e
    /\ cached_explanation e = explanation r1
    /\ cached_citations e = citations r1
    /\ (Cache.isValidEntry (now env2) e = true ->
        explainCode env2 ctx st1
        = (inr {| explanation := explanation r1;
                  citations := citations r1;
                  confidence := 1;
                  hasRelevantDocs := hasRelevantDocs r1 |}, st1))
    /\ forall (ctx2 : CodeContext) (env3 : Env),
         differs_only_in_selectedText ctx ctx2 ->
         Cache.keyString ctx2 <> Cache.keyString ctx
         /\ (Cache.generateCacheKey ctx2 <> Cache.generateCacheKey ctx ->
             (forall stage, fault env3 stage = None) ->
             is_empty (trim (selectedText ctx2)) = false ->
             requestDeduplication st1 !! (generateContextHash ctx2).1 = None ->
             exists r3 st3 e2,
               explainCode env3 ctx2 st1 = (inr r3, st3)
               /\ Cache.cache (cacheManager st3) !! Cache.generateCacheKey ctx = Some e
               /\ Cache.cache (cacheManager st3) !! Cache.generateCacheKey ctx2 = Some e2
               /\ cached_explanation e2 = explanation r3
               /\ cached_citations e2 = citations r3
               /\ (Cache.cache (cacheManager st1) !! Cache.generateCacheKey ctx2 = None ->
                   r3 = fresh_result (sorted_imports ctx2) (docs_of env3 ctx2)
                   /\ retrievals st3 = S (retrievals st1))).
Proof.
  intros Hf1 Hf2 Hb Hreg Hrun.
  assert (exists e,
             Cache.cache (cacheManager st1) !! Cache.generateCacheKey ctx = Some e
             /\ cached_result e
                = {| explanation := explanation r1; citations := citations r1;
                     confidence := 1; hasRelevantDocs := hasRelevantDocs r1 |}
             /\ requestDeduplication st1 = requestDeduplication st) as (e & El & Er & Hreg1).
  { destruct (Cache.retrieve (now env1) ctx (cacheManager st)) as [[e|] c] eqn:Ec.
    - destruct (retrieve_hit _ _ _ _ _ Ec) as (-> & El & Ev).
      rewrite (explainCode_hit env1 Hf1 ctx st e Hb Hreg El Ev) in Hrun.
      injection Hrun as <- <-. exists e. auto.
    - rewrite (explainCode_miss env1 Hf1 ctx st c Hb Hreg Ec) in Hrun.
      injection Hrun as <- <-.
      destruct (after_miss_lookup env1 ctx c st) as (e & El & He & Hc & _).
      exists e. split; [exact El|]. split; [|apply after_miss_registry].
      unfold cached_result. rewrite He, Hc, fresh_result_flag. reflexivity. }
  exists e. split; [exact El|].
  split; [exact (f_equal explanation Er)|].
  split; [exact (f_equal citations Er)|].
  split.
  - intros Ev. rewrite <- Er. apply explainCode_hit; try assumption.
    rewrite Hreg1. exact Hreg.
  - intros ctx2 env3 Hd. split; [apply keyString_selectedText; exact Hd|].
    intros Hk Hf3 Hb2 Hreg2.
    destruct (Cache.retrieve (now env3) ctx2 (cacheManager st1)) as [[e2|] c] eqn:Ec.
    + destruct (retrieve_hit _ _ _ _ _ Ec) as (-> & El2 & Ev2).
      exists (cached_result e2), st1, e2.
      split; [apply explainCode_hit; assumption|].
      split; [exact El|]. split; [exact El2|]. split; [reflexivity|].
      split; [reflexivity|]. intros Hn. rewrite El2 in Hn. discriminate.
    + destruct (after_miss_lookup env3 ctx2 c st1) as (e2 & El2 & He & Hc & _).
      exists (fresh_result (sorted_imports ctx2) (docs_of env3 ctx2)),
             (after_miss env3 ctx2 c st1), e2.
      split; [apply explainCode_miss; assumption|].
      split.
      { rewrite after_miss_cache, lookup_insert_ne by congruence.
        rewrite (retrieve_miss_other _ _ _ _ _ Ec) by congruence. exact El. }
      split; [exact El2|]. split; [exact He|]. split; [exact Hc|].
      intros _. split; [reflexivity | apply after_miss_retrievals].
Qed.

(** C10.  When enforcement or grounding fails, the request answers "Not
    documented." and stores that answer with no citations, the time of
    the call and the default time to live; whatever files are invalidated
    afterwards, the entry stays, and at every time at which the cache
    finds it valid a call with the same context is answered from it,
    whatever the vector store holds by then.  The cache finds it valid
    until it expires (before the time of the call plus the time to live),
    as long as that expiry is a date. *)
Theorem rejection_survives_invalidation (env : Env) (ctx : CodeContext)
    (st : State) (c : Cache.Manager) :
  (forall stage, fault env stage = None) ->
  is_empty (trim (selectedText ctx)) = false ->
  requestDeduplication st !! (generateContextHash ctx).1 = None ->
  Cache.retrieve (now env) ctx (cacheManager st) = (None, c) ->
  rejects (sorted_imports ctx) (docs_of env ctx) = true ->
  exists st1 e,
    explainCode env ctx st = (inr (rejection notDocumented), st1)
    /\ Cache.cache (cacheManager st1) !! Cache.generateCacheKey ctx = Some e
    /\ cached_explanation e = notDocumented
    /\ cached_citations e = []
    /\ timestamp e = now env
    /\ ttl e = Cache.defaultTTL (cacheManager st)
    /\ forall (paths : list jsstring),
         Cache.cache (cacheManager (invalidate_all paths st1))
           !! Cache.generateCacheKey ctx = Some e
         /\ (forall env2 : Env,
               (forall stage, fault env2 stage = None) ->
               Cache.isValidEntry (now env2) e = true ->
               explainCode env2 ctx (invalidate_all paths st1)
               = (inr {| explanation := notDocumented; citations := [];
                         confidence := 1; hasRelevantDocs := false |},
                  invalidate_all paths st1))
         /\ forall now2 : Z,
              Cache.isValidEntry now2 e = true
              <-> (now2 < now env + Cache.defaultTTL (cacheManager st))%Z
                  /\ (Z.abs (now env + Cache.defaultTTL (cacheManager st))
                      <= Cache.maxTime)%Z.
Proof.
  intros Hf Hb Hreg Ec Hrej.
  exists (after_miss env ctx c st).
  destruct (after_miss_lookup env ctx c st) as (e & El & He & Hc & Ht & Httl).
  rewrite (fresh_result_rejects _ _ Hrej) in He, Hc. simpl in He, Hc.
  rewrite (retrieve_defaultTTL _ _ _ _ _ Ec) in Httl.
  exists e. split.
  { rewrite (explainCode_miss env Hf ctx st c Hb Hreg Ec).
    rewrite (fresh_result_rejects _ _ Hrej). reflexivity. }
  repeat (split; [assumption|]).
  intros paths.
  destruct (invalidate_all_keeps paths _ _ _ El Hc) as [Hk Hr].
  split; [exact Hk|]. split.
  - intros env2 Hf2 Hvalid.
    rewrite (explainCode_hit env2 Hf2 ctx
               (invalidate_all paths (after_miss env ctx c st)) e).
    + unfold cached_result. rewrite He, Hc. reflexivity.
    + exact Hb.
    + rewrite Hr, after_miss_registry. exact Hreg.
    + exact Hk.
    + exact Hvalid.
  - intros now2. rewrite ValidityFacts.isValidEntry_iff, Ht, Httl. reflexivity.
Qed.

(** *** Requests in flight *)

(** The two contexts agree on everything the hash reads. *)
Definition same_hashed_fields (c1 c2 : CodeContext) : Prop :=
  selectedText c1 = selectedText c2
  /\ fileName c1 = fileName c2
  /\ Cache.or_empty (functionName c1) = Cache.or_empty (functionName c2)
  /\ Cache.or_empty (className c1) = Cache.or_empty (className c2)
  /\ imports c1 ≡ₚ imports c2
  /\ language c1 = language c2.

Lemma hashInput_same c1 c2 :
  same_hashed_fields c1 c2 -> hashInput c1 = hashInput c2.
Proof.
  intros (Hs & Hf & Hn & Hc & Hi & Hl). unfold hashInput.
  rewrite Hs, Hf, Hn, Hc, Hl, (SortFacts.sort_default_permutation _ _ Hi).
  reflexivity.
Qed.

(** C3, as amended.  The hash of a context is a function of
    [selectedText], [fileName], [functionName], [className], the imports
    as a multiset and [language]; [surroundingContext] is not read.  So
    two contexts that agree on these (whatever the order of the imports
    and whatever surrounds the selection) have the same hash, and while
    the request of one is in flight a call with the other returns the
    result of that request and computes nothing.  A call whose hash is
    not registered runs its own request. *)
Theorem contextHash_coalescing (c1 c2 : CodeContext) :
  same_hashed_fields c1 c2 ->
  (generateContextHash c1).1 = (generateContextHash c2).1
  /\ (forall (env : Env) (st : State) (r : ExplanationResult),
        (forall stage, fault env stage = None) ->
        is_empty (trim (selectedText c2)) = false ->
        requestDeduplication st !! (generateContextHash c1).1 = Some (inr r) ->
        explainCode env c2 st = (inr r, st))
  /\ (forall (env : Env) (st : State) (c3 : CodeContext) (p : Promise),
        (forall stage, fault env stage = None) ->
        is_empty (trim (selectedText c3)) = false ->
        (generateContextHash c3).1 <> (generateContextHash c1).1 ->
        requestDeduplication st = {[ (generateContextHash c1).1 := p ]} ->
        exists r st',
          processExplanationRequest env (sorted_imports c3) st = (inr r, st')
          /\ explainCode env c3 st = (inr r, st')).
Proof.
  intros Hsame.
  assert ((generateContextHash c1).1 = (generateContextHash c2).1) as Hh.
  { unfold generateContextHash. cbn [fst]. rewrite (hashInput_same _ _ Hsame). reflexivity. }
  split; [exact Hh|]. split.
  - intros env st r Hf Hb Hreg. apply explainCode_joined; try assumption.
    rewrite <- Hh. exact Hreg.
  - intros env st c3 p Hf Hb Hne Hreg.
    assert (requestDeduplication st !! (generateContextHash c3).1 = None) as Hnone.
    { rewrite Hreg. apply lookup_singleton_ne. congruence. }
    destruct (Cache.retrieve (now env) c3 (cacheManager st)) as [[e|] c] eqn:Ec.
    + exists (cached_result e), st. split.
      * apply (process_hit env Hf _ _ e c). exact Ec.
      * destruct (retrieve_hit _ _ _ _ _ Ec) as (_ & El & Ev).
        apply explainCode_hit; assumption.
    + exists (fresh_result (sorted_imports c3) (docs_of env c3)), (after_miss env c3 c st).
      split.
      * rewrite (process_miss env Hf (sorted_imports c3) st c Ec).
        unfold after_miss, docs_of, query_of. rewrite !sorted_imports_idem. reflexivity.
      * apply explainCode_miss; assumption.
Qed.

(** *** Failures *)

Definition mentions (message : jsstring) (words : list string) : bool :=
  existsb (fun w => includes message (str w)) words.

Definition classMessages : list jsstring :=
  [networkMessage; storageMessage; embeddingMessage; timeoutMessage; resourceMessage].

Lemma messages_distinct :
  NoDup (notDocumented :: noCodeText :: genericMessage :: classMessages).
Proof.
  apply (bool_decide_eq_true_1 (NoDup (notDocumented :: noCodeText :: genericMessage
                                        :: classMessages))).
  vm_compute. reflexivity.
Qed.

Lemma fallbackMessage_range e : In (fallbackMessage e) (genericMessage :: classMessages).
Proof.
  unfold fallbackMessage, classMessages. destruct e as [name message|text]; [|now left].
  repeat match goal with
         | |- context [if ?b then _ else _] => destruct b
         end; simpl; tauto.
Qed.

Lemma includes_nil_false w : w <> [] -> includes [] w = false.
Proof. destruct w; [congruence | reflexivity]. Qed.

(** The message is chosen by the first class of keywords the error mentions. *)
Lemma fallbackMessage_classes name message :
  (mentions message ["network"; "connection"]%string = true ->
   fallbackMessage (ErrorObject name message) = networkMessage)
  /\ (mentions message ["network"; "connection"]%string = false ->
      mentions message ["storage"; "database"]%string = true ->
      fallbackMessage (ErrorObject name message) = storageMessage)
  /\ (mentions message ["network"; "connection"; "storage"; "database"]%string = false ->
      mentions message ["embedding"; "vector"]%string = true ->
      fallbackMessage (ErrorObject name message) = embeddingMessage)
  /\ (mentions message ["network"; "connection"; "storage"; "database";
                        "embedding"; "vector"]%string = false ->
      mentions message ["timeout"]%string = true ->
      fallbackMessage (ErrorObject name message) = timeoutMessage)
  /\ (mentions message ["network"; "connection"; "storage"; "database";
                        "embedding"; "vector"; "timeout"]%string = false ->
      mentions message ["memory"; "resource"]%string = true ->
      fallbackMessage (ErrorObject name message) = resourceMessage).
Proof.
  destruct message as [|ch message].
  { repeat split; intros; discriminate. }
  unfold fallbackMessage, mentions. cbn [is_empty existsb].
  generalize (includes (ch :: message) (str "network")),
    (includes (ch :: message) (str "connection")),
    (includes (ch :: message) (str "storage")),
    (includes (ch :: message) (str "database")),
    (includes (ch :: message) (str "embedding")),
    (includes (ch :: message) (str "vector")),
    (includes (ch :: message) (str "timeout")),
    (includes (ch :: message) (str "memory")),
    (includes (ch :: message) (str "resource")).
  intros [] [] [] [] [] [] [] [] []; cbn [orb];
    repeat split; intros; try reflexivity; discriminate.
Qed.

Section Failures.
Variable env : Env.

(** What a call adds to the error log, and the result that goes with
    it: nothing; or a failure caught by [explainCode] or by the
    request, answered by the fallback for that failure; or only a
    failure of the store, answered by "Not documented.". *)
Definition outcome (log0 : list (Site * Thrown)) (r : ExplanationResult)
    (st' : State) : Prop :=
  exists added,
    errorLog st' = added ++ log0
    /\ (added = []
        \/ (exists site e rest, added = (site, e) :: rest /\ site <> InRetrieval
                               /\ r = createErrorFallbackResponse e)
        \/ (exists e, added = [(InRetrieval, e)] /\ r = rejection notDocumented)).

Definition midway (log0 : list (Site * Thrown)) (st' : State) : Prop :=
  exists added,
    errorLog st' = added ++ log0
    /\ (added = [] \/ exists e, added = [(InRetrieval, e)]).

Lemma outcome_caught log0 site e st' :
  site <> InRetrieval -> midway log0 st' ->
  outcome log0 (createErrorFallbackResponse e) (log_error site e st').
Proof.
  intros Hs (added & Hl & _). exists ((site, e) :: added). simpl.
  split; [rewrite Hl; reflexivity|]. right. left.
  exists site, e, added. split; [reflexivity|]. split; [exact Hs | reflexivity].
Qed.

Lemma outcome_clean log0 r st' : errorLog st' = log0 -> outcome log0 r st'.
Proof. intros Hl. exists []. auto. Qed.

Lemma process_log ctx st :
  wp (processExplanationRequest env ctx)
     (fun r st' => outcome (errorLog st) r st') (fun _ _ => False) st.
Proof.
  unfold processExplanationRequest. set (log0 := errorLog st).
  apply wp_try_catch.
  apply (wp_mono _ (fun r st' => outcome log0 r st') _
           (fun _ st' => midway log0 st')); [auto| |].
  { intros e s' Hm. apply wp_bind, wp_modify, wp_ret.
    apply outcome_caught; [discriminate | exact Hm]. }
  assert (midway log0 st) as Hm0 by (exists []; auto).
  apply wp_bind, wp_checkpoint; [intros; exact Hm0|].
  apply wp_bind. unfold wp at 1, cache_retrieve.
  destruct (Cache.retrieve (now env) ctx (cacheManager st)) as [entry c].
  destruct entry as [e|]; [apply wp_ret, outcome_clean; reflexivity|].
  apply wp_bind, wp_checkpoint; [intros; exact Hm0|].
  apply wp_bind. unfold wp at 1. rewrite retrieve_run.
  set (ctx' := (generateContextHash ctx).2).
  unfold retrieved, after_retrieval.
  destruct (searchSimilar env (buildQueryFromContext ctx') 5%float) as [e|chunks].
  - (* the store failed: no documents *)
    assert (midway log0 (log_error InRetrieval e (count_retrieval (set_cache c st))))
      as Hm1 by (exists [(InRetrieval, e)]; eauto).
    apply wp_bind, wp_checkpoint; [intros; exact Hm1|].
    cbn [enforceDocumentationRequirement is_empty_list negb].
    apply wp_bind, wp_checkpoint; [intros; exact Hm1|].
    apply wp_bind, wp_modify, wp_ret.
    exists [(InRetrieval, e)]. split; [reflexivity|]. right. right. eauto.
  - assert (midway log0 (count_retrieval (set_cache c st))) as Hm1
      by (exists []; auto).
    apply wp_bind, wp_checkpoint; [intros; exact Hm1|].
    destruct (enforceDocumentationRequirement ctx' _) as [ok fb].
    destruct ok; cbn [negb].
    + apply wp_bind, wp_checkpoint; [intros; exact Hm1|].
      apply wp_bind, wp_checkpoint; [intros; exact Hm1|].
      destruct (validateExplanationGrounding _ _); cbn [negb].
      * apply wp_bind, wp_checkpoint; [intros; exact Hm1|].
        apply wp_bind, wp_checkpoint; [intros; exact Hm1|].
        apply wp_bind, wp_checkpoint; [intros; exact Hm1|].
        apply wp_bind, wp_modify, wp_ret, outcome_clean. reflexivity.
      * apply wp_bind, wp_checkpoint; [intros; exact Hm1|].
        apply wp_bind, wp_modify, wp_ret, outcome_clean. reflexivity.
    + apply wp_bind, wp_checkpoint; [intros; exact Hm1|].
      apply wp_bind, wp_modify, wp_ret, outcome_clean. reflexivity.
Qed.

Lemma explainCode_log ctx st :
  wp (explainCode env ctx)
     (fun r st' => outcome (errorLog st) r st') (fun _ _ => False) st.
Proof.
  unfold explainCode. set (log0 := errorLog st).
  apply wp_try_catch.
  apply (wp_mono _ (fun r st' => outcome log0 r st') _
           (fun _ st' => midway log0 st')); [auto| |].
  { intros e s' Hm. apply wp_bind, wp_modify, wp_ret.
    apply outcome_caught; [discriminate | exact Hm]. }
  assert (midway log0 st) as Hm0 by (exists []; auto).
  destruct (is_empty (selectedText ctx)); [apply wp_throw; exact Hm0|].
  destruct (is_empty (trim (selectedText ctx)));
    [apply wp_ret, outcome_clean; reflexivity|].
  apply wp_bind, wp_checkpoint; [intros; exact Hm0|].
  destruct (generateContextHash ctx) as [contextHash ctx'].
  apply wp_bind, wp_gets.
  destruct (requestDeduplication st !! contextHash) as [[e|r]|]; simpl.
  - apply wp_throw. exact Hm0.
  - apply wp_ret, outcome_clean. reflexivity.
  - unfold wp at 1.
    pose proof (process_log ctx' st) as Hp.
    apply wp_returns in Hp. destruct Hp as (r & st1 & -> & Ho).
    apply wp_try_finally. simpl. apply wp_ret. exact Ho.
Qed.

End Failures.

(** C8, as amended.  [explainCode] returns a result for every input,
    state and failure.  When the call met a failure (its [catch] blocks
    logged something), the result has no citations, confidence 0 and no
    relevant documentation.  A failure caught by [explainCode] or by the
    request is answered with the fallback message of the thrown value:
    one of six messages, chosen by the first class of keywords its
    message mentions (network or connection, storage or database,
    embedding or vector, timeout, memory or resource), the general one
    otherwise; the messages differ from each other and from "Not
    documented.".  A failure of the vector store during retrieval is
    swallowed instead: the answer is "Not documented.". *)
Theorem explainCode_never_throws (env : Env) (ctx : CodeContext) (st : State) :
  (exists r st' added,
      explainCode env ctx st = (inr r, st')
      /\ errorLog st' = added ++ errorLog st
      /\ (added <> [] ->
          citations r = [] /\ confidence r = 0%float /\ hasRelevantDocs r = false)
      /\ (added = []
          \/ (exists site e rest, added = (site, e) :: rest /\ site <> InRetrieval
                                 /\ explanation r = fallbackMessage e)
          \/ (exists e, added = [(InRetrieval, e)] /\ explanation r = notDocumented)))
  /\ (forall e, In (fallbackMessage e) (genericMessage :: classMessages))
  /\ NoDup (notDocumented :: noCodeText :: genericMessage :: classMessages)
  /\ (forall name message,
        (mentions message ["network"; "connection"]%string = true ->
         fallbackMessage (ErrorObject name message) = networkMessage)
        /\ (mentions message ["network"; "connection"]%string = false ->
            mentions message ["storage"; "database"]%string = true ->
            fallbackMessage (ErrorObject name message) = storageMessage)
        /\ (mentions message ["network"; "connection"; "storage"; "database"]%string
            = false ->
            mentions message ["embedding"; "vector"]%string = true ->
            fallbackMessage (ErrorObject name message) = embeddingMessage)
        /\ (mentions message ["network"; "connection"; "storage"; "database";
                              "embedding"; "vector"]%string = false ->
            mentions message ["timeout"]%string = true ->
            fallbackMessage (ErrorObject name message) = timeoutMessage)
        /\ (mentions message ["network"; "connection"; "storage"; "database";
                              "embedding"; "vector"; "timeout"]%string = false ->
            mentions message ["memory"; "resource"]%string = true ->
            fallbackMessage (ErrorObject name message) = resourceMessage)).
Proof.
  split; [|split; [apply fallbackMessage_range
                  | split; [apply messages_distinct | apply fallbackMessage_classes]]].
  pose proof (explainCode_log env ctx st) as Hw. apply wp_returns in Hw.
  destruct Hw as (r & st' & E & added & Hl & Hcase).
  exists r, st', added. split; [exact E|]. split; [exact Hl|].
  destruct Hcase as [-> | [(site & e & rest & -> & Hs & ->) | (e & -> & ->)]].
  - split; [congruence | now left].
  - split; [intros _; repeat split|]. right. left.
    exists site, e, rest. split; [reflexivity|]. split; [exact Hs | reflexivity].
  - split; [intros _; repeat split|]. right. right.
    exists e. split; reflexivity.
Qed.


End WithHost.


(** C3 as the spec states it fails: two contexts that differ in
    [surroundingContext] only have the same hash, and while the request of
    the first is in flight the call with the second is answered with its
    result; so are two contexts whose selections "Aa" and "BB" collide. *)
Lemma contextHash_ignores_surroundingContext :
  surroundingContext Examples.ctx_sum_moved <> surroundingContext Examples.ctx_sum
  /\ (generateContextHash Examples.ctx_sum_moved).1
     = (generateContextHash Examples.ctx_sum).1
  /\ (forall r : ExplanationResult,
        let st := set_registry {[ (generateContextHash Examples.ctx_sum).1 := inr r ]}
                    Engine.new in
        explainCode (H := TestHost.host) (Examples.env_sum 0) Examples.ctx_sum_moved st
        = (inr r, st))
  /\ selectedText Examples.ctx_Aa <> selectedText Examples.ctx_BB
  /\ (generateContextHash Examples.ctx_Aa).1 = (generateContextHash Examples.ctx_BB).1.
Proof.
  split; [vm_compute; discriminate|]. split; [vm_compute; reflexivity|].
  split; [|split; [vm_compute; discriminate | vm_compute; reflexivity]].
  intros r st. apply explainCode_joined; [reflexivity | reflexivity|].
  apply lookup_singleton_eq.
Qed.

(** The amended C3 on the two contexts above and on a third one. *)
Lemma contextHash_coalescing_witness :
  (generateContextHash Examples.ctx_sum).1
  = (generateContextHash Examples.ctx_sum_moved).1
  /\ exists r st',
       explainCode (H := TestHost.host) (Examples.env_empty 0) Examples.ctx_Aa
         (set_registry {[ (generateContextHash Examples.ctx_sum).1 :=
                            inr noCodeSelected ]} Engine.new)
       = (inr r, st').
Proof.
  destruct (contextHash_coalescing (H := TestHost.host)
              Examples.ctx_sum Examples.ctx_sum_moved) as (Hh & _ & Hother).
  { repeat split; reflexivity. }
  split; [exact Hh|].
  destruct (Hother (Examples.env_empty 0)
              (set_registry {[ (generateContextHash Examples.ctx_sum).1 :=
                                 inr noCodeSelected ]} Engine.new)
              Examples.ctx_Aa (inr noCodeSelected))
    as (r & st' & _ & Hrun);
    [reflexivity | reflexivity | vm_compute; discriminate | reflexivity |].
  exists r, st'. exact Hrun.
Defined.

(** C8 as the spec states it fails: the store throws an error that speaks
    of the network, and the answer is "Not documented.", not the message
    for that class of error. *)
Lemma explainCode_swallows_retrieval_failure :
  exists r st',
    explainCode (H := TestHost.host) (Examples.env_down 0) Examples.ctx_sum
      Engine.new = (inr r, st')
    /\ errorLog st' = [(InRetrieval, Error (str "network connection lost"))]
    /\ fallbackMessage (Error (str "network connection lost")) = networkMessage
    /\ explanation r = notDocumented
    /\ explanation r <> fallbackMessage (Error (str "network connection lost")).
Proof.
  eexists; eexists. split; [vm_compute; reflexivity|].
  split; [reflexivity|]. split; [vm_compute; reflexivity|].
  split; [reflexivity|]. vm_compute. discriminate.
Qed.

(** C2 as the spec states it fails: the request is accepted with a
    confidence below 1, and the same request served from the warm cache
    comes back with confidence 1. *)
Lemma explainCode_second_call_confidence_differs :
  exists r1 st1 r2 st2,
    explainCode (H := TestHost.host) (Examples.env_sum 0) Examples.ctx_sum
      Engine.new = (inr r1, st1)
    /\ explainCode (H := TestHost.host) (Examples.env_sum 1) Examples.ctx_sum
         st1 = (inr r2, st2)
    /\ explanation r2 = explanation r1
    /\ citations r2 = citations r1
    /\ (confidence r1 <? 1)%float = true
    /\ confidence r2 = 1%float
    /\ r2 <> r1.
Proof.
  eexists; eexists; eexists; eexists.
  split; [vm_compute; reflexivity|]. split; [vm_compute; reflexivity|].
  split; [reflexivity|]. split; [reflexivity|]. split; [reflexivity|].
  split; [reflexivity|].
  intros E. apply (f_equal (fun r => (confidence r <? 1)%float)) in E.
  vm_compute in E. discriminate.
Qed.

(** The amended C2 on a request against a store holding one section, asked
    again after the store has been emptied. *)
Lemma explainCode_second_call_witness :
  exists r1 st1,
    explainCode (H := TestHost.host) (Examples.env_sum 0) Examples.ctx_sum
      Engine.new = (inr r1, st1)
    /\ explainCode (H := TestHost.host) (Examples.env_empty 1) Examples.ctx_sum st1
       = (inr {| explanation := explanation r1; citations := citations r1;
                 confidence := 1; hasRelevantDocs := hasRelevantDocs r1 |}, st1).
Proof.
  assert (exists r1 st1,
             explainCode (H := TestHost.host) (Examples.env_sum 0) Examples.ctx_sum
               Engine.new = (inr r1, st1)
             /\ match Cache.cache (cacheManager st1)
                        !! Cache.generateCacheKey (H := TestHost.host) Examples.ctx_sum with
                | Some e => Cache.isValidEntry 1 e
                | None => false
                end = true)
    as (r1 & st1 & Hrun & Hvalid)
    by (eexists; eexists; split; [vm_compute; reflexivity | vm_compute; reflexivity]).
  exists r1, st1. split; [exact Hrun|].
  destruct (explainCode_second_call (H := TestHost.host)
              (Examples.env_sum 0) (Examples.env_empty 1) Examples.ctx_sum Engine.new
              r1 st1)
    as (e & El & _ & _ & Hsecond & _);
    [reflexivity | reflexivity | vm_compute; reflexivity | vm_compute; reflexivity
    | exact Hrun |].
  apply Hsecond. rewrite El in Hvalid. exact Hvalid.
Defined.

(** C10 on a request against an empty store: the stored rejection outlives
    the invalidation of the README and answers the same request once the
    store has documentation. *)
Lemma rejection_survives_invalidation_witness :
  exists st1,
    explainCode (H := TestHost.host) (Examples.env_empty 0) Examples.ctx_sum
      Engine.new = (inr (rejection notDocumented), st1)
    /\ explainCode (H := TestHost.host) (Examples.env_sum 1000) Examples.ctx_sum
         (invalidate_all [str "README.md"] st1)
       = (inr {| explanation := notDocumented; citations := [];
                 confidence := 1; hasRelevantDocs := false |},
          invalidate_all [str "README.md"] st1).
Proof.
  edestruct (rejection_survives_invalidation (H := TestHost.host)
               (Examples.env_empty 0) Examples.ctx_sum Engine.new Cache.new)
    as (st1 & e & Hrun & _ & _ & _ & _ & _ & Hafter);
    [reflexivity | reflexivity | reflexivity | reflexivity | reflexivity |].
  exists st1. split; [exact Hrun|].
  destruct (Hafter [str "README.md"]) as (_ & Hserved & Hvalid).
  apply Hserved; [reflexivity|].
  apply Hvalid. split; vm_compute; [reflexivity | discriminate].
Defined.


End EngineFacts.

(** ** The order of binary64 numbers *)

Module FloatFacts.
Import SpecFloat FloatAxioms.

(** A key that orders the numbers that are not NaN: the sign class first,
    then exponent and mantissa, both negated below zero. *)
Definition key (f : spec_float) : Z * Z * Z :=
  match f with
  | S754_zero _ => (0, 0, 0)%Z
  | S754_infinity false => (2, 0, 0)%Z
  | S754_infinity true => (-2, 0, 0)%Z
  | S754_nan => (0, 0, 0)%Z
  | S754_finite false m e => (1, e, Zpos m)%Z
  | S754_finite true m e => (-1, - e, Zneg m)%Z
  end.

Definition lex (k1 k2 : Z * Z * Z) : comparison :=
  match (k1.1.1 ?= k2.1.1)%Z with
  | Eq => match (k1.1.2 ?= k2.1.2)%Z with
          | Eq => (k1.2 ?= k2.2)%Z
          | c => c
          end
  | c => c
  end.

Lemma SFcompare_lex f1 f2 :
  f1 <> S754_nan -> f2 <> S754_nan ->
  SFcompare f1 f2 = Some (lex (key f1) (key f2)).
Proof.
  destruct f1 as [[]|[]| |[] m1 e1], f2 as [[]|[]| |[] m2 e2]; intros H1 H2;
    try congruence; try reflexivity.
  unfold lex, key. cbn [fst snd SFcompare].
  rewrite Z.compare_opp, (Z.compare_antisym e1 e2).
  destruct (e1 ?= e2)%Z; reflexivity.
Qed.

Lemma lex_refl k : lex k k = Eq.
Proof. unfold lex. rewrite !Z.compare_refl. reflexivity. Qed.

Ltac lex_cases :=
  unfold lex;
  repeat match goal with
         | |- context [(?a ?= ?b)%Z] => destruct (Z.compare_spec a b)
         | H : context [(?a ?= ?b)%Z] |- _ => destruct (Z.compare_spec a b)
         end;
  try congruence; try lia.

Lemma lex_trans k1 k2 k3 : lex k1 k2 <> Gt -> lex k2 k3 <> Gt -> lex k1 k3 <> Gt.
Proof.
  destruct k1 as [[a1 b1] c1], k2 as [[a2 b2] c2], k3 as [[a3 b3] c3].
  cbn [fst snd lex]. lex_cases.
Qed.

Lemma lex_total k1 k2 : lex k1 k2 <> Lt -> lex k2 k1 <> Gt.
Proof.
  destruct k1 as [[a1 b1] c1], k2 as [[a2 b2] c2]. cbn [fst snd lex]. lex_cases.
Qed.

Lemma lex_lt_le k1 k2 : lex k1 k2 = Lt -> lex k1 k2 <> Gt.
Proof. congruence. Qed.


Lemma lex_lt_asym k1 k2 : lex k1 k2 = Lt -> lex k2 k1 = Gt.
Proof.
  destruct k1 as [[a1 b1] c1], k2 as [[a2 b2] c2]. cbn [fst snd lex]. lex_cases.
Qed.

Definition number (x : float) : Prop := Prim2SF x <> S754_nan.

Lemma spec_float_nan (f : spec_float) : f = S754_nan \/ f <> S754_nan.
Proof. destruct f; auto; right; discriminate. Qed.

Lemma is_nan_false x : PrimFloat.is_nan x = false <-> number x.
Proof.
  unfold PrimFloat.is_nan, number. rewrite FloatAxioms.eqb_spec. unfold SFeqb.
  destruct (Prim2SF x) eqn:E; try (rewrite SFcompare_lex, lex_refl by congruence);
    simpl; split; congruence.
Qed.

Lemma SFcompare_nan_r f : SFcompare f S754_nan = None.
Proof. destruct f as [[]|[]| |[]]; reflexivity. Qed.

Lemma SFcompare_cases f1 f2 :
  (f1 = S754_nan \/ f2 = S754_nan) /\ SFcompare f1 f2 = None
  \/ f1 <> S754_nan /\ f2 <> S754_nan
     /\ SFcompare f1 f2 = Some (lex (key f1) (key f2)).
Proof.
  destruct (spec_float_nan f1) as [-> | H1]; [left; split; [now left | reflexivity]|].
  destruct (spec_float_nan f2) as [-> | H2];
    [left; split; [now right | apply SFcompare_nan_r]|].
  right. split; [exact H1|]. split; [exact H2|]. apply SFcompare_lex; assumption.
Qed.

Lemma leb_lex x y :
  (x <=? y)%float = true <->
  number x /\ number y /\ lex (key (Prim2SF x)) (key (Prim2SF y)) <> Gt.
Proof.
  rewrite leb_spec. unfold SFleb, number.
  destruct (SFcompare_cases (Prim2SF x) (Prim2SF y)) as [[Hn ->] | (H1 & H2 & ->)].
  - split; [discriminate | intros (A & B & _); tauto].
  - destruct (lex _ _);
      (split; [try discriminate; intros _; repeat split; try assumption; discriminate
              | try reflexivity; intros (_ & _ & C); congruence]).
Qed.

Lemma ltb_lex x y :
  (x <? y)%float = true <->
  number x /\ number y /\ lex (key (Prim2SF x)) (key (Prim2SF y)) = Lt.
Proof.
  rewrite ltb_spec. unfold SFltb, number.
  destruct (SFcompare_cases (Prim2SF x) (Prim2SF y)) as [[Hn ->] | (H1 & H2 & ->)].
  - split; [discriminate | intros (A & B & _); tauto].
  - destruct (lex _ _);
      (split; [try discriminate; intros _; repeat split; assumption
              | try reflexivity; intros (_ & _ & C); congruence]).
Qed.

(** What the proofs use of the order. *)
Lemma ltb_leb x y : (x <? y)%float = true -> (x <=? y)%float = true.
Proof.
  rewrite ltb_lex, leb_lex. intros (Hx & Hy & Hl). repeat split; congruence.
Qed.

Lemma not_ltb_leb x y :
  PrimFloat.is_nan x = false -> PrimFloat.is_nan y = false ->
  (x <? y)%float = false -> (y <=? x)%float = true.
Proof.
  rewrite !is_nan_false. intros Hx Hy Hlt. apply leb_lex.
  repeat split; try assumption. apply lex_total. intros Hl.
  assert ((x <? y)%float = true) by (apply ltb_lex; auto). congruence.
Qed.

Lemma leb_trans x y z :
  (x <=? y)%float = true -> (y <=? z)%float = true -> (x <=? z)%float = true.
Proof.
  rewrite !leb_lex. intros (Hx & Hy & Hxy) (_ & Hz & Hyz).
  repeat split; try assumption. eapply lex_trans; eassumption.
Qed.


Lemma ltb_asym x y : (x <? y)%float = true -> (y <? x)%float = false.
Proof.
  intros Hxy. destruct (y <? x)%float eqn:Hyx; [|reflexivity].
  apply ltb_lex in Hxy, Hyx. destruct Hxy as (_ & _ & Hxy), Hyx as (_ & _ & Hyx).
  apply lex_lt_asym in Hxy. congruence.
Qed.


Lemma leb_number x y : (x <=? y)%float = true ->
  PrimFloat.is_nan x = false /\ PrimFloat.is_nan y = false.
Proof. rewrite leb_lex, !is_nan_false. tauto. Qed.

End FloatFacts.

(** ** Rounding of a difference

    The subtraction of binary64, from its specification in [SpecFloat]:
    the exact difference of two finite numbers is a multiple of the
    smallest positive number, so rounding it to nearest gives neither a
    zero nor a number of the other sign. *)

Module Rounding.
Import SpecFloat FloatAxioms.

Lemma iter_pos_nat {A} (f : A -> A) n : forall x,
  iter_pos f n x = Nat.iter (Pos.to_nat n) f x.
Proof.
  induction n as [n IH|n IH|]; intros x; cbn [iter_pos].
  - rewrite !IH, Pos2Nat.inj_xI.
    replace (S (2 * Pos.to_nat n)) with (Pos.to_nat n + (Pos.to_nat n + 1))%nat by lia.
    rewrite !Nat.iter_add. reflexivity.
  - rewrite !IH, Pos2Nat.inj_xO.
    replace (2 * Pos.to_nat n)%nat with (Pos.to_nat n + Pos.to_nat n)%nat by lia.
    rewrite Nat.iter_add. reflexivity.
  - reflexivity.
Qed.

Abbreviation digits p := (Zpos (digits2_pos p)).

Lemma digits_bounds p : (2 ^ (digits p - 1) <= Zpos p < 2 ^ digits p)%Z.
Proof.
  induction p as [p IH|p IH|]; cbn [digits2_pos]; [| |simpl; lia].
  - rewrite Pos2Z.inj_succ, (Pos2Z.inj_xI p).
    replace (Z.succ (digits p) - 1)%Z with (Z.succ (digits p - 1)) by lia.
    rewrite !Z.pow_succ_r; lia.
  - rewrite Pos2Z.inj_succ, (Pos2Z.inj_xO p).
    replace (Z.succ (digits p) - 1)%Z with (Z.succ (digits p - 1)) by lia.
    rewrite !Z.pow_succ_r; lia.
Qed.

Lemma digits_succ p : (digits p <= digits (Pos.succ p))%Z.
Proof.
  induction p as [p IH|p IH|]; simpl; lia.
Qed.

Lemma shr_1_iter k : forall p r s,
  (Z.of_nat k < digits p)%Z ->
  exists p' r' s',
    Nat.iter k shr_1 (Build_shr_record (Zpos p) r s) = Build_shr_record (Zpos p') r' s'
    /\ digits p' = (digits p - Z.of_nat k)%Z.
Proof.
  induction k as [|k IH]; intros p r s Hk.
  - exists p, r, s. split; [reflexivity | simpl; lia].
  - rewrite Nat.iter_succ_r.
    destruct p as [p|p|]; cbn [shr_1 digits2_pos] in *; [| |simpl in Hk; lia].
    + destruct (IH p true (r || s)) as (p' & r' & s' & E & Hd); [lia|].
      exists p', r', s'. split; [exact E | lia].
    + destruct (IH p false (r || s)) as (p' & r' & s' & E & Hd); [lia|].
      exists p', r', s'. split; [exact E | lia].
Qed.

Section Format.
Variables prec emax : Z.
Hypothesis prec_pos : (0 < prec)%Z.

Lemma shr_fexp_positive p e l :
  (emin prec emax < digits p + e)%Z ->
  exists mrs e' p',
    shr_fexp prec emax (Zpos p) e l = (mrs, e')
    /\ shr_m mrs = Zpos p'
    /\ (digits p' + e' = digits p + e)%Z.
Proof using prec_pos.
  intros He. unfold shr_fexp, shr, fexp. cbn [Zdigits2].
  assert (exists r s, shr_record_of_loc (Zpos p) l = Build_shr_record (Zpos p) r s)
    as (r & s & ->) by (destruct l as [|[]]; simpl; eauto).
  destruct (Z.max (digits p + e - prec) (emin prec emax) - e)%Z as [|q|q] eqn:En.
  - eexists _, e, p. split; [reflexivity|]. split; [reflexivity | lia].
  - rewrite iter_pos_nat.
    destruct (shr_1_iter (Pos.to_nat q) p r s) as (p' & r' & s' & -> & Hd).
    { rewrite positive_nat_Z. lia. }
    rewrite positive_nat_Z in Hd.
    eexists _, _, p'. split; [reflexivity|]. split; [reflexivity | lia].
  - eexists _, e, p. split; [reflexivity|]. split; [reflexivity | lia].
Qed.

Lemma round_nearest_even_positive p l :
  exists p', round_nearest_even (Zpos p) l = Zpos p' /\ (digits p <= digits p')%Z.
Proof.
  assert (exists p', (Zpos p + 1)%Z = Zpos p' /\ (digits p <= digits p')%Z) as Hs.
  { exists (Pos.succ p). split; [lia | apply digits_succ]. }
  unfold round_nearest_even. destruct l as [|[]].
  - exists p. split; [reflexivity | lia].
  - destruct (Z.even (Zpos p)); [exists p; split; [reflexivity | lia] | exact Hs].
  - exists p. split; [reflexivity | lia].
  - exact Hs.
Qed.

(** A result with the sign [sx] that is neither a zero nor NaN. *)
Definition signed (sx : bool) (f : spec_float) : Prop :=
  (exists m e, f = S754_finite sx m e) \/ f = S754_infinity sx.

Lemma binary_round_aux_signed sx p e l :
  (emin prec emax < digits p + e)%Z ->
  signed sx (binary_round_aux prec emax sx (Zpos p) e l).
Proof using prec_pos.
  intros He. unfold binary_round_aux.
  destruct (shr_fexp_positive p e l He) as (mrs1 & e1 & p1 & -> & Hm1 & Hd1).
  rewrite Hm1.
  destruct (round_nearest_even_positive p1 (loc_of_shr_record mrs1)) as (p2 & -> & Hd2).
  destruct (shr_fexp_positive p2 e1 loc_Exact) as (mrs2 & e2 & p3 & -> & -> & _); [lia|].
  destruct (e2 <=? emax - prec)%Z; [left; eauto | right; reflexivity].
Qed.

Lemma iter_xO_digits m d : digits (Pos.iter xO m d) = (digits m + Zpos d)%Z.
Proof.
  induction d as [|d IH] using Pos.peano_ind.
  - simpl. lia.
  - rewrite Pos.iter_succ. cbn [digits2_pos]. lia.
Qed.

Lemma iter_xO_value m d : Zpos (Pos.iter xO m d) = (Zpos m * 2 ^ Zpos d)%Z.
Proof.
  induction d as [|d IH] using Pos.peano_ind.
  - simpl. lia.
  - rewrite Pos.iter_succ, Pos2Z.inj_xO, IH, Pos2Z.inj_succ, Z.pow_succ_r by lia. lia.
Qed.

Lemma shl_align_digits m e e' :
  (digits (shl_align m e e').1 + (shl_align m e e').2 = digits m + e)%Z.
Proof.
  unfold shl_align. destruct (e' - e)%Z as [|d|d] eqn:Ed; cbn [fst snd]; try lia.
  rewrite iter_xO_digits. lia.
Qed.

Lemma shl_align_value m e e' :
  (e' <= e)%Z -> Zpos (shl_align m e e').1 = (Zpos m * 2 ^ (e - e'))%Z.
Proof.
  intros He. unfold shl_align. destruct (e' - e)%Z as [|d|d] eqn:Ed; cbn [fst snd].
  - replace (e - e')%Z with 0%Z by lia. lia.
  - lia.
  - rewrite iter_xO_value. f_equal. f_equal. lia.
Qed.

Lemma binary_round_signed sx m e :
  (emin prec emax < digits m + e)%Z -> signed sx (binary_round prec emax sx m e).
Proof using prec_pos.
  intros He. unfold binary_round.
  pose proof (shl_align_digits m e (fexp prec emax (digits m + e))) as Hd.
  destruct (shl_align m e (fexp prec emax (digits m + e))) as [mz ez].
  cbn [fst snd] in Hd. apply binary_round_aux_signed. lia.
Qed.

Definition positive_result (f : spec_float) : bool := SFltb (S754_zero false) f.

Lemma signed_positive sx f : signed sx f -> positive_result f = negb sx.
Proof. intros [(m & e & ->) | ->]; destruct sx; reflexivity. Qed.

Lemma binary_normalize_positive M e :
  (emin prec emax <= e)%Z ->
  positive_result (binary_normalize prec emax M e false) = (0 <? M)%Z.
Proof using prec_pos.
  intros He. destruct M as [|m|m]; cbn [binary_normalize]; [reflexivity| |].
  - rewrite (signed_positive false); [reflexivity|].
    apply binary_round_signed. pose proof (Pos2Z.is_pos (digits2_pos m)). lia.
  - rewrite (signed_positive true); [reflexivity|].
    apply binary_round_signed. pose proof (Pos2Z.is_pos (digits2_pos m)). lia.
Qed.

(** What [valid_binary] says of a mantissa and its exponent. *)
Lemma canonical_bounds m e :
  canonical_mantissa prec emax m e = true ->
  (emin prec emax <= e /\ digits m <= prec
   /\ (emin prec emax < e -> digits m = prec))%Z.
Proof.
  unfold canonical_mantissa, fexp. intros Hc. apply Z.eqb_eq in Hc. lia.
Qed.

Lemma magnitude_lt m1 e1 m2 e2 :
  canonical_mantissa prec emax m1 e1 = true ->
  canonical_mantissa prec emax m2 e2 = true ->
  (e1 < e2)%Z -> (Zpos m1 < Zpos m2 * 2 ^ (e2 - e1))%Z.
Proof using prec_pos.
  intros H1 H2 Hlt.
  apply canonical_bounds in H1, H2.
  pose proof (digits_bounds m1) as [_ Hu]. pose proof (digits_bounds m2) as [Hl _].
  assert (digits m2 = prec) as Hd2 by lia. rewrite Hd2 in Hl.
  assert (2 ^ digits m1 <= 2 ^ prec)%Z as Hp by (apply Z.pow_le_mono_r; lia).
  assert (2 ^ 1 <= 2 ^ (e2 - e1))%Z as Hq by (apply Z.pow_le_mono_r; lia).
  assert (2 ^ prec = 2 ^ (prec - 1) * 2)%Z as Hs.
  { replace prec with (Z.succ (prec - 1)) at 1 by lia. rewrite Z.pow_succ_r by lia. lia. }
  change (2 ^ 1)%Z with 2%Z in Hq. nia.
Qed.

(** The sign of the exact difference decides the comparison. *)
Lemma compare_difference sx mx ex sy my ey :
  bounded prec emax mx ex = true -> bounded prec emax my ey = true ->
  let ez := Z.min ey ex in
  SFltb (S754_finite sx mx ex) (S754_finite sy my ey)
  = (0 <? cond_Zopp sy (Zpos (shl_align my ey ez).1)
          - cond_Zopp sx (Zpos (shl_align mx ex ez).1))%Z.
Proof using prec_pos.
  intros Hx Hy ez. unfold bounded in Hx, Hy.
  apply andb_prop in Hx, Hy. destruct Hx as [Hx _], Hy as [Hy _].
  rewrite !shl_align_value by (unfold ez; lia).
  unfold SFltb, SFcompare.
  pose proof (Pos2Z.is_pos mx) as Px. pose proof (Pos2Z.is_pos my) as Py.
  assert (0 < 2 ^ (ex - ez))%Z as Qx by (apply Z.pow_pos_nonneg; unfold ez; lia).
  assert (0 < 2 ^ (ey - ez))%Z as Qy by (apply Z.pow_pos_nonneg; unfold ez; lia).
  assert (forall a b, (0 < a)%Z -> (0 < b)%Z -> (0 < a * b)%Z) as Hmul by (intros; nia).
  pose proof (Hmul _ _ Px Qx) as Ax. pose proof (Hmul _ _ Py Qy) as Ay.
  assert ((ex < ey)%Z -> (Zpos mx * 2 ^ (ex - ez) < Zpos my * 2 ^ (ey - ez))%Z) as Hlt.
  { intros Hl. replace (ex - ez)%Z with 0%Z by (unfold ez; lia).
    replace (ey - ez)%Z with (ey - ex)%Z by (unfold ez; lia).
    pose proof (magnitude_lt mx ex my ey Hx Hy Hl). lia. }
  assert ((ey < ex)%Z -> (Zpos my * 2 ^ (ey - ez) < Zpos mx * 2 ^ (ex - ez))%Z) as Hgt.
  { intros Hl. replace (ey - ez)%Z with 0%Z by (unfold ez; lia).
    replace (ex - ez)%Z with (ex - ey)%Z by (unfold ez; lia).
    pose proof (magnitude_lt my ey mx ex Hy Hx Hl). lia. }
  assert (ex = ey -> (2 ^ (ex - ez) = 1 /\ 2 ^ (ey - ez) = 1)%Z) as Heq.
  { intros ->. replace (ey - ez)%Z with 0%Z by (unfold ez; lia). split; reflexivity. }
  change (Pos.compare_cont Eq mx my) with (Pos.compare mx my).
  generalize dependent (2 ^ (ex - ez))%Z. generalize dependent (2 ^ (ey - ez))%Z.
  intros Qy HQy Qx HQx Ax Ay Hlt Hgt Heq.
  destruct sx, sy; cbn [cond_Zopp]; symmetry.
  - destruct (Z.compare_spec ex ey) as [E|E|E].
    + destruct (Heq E) as [-> ->].
      destruct (Pos.compare_spec mx my) as [F|F|F]; cbn [CompOpp];
        first [apply Z.ltb_lt; lia | apply Z.ltb_ge; lia].
    + apply Z.ltb_ge. specialize (Hlt E). lia.
    + apply Z.ltb_lt. specialize (Hgt E). lia.
  - apply Z.ltb_lt. lia.
  - apply Z.ltb_ge. lia.
  - destruct (Z.compare_spec ex ey) as [E|E|E].
    + destruct (Heq E) as [-> ->].
      destruct (Pos.compare_spec mx my) as [F|F|F];
        first [apply Z.ltb_lt; lia | apply Z.ltb_ge; lia].
    + apply Z.ltb_lt. specialize (Hlt E). lia.
    + apply Z.ltb_ge. specialize (Hgt E). lia.
Qed.

Definition is_finite (f : spec_float) : bool :=
  match f with
  | S754_zero _ | S754_finite _ _ _ => true
  | _ => false
  end.

(** On numbers that are finite, [y - x] is above zero exactly when [x] is
    below [y]: a difference is never rounded to zero or across it. *)
Lemma SFsub_positive x y :
  SpecFloat.valid_binary prec emax x = true ->
  SpecFloat.valid_binary prec emax y = true ->
  is_finite x = true -> is_finite y = true ->
  positive_result (SFsub prec emax y x) = SFltb x y.
Proof using prec_pos.
  destruct x as [sx| | |sx mx ex], y as [sy| | |sy my ey]; try discriminate;
    intros Vx Vy _ _.
  - destruct sx, sy; reflexivity.
  - destruct sy; reflexivity.
  - destruct sx; reflexivity.
  - cbn [SFsub SpecFloat.valid_binary] in *.
    rewrite (compare_difference sx mx ex sy my ey Vx Vy).
    apply binary_normalize_positive.
    unfold bounded in Vx, Vy. apply andb_prop in Vx, Vy.
    destruct Vx as [Vx _], Vy as [Vy _].
    apply canonical_bounds in Vx, Vy. lia.
Qed.

End Format.

Lemma isFinite_spec x : Num.isFinite x = true -> is_finite (Prim2SF x) = true.
Proof.
  unfold Num.isFinite, PrimFloat.is_nan, PrimFloat.is_infinity.
  rewrite !eqb_spec, abs_spec.
  change (Prim2SF infinity) with (S754_infinity false).
  destruct (Prim2SF x) as [s|s| |s m e]; try reflexivity.
  - destruct s; discriminate.
  - discriminate.
Qed.

Lemma sub_sign x y :
  Num.isFinite x = true -> Num.isFinite y = true ->
  (0 <? y - x)%float = (x <? y)%float.
Proof.
  intros Hx Hy. rewrite !ltb_spec, sub_spec.
  change (Prim2SF 0) with (S754_zero false).
  apply (SFsub_positive prec emax); try reflexivity;
    auto using Prim2SF_valid, isFinite_spec.
Qed.

End Rounding.

(** ** The vector store *)

Module StoreFacts.
Import Store.

(** *** Cosine similarity *)














(** *** Embeddings *)

Section WithHost.
Context `{Host}.

Lemma add_features_length hash i count embedding : forall j,
  length (add_features hash i count j embedding) = length embedding.
Proof.
  induction embedding as [|v rest IH]; intros j; simpl; [reflexivity|]. f_equal. apply IH.
Qed.

Lemma add_words_length count words : forall i embedding,
  length (add_words count i words embedding) = length embedding.
Proof.
  induction words as [|w rest IH]; intros i embedding; simpl; [reflexivity|].
  rewrite IH. apply add_features_length.
Qed.

Lemma randomise_length random embedding : forall i,
  length (randomise random i embedding) = length embedding.
Proof.
  induction embedding as [|v rest IH]; intros i; simpl; [reflexivity|]. f_equal. apply IH.
Qed.

Lemma accumulated_length text : length (accumulated text) = 128%nat.
Proof. unfold accumulated. rewrite add_words_length. reflexivity. Qed.



(** *** Similarity search *)

(** In descending order of similarity. *)
Definition descending (a b : Scored) : Prop :=
  (similarity b <=? similarity a)%float = true.

#[export] Instance descending_trans : Transitive descending.
Proof. intros a b c Hab Hbc. exact (FloatFacts.leb_trans _ _ _ Hbc Hab). Qed.

(** A scored chunk that [searchSimilar] may return for the query embedding
    [q] and the threshold. *)
Definition kept (threshold : float) (q : list float) (sc : Scored) : Prop :=
  exists emb,
    embedding (chunk sc) = Some emb
    /\ similarity sc = cosineSimilarity q emb
    /\ (threshold <=? similarity sc)%float = true.

Lemma score_row_kept now threshold q row sc :
  score_row now threshold q row = Some sc -> kept threshold q sc.
Proof.
  unfold score_row. destruct (_ || _); [discriminate|].
  destruct (row_embedding row) as [emb|]; [|discriminate].
  destruct (is_empty_list emb); [discriminate|].
  destruct (_ || _); [discriminate|].
  destruct (Num.geb _ _) eqn:Hg; [|discriminate].
  intros [= <-]. exists emb. simpl. auto.
Qed.

Lemma collect_kept now threshold q rows :
  Forall (kept threshold q) (collect now threshold q rows).
Proof.
  unfold collect. induction rows as [|row rows IH]; simpl; [constructor|].
  destruct (score_row now threshold q row) as [sc|] eqn:Es; simpl; [|exact IH].
  constructor; [eapply score_row_kept; exact Es | exact IH].
Qed.

Lemma insert_perm {A} (cmp : A -> A -> float) x l : Sort.insert cmp x l ≡ₚ x :: l.
Proof.
  induction l as [|y l IH]; simpl; [reflexivity|].
  destruct (Num.gt0 (cmp x y)); [|reflexivity].
  rewrite IH. apply Permutation_swap.
Qed.

Lemma sort_perm {A} (cmp : A -> A -> float) l : Sort.sort cmp l ≡ₚ l.
Proof.
  induction l as [|x l IH]; simpl; [reflexivity|].
  rewrite insert_perm. unfold Sort.sort in IH. rewrite IH. reflexivity.
Qed.

Lemma slice0_firstn {A} n (l : list A) : exists k, slice0 n l = firstn k l.
Proof. unfold slice0. destruct (n <? 0)%Z; eauto. Qed.

Lemma slice0_length {A} n (l : list A) :
  (0 <= n)%Z -> (Z.of_nat (length (slice0 n l)) <= n)%Z.
Proof.
  intros Hn. unfold slice0. destruct (n <? 0)%Z eqn:E; [lia|].
  rewrite length_firstn. lia.
Qed.

Lemma firstn_incl {A} k (l : list A) : incl (firstn k l) l.
Proof.
  intros z Hz. rewrite <- (firstn_skipn k l). apply in_or_app. now left.
Qed.

Lemma firstn_StronglySorted {A} (R : A -> A -> Prop) k l :
  StronglySorted R l -> StronglySorted R (firstn k l).
Proof.
  intros Hs. rewrite <- (firstn_skipn k l) in Hs.
  exact (StronglySorted_app_1_l R _ _ Hs).
Qed.

Lemma isFinite_number x : Num.isFinite x = true -> PrimFloat.is_nan x = false.
Proof.
  unfold Num.isFinite. destruct (PrimFloat.is_nan x); [discriminate | reflexivity].
Qed.

Section Ranking.
Variable candidates : list Scored.
Hypothesis numbers : Forall (fun sc => Num.isFinite (similarity sc) = true) candidates.

(** The comparator of the sort puts [x] after [y] exactly when the
    similarity of [x] is below that of [y]. *)
Lemma comparator_sign x y :
  In x candidates -> In y candidates ->
  Num.gt0 (bySimilarity x y) = (similarity x <? similarity y)%float.
Proof using numbers.
  intros Hx Hy. rewrite List.Forall_forall in numbers.
  apply Rounding.sub_sign; [apply (numbers x Hx) | apply (numbers y Hy)].
Qed.

Lemma insert_sorted x l :
  In x candidates -> incl l candidates ->
  Sorted descending l -> Sorted descending (Sort.insert bySimilarity x l).
Proof using numbers.
  intros Hx. induction l as [|y l IH]; intros Hl Hs; simpl.
  - repeat constructor.
  - assert (In y candidates) as Hy by (apply Hl; now left).
    rewrite (comparator_sign x y Hx Hy).
    inversion Hs as [|? ? Hs' Hhd]; subst.
    destruct (similarity x <? similarity y)%float eqn:E.
    + constructor.
      * apply IH; [|exact Hs']. intros z Hz. apply Hl. now right.
      * assert (descending y x) as Hyx by (apply FloatFacts.ltb_leb; exact E).
        destruct l as [|z l]; simpl; [constructor; exact Hyx|].
        destruct (Num.gt0 (bySimilarity x z)); constructor; [|exact Hyx].
        inversion Hhd; subst. assumption.
    + constructor; [exact Hs|]. constructor.
      rewrite List.Forall_forall in numbers.
      apply FloatFacts.not_ltb_leb;
        [apply isFinite_number, (numbers x Hx) | apply isFinite_number, (numbers y Hy)
        | exact E].
Qed.

Lemma sort_sorted l :
  incl l candidates -> Sorted descending (Sort.sort bySimilarity l).
Proof using numbers.
  induction l as [|x l IH]; intros Hl; simpl; [constructor|].
  apply insert_sorted.
  - apply Hl. now left.
  - intros z Hz. apply Hl. right.
    apply (Permutation_in z (sort_perm bySimilarity l)). exact Hz.
  - apply IH. intros z Hz. apply Hl. now right.
Qed.

End Ranking.

Lemma score_row_number now threshold q row sc :
  score_row now threshold q row = Some sc -> Num.isFinite (similarity sc) = true.
Proof.
  unfold score_row. destruct (_ || _); [discriminate|].
  destruct (row_embedding row) as [emb|]; [|discriminate].
  destruct (is_empty_list emb); [discriminate|].
  destruct (Num.isNaN (cosineSimilarity q emb)); [discriminate|].
  cbn [orb]. destruct (Num.isFinite (cosineSimilarity q emb)) eqn:Hn; [|discriminate].
  cbn [negb]. destruct (Num.geb _ _); [|discriminate].
  intros [= <-]. exact Hn.
Qed.

Lemma collect_numbers now threshold q rows :
  Forall (fun sc => Num.isFinite (similarity sc) = true)
         (collect now threshold q rows).
Proof.
  unfold collect. induction rows as [|row rows IH]; simpl; [constructor|].
  destruct (score_row now threshold q row) as [sc|] eqn:Es; simpl; [|exact IH].
  constructor; [eapply score_row_number; exact Es | exact IH].
Qed.

(** The scored rows that pass the threshold, before they are sorted. *)
Definition candidates (random : nat -> float) (now : Z) (store : VectorStore)
    (rows : Thrown + list Row) (query : jsstring) : list Scored :=
  match generateEmbedding random query, rows with
  | inr q, inr rs => collect now (similarityThreshold (config store)) q rs
  | _, _ => []
  end.

(** C5.  What [searchSimilar] returns are the chunks of a list [ranked] of
    scored rows -- the chunk type has no field for the score -- such that:
    every row in it has an embedding whose cosine similarity to the query
    embedding is at least [similarityThreshold]; [ranked] is in descending
    order of similarity; and, for a positive [topK] and a [maxResults] that
    is not negative, there are at most [min(topK, maxResults)] of them. *)
Theorem searchSimilar_ranked (random : nat -> float) (now : Z) (store : VectorStore)
    (rows : Thrown + list Row) (query : jsstring) (topK : Z)
    (results : list DocumentationChunk) :
  searchSimilar random now store rows query topK = inr results ->
  exists (queryEmbedding : list float) (ranked : list Scored),
    results = map chunk ranked
    /\ (trim query <> [] -> generateEmbedding random query = inr queryEmbedding)
    /\ incl ranked (candidates random now store rows query)
    /\ Forall (kept (similarityThreshold (config store)) queryEmbedding) ranked
    /\ StronglySorted descending ranked
    /\ ((0 < topK)%Z -> (0 <= maxResults (config store))%Z ->
        (Z.of_nat (length results) <= Z.min topK (maxResults (config store)))%Z).
Proof.
  unfold searchSimilar, candidates.
  destruct (negb (db_open store)); [discriminate|].
  destruct (negb (isInitialized store)); [discriminate|].
  destruct (is_empty query); [discriminate|].
  destruct (is_empty (trim query)) eqn:Eb.
  { intros [= <-]. exists [], []. split; [reflexivity|].
    split; [intros Ht; destruct (trim query); [congruence | discriminate]|].
    split; [intros x []|]. split; [constructor|]. split; [constructor|].
    simpl. lia. }
  destruct (topK <=? 0)%Z eqn:Ek; [discriminate|].
  destruct (generateEmbedding random query) as [e|q]; [discriminate|].
  destruct rows as [err|rows]; [discriminate|].
  intros [= <-].
  set (threshold := similarityThreshold (config store)).
  set (cands := collect now threshold q rows).
  set (limit := Z.min topK (maxResults (config store))).
  exists q, (slice0 limit (Sort.sort bySimilarity cands)).
  destruct (slice0_firstn limit (Sort.sort bySimilarity cands)) as [k Hk].
  split; [reflexivity|]. split; [reflexivity|].
  assert (incl (slice0 limit (Sort.sort bySimilarity cands)) cands) as Hincl.
  { rewrite Hk. intros z Hz. apply firstn_incl in Hz.
    apply (Permutation_in z (sort_perm bySimilarity cands)). exact Hz. }
  split; [exact Hincl|]. split.
  - apply List.Forall_forall. intros sc Hsc.
    pose proof (collect_kept now threshold q rows) as Hkept.
    rewrite List.Forall_forall in Hkept. apply Hkept, Hincl, Hsc.
  - split.
    + rewrite Hk. apply firstn_StronglySorted.
      apply Sorted_StronglySorted; [apply descending_trans|].
      apply (sort_sorted cands (collect_numbers now threshold q rows)).
      intros z Hz. exact Hz.
    + intros _ Hmax. rewrite length_map. apply slice0_length. unfold limit.
      apply Z.leb_gt in Ek. lia.
Qed.

End WithHost.

(** C5 on a store of three sections, searched for "calculate sum" with
    [topK] 5 and [maxResults] 2: two chunks come back, the section "sum"
    first. *)
Lemma searchSimilar_ranked_witness :
  exists results ranked,
    searchSimilar (H := TestHost.host) (fun _ => 0.5%float) 0 Examples.store
      (inr Examples.rows) (str "calculate sum") 5 = inr results
    /\ results = map chunk ranked
    /\ StronglySorted descending ranked
    /\ (Z.of_nat (length results) <= 2)%Z.
Proof.
  assert (exists results,
             searchSimilar (H := TestHost.host) (fun _ => 0.5%float) 0 Examples.store
               (inr Examples.rows) (str "calculate sum") 5 = inr results)
    as [results Hrun] by (eexists; vm_compute; reflexivity).
  destruct (searchSimilar_ranked (H := TestHost.host) (fun _ => 0.5%float) 0
              Examples.store (inr Examples.rows) (str "calculate sum") 5 results Hrun)
    as (q & ranked & Hres & _ & _ & _ & Hsorted & Hlen).
  exists results, ranked. split; [exact Hrun|]. split; [exact Hres|].
  split; [exact Hsorted|].
  apply Hlen; [reflexivity | discriminate].
Defined.



End StoreFacts.

(** ** The cache: round trips, expiry and invalidation *)

Module CacheFacts.
Import Cache CacheStats.

Section WithHost.
Context `{Host}.



Lemma retrieve_expired_run now ctx m e :
  cache m !! generateCacheKey ctx = Some e ->
  (timestamp e + ttl e <= now)%Z ->
  retrieve now ctx m
  = (None, {| cache := delete (generateCacheKey ctx) (cache m);
              defaultTTL := defaultTTL m |}).
Proof.
  intros El Hexp. unfold retrieve. rewrite El.
  rewrite (ValidityFacts.isValidEntry_expired now e Hexp). reflexivity.
Qed.

(** X2.  An entry that has expired is not served: [retrieve] and [has]
    answer no and delete it, the other entries stay, the cache is one
    entry smaller, and asking again changes nothing more. *)
Theorem retrieve_expired (now : Z) (ctx : CodeContext) (m : Manager)
    (e : ExplanationCache) :
  cache m !! generateCacheKey ctx = Some e ->
  (timestamp e + ttl e <= now)%Z ->
  let m' := {| cache := delete (generateCacheKey ctx) (cache m);
               defaultTTL := defaultTTL m |} in
  retrieve now ctx m = (None, m')
  /\ has now ctx m = (false, m')
  /\ Cache.size m = S (Cache.size m')
  /\ (forall k, k <> generateCacheKey ctx -> cache m' !! k = cache m !! k)
  /\ retrieve now ctx m' = (None, m').
Proof.
  intros El Hexp m'.
  pose proof (ValidityFacts.isValidEntry_expired now e Hexp) as Hv.
  unfold retrieve, has. rewrite El, Hv. fold m'.
  split; [reflexivity|]. split; [reflexivity|]. split; [|split].
  - unfold Cache.size. subst m'. simpl.
    assert (is_Some (cache m !! generateCacheKey ctx)) as Hs by (rewrite El; eauto).
    rewrite (map_size_delete_Some _ _ Hs).
    pose proof (map_size_ne_0_lookup_2 (cache m) _ Hs). lia.
  - intros k Hk. subst m'. simpl. apply lookup_delete_ne. congruence.
  - subst m'. simpl. rewrite lookup_delete_eq. reflexivity.
Qed.

End WithHost.

Lemma count_entries now l : forall valid expired,
  fold_left (count_entry now) l (valid, expired)
  = (valid + length (List.filter (isValidEntry now) l),
     expired + length (List.filter (fun e => negb (isValidEntry now e)) l))%nat.
Proof.
  induction l as [|e l IH]; intros valid expired; simpl.
  - f_equal; lia.
  - unfold count_entry at 2. destruct (isValidEntry now e); simpl; rewrite IH; f_equal; lia.
Qed.

Lemma filter_lengths {A} (p : A -> bool) l :
  (length (List.filter p l) + length (List.filter (fun x => negb (p x)) l)
   = length l)%nat.
Proof. induction l as [|x l IH]; simpl; [reflexivity|]. destruct (p x); simpl; lia. Qed.

Lemma filter_bool {A} (p : A -> bool) l :
  filter (fun x => p x = true) l = List.filter p l.
Proof.
  induction l as [|x l IH]; [reflexivity|]. rewrite filter_cons. simpl.
  destruct (p x) eqn:E.
  - rewrite decide_True by reflexivity. f_equal. exact IH.
  - rewrite decide_False by discriminate. exact IH.
Qed.

(** The entries [cleanupExpired] keeps, as a list. *)
Lemma cleanup_list (now : Z) (c : gmap jsstring ExplanationCache) :
  map_to_list (filter (fun kv => isValidEntry now kv.2 = true) c)
  ≡ₚ filter (fun kv => isValidEntry now kv.2 = true) (map_to_list c).
Proof.
  induction c as [|k e c Hk _ IH] using map_first_key_ind.
  - rewrite map_filter_empty, map_to_list_empty. reflexivity.
  - rewrite (map_to_list_insert c k e Hk), filter_cons. simpl.
    destruct (isValidEntry now e) eqn:Ev.
    + rewrite decide_True by reflexivity.
      rewrite map_filter_insert_True by exact Ev.
      rewrite map_to_list_insert; [rewrite IH; reflexivity|].
      apply map_lookup_filter_None. left. exact Hk.
    + rewrite decide_False by discriminate.
      rewrite map_filter_insert_False by (simpl; congruence).
      rewrite delete_id by exact Hk. exact IH.
Qed.

Lemma filter_filter_same {A} (p : A -> bool) l :
  List.filter p (List.filter p l) = List.filter p l.
Proof.
  induction l as [|x l IH]; simpl; [reflexivity|].
  destruct (p x) eqn:E; simpl; [rewrite E; f_equal|]; exact IH.
Qed.

Lemma filter_filter_none {A} (p : A -> bool) l :
  List.filter (fun x => negb (p x)) (List.filter p l) = [].
Proof.
  induction l as [|x l IH]; simpl; [reflexivity|].
  destruct (p x) eqn:E; simpl; [rewrite E; simpl|]; exact IH.
Qed.

Lemma filter_map_snd {A B} (p : B -> bool) (l : list (A * B)) :
  List.filter p (map snd l) = map snd (List.filter (fun kv => p kv.2) l).
Proof.
  induction l as [|[a b] l IH]; simpl; [reflexivity|].
  destruct (p b); simpl; [f_equal|]; exact IH.
Qed.

Lemma cleanupExpired_lookup now m k :
  cache (cleanupExpired now m) !! k
  = match cache m !! k with
    | Some e => if isValidEntry now e then Some e else None
    | None => None
    end.
Proof.
  unfold cleanupExpired. cbn [cache]. rewrite map_lookup_filter.
  destruct (cache m !! k) as [e|]; simpl; [|reflexivity].
  destruct (isValidEntry now e) eqn:Ev.
  - rewrite option_guard_True by done. reflexivity.
  - rewrite option_guard_False by done. reflexivity.
Qed.

(** X3.  The statistics split the cache: every entry is counted once, as
    valid or as expired.  [cleanupExpired] removes the expired entries and
    nothing else: afterwards the cache holds what was counted as valid,
    none of it expired, and a key maps to its old entry if that is valid
    and to nothing otherwise. *)
Theorem getStats_cleanupExpired (now : Z) (m : Manager) :
  stats_size (getStats now m)
  = (validEntries (getStats now m) + expiredEntries (getStats now m))%nat
  /\ getStats now (cleanupExpired now m)
     = {| stats_size := validEntries (getStats now m);
          validEntries := validEntries (getStats now m);
          expiredEntries := 0 |}
  /\ (forall k,
        cache (cleanupExpired now m) !! k
        = match cache m !! k with
          | Some e => if isValidEntry now e then Some e else None
          | None => None
          end)
  /\ cleanupExpired now (cleanupExpired now m) = cleanupExpired now m.
Proof.
  unfold getStats. rewrite !count_entries. cbn [fst snd Nat.add].
  unfold Cache.size, cleanupExpired. cbn [cache defaultTTL].
  assert (map snd (map_to_list
                     (filter (fun kv => isValidEntry now kv.2 = true) (cache m)))
          ≡ₚ List.filter (isValidEntry now) (map snd (map_to_list (cache m)))) as Hp.
  { rewrite cleanup_list, filter_bool, filter_map_snd. reflexivity. }
  split; [|split; [|split]].
  - rewrite <- length_map_to_list, <- (length_map snd). symmetry. apply filter_lengths.
  - f_equal.
    + rewrite <- length_map_to_list, <- (length_map snd), Hp. reflexivity.
    + rewrite <- (filter_bool (isValidEntry now) (map snd (map_to_list _))), Hp.
      rewrite filter_bool, filter_filter_same. reflexivity.
    + rewrite <- (filter_bool (fun e => negb (isValidEntry now e))
                    (map snd (map_to_list _))), Hp.
      rewrite filter_bool, filter_filter_none. reflexivity.
  - intros k. apply (cleanupExpired_lookup now m k).
  - f_equal. apply map_filter_filter_l. auto.
Qed.

Lemma hasFileReference_spec filePath e :
  hasFileReference filePath e = true
  <-> exists c, In c (cached_citations e) /\ cit_filePath c = filePath.
Proof.
  unfold hasFileReference. rewrite existsb_exists.
  split; intros (c & Hin & Hc); exists c; (split; [exact Hin|]).
  - apply bool_decide_eq_true_1 in Hc. exact Hc.
  - apply bool_decide_eq_true_2. exact Hc.
Qed.

Lemma invalidateFile_lookup filePath m k :
  cache (invalidateFile filePath m) !! k
  = match cache m !! k with
    | Some e => if hasFileReference filePath e then None else Some e
    | None => None
    end.
Proof.
  unfold invalidateFile. cbn [cache]. rewrite map_lookup_filter.
  destruct (cache m !! k) as [e|]; simpl; [|reflexivity].
  destruct (hasFileReference filePath e) eqn:Ev.
  - rewrite option_guard_False by done. reflexivity.
  - rewrite option_guard_True by done. reflexivity.
Qed.

(** X4.  [invalidateFile] removes exactly the entries that cite the file:
    a key keeps its entry when no citation of the entry has that
    [filePath], and loses it otherwise.  Afterwards no entry cites the
    file, a second invalidation of the same file changes nothing, and
    invalidations of two files can be done in either order. *)
Theorem invalidateFile_exact (filePath : jsstring) (m : Manager) :
  (forall k,
      cache (invalidateFile filePath m) !! k
      = match cache m !! k with
        | Some e => if hasFileReference filePath e then None else Some e
        | None => None
        end)
  /\ (forall k e c,
         cache (invalidateFile filePath m) !! k = Some e ->
         In c (cached_citations e) -> cit_filePath c <> filePath)
  /\ invalidateFile filePath (invalidateFile filePath m) = invalidateFile filePath m
  /\ (forall other,
         invalidateFile filePath (invalidateFile other m)
         = invalidateFile other (invalidateFile filePath m))
  /\ defaultTTL (invalidateFile filePath m) = defaultTTL m.
Proof.
  pose proof (invalidateFile_lookup filePath m) as Hlook.
  split; [exact Hlook|]. split; [|split; [|split]].
  - intros k e c El Hin Hc. rewrite Hlook in El.
    destruct (cache m !! k) as [e'|]; [|discriminate].
    destruct (hasFileReference filePath e') eqn:Ev; [discriminate|].
    injection El as ->.
    assert (hasFileReference filePath e = true) as Ht
      by (apply hasFileReference_spec; eauto).
    congruence.
  - unfold invalidateFile. cbn [cache defaultTTL]. f_equal.
    apply map_filter_filter_l. auto.
  - intros other. unfold invalidateFile. cbn [cache defaultTTL]. f_equal.
    apply map_filter_comm.
  - reflexivity.
Qed.

Section WithHost'.
Context `{Host}.


End WithHost'.


(** X2 on an entry stored at time 0 for five milliseconds and asked for
    at time 5. *)
Lemma retrieve_expired_witness :
  retrieve (H := TestHost.host) 5 Examples.ctx_sum
    (store (H := TestHost.host) 0 Examples.ctx_sum (str "It adds.") [] (Some 5%Z)
       Cache.new)
  = (None,
     {| cache := delete (generateCacheKey (H := TestHost.host) Examples.ctx_sum)
                   (cache (store (H := TestHost.host) 0 Examples.ctx_sum
                             (str "It adds.") [] (Some 5%Z) Cache.new));
        defaultTTL := 30 * 60 * 1000 |}).
Proof.
  destruct (retrieve_expired (H := TestHost.host) 5 Examples.ctx_sum
              (store (H := TestHost.host) 0 Examples.ctx_sum (str "It adds.") []
                 (Some 5%Z) Cache.new)
              {| key := generateCacheKey (H := TestHost.host) Examples.ctx_sum;
                 cached_explanation := str "It adds.";
                 cached_citations := [];
                 timestamp := 0;
                 ttl := 5 |})
    as (Hr & _); [vm_compute; reflexivity | vm_compute; discriminate|].
  exact Hr.
Defined.

End CacheFacts.

(** ** The engine: what a call leaves alone *)

Module EngineOpsFacts.
Import Engine Logic EngineFacts EngineOps.

Section WithHost.
Context `{Host}.

(** *** What a call leaves alone *)

(** From [st] to [st']: the registry and the default time to live are
    the same, the store has been searched [n] more times, and the log has
    grown at its head. *)
Definition framed (n : nat) (st st' : State) : Prop :=
  requestDeduplication st' = requestDeduplication st
  /\ retrievals st' = (n + retrievals st)%nat
  /\ Cache.defaultTTL (cacheManager st') = Cache.defaultTTL (cacheManager st)
  /\ exists added, errorLog st' = added ++ errorLog st.

Lemma framed_refl st : framed 0 st st.
Proof. repeat split. exists []. reflexivity. Qed.

Lemma framed_log n st st' site e :
  framed n st st' -> framed n st (log_error site e st').
Proof.
  intros (H1 & H2 & H3 & added & H4). repeat split; try assumption.
  exists ((site, e) :: added). simpl. rewrite H4. reflexivity.
Qed.

Lemma framed_cache n st st' c :
  framed n st st' -> Cache.defaultTTL c = Cache.defaultTTL (cacheManager st') ->
  framed n st (set_cache c st').
Proof.
  intros (H1 & H2 & H3 & H4) Hc. repeat split; try assumption.
  simpl. congruence.
Qed.

Lemma framed_count st st' : framed 0 st st' -> framed 1 st (count_retrieval st').
Proof.
  intros (H1 & H2 & H3 & H4). repeat split; try assumption. simpl. lia.
Qed.

Lemma framed_registry n st st' reg :
  framed n st st' -> reg = requestDeduplication st ->
  framed n st (set_registry reg st').
Proof. intros (H1 & H2 & H3 & H4) ->. repeat split; assumption. Qed.

(** The cache has a valid entry for the context. *)
Definition cached (now : Z) (ctx : CodeContext) (st : State) : Prop :=
  exists e, Cache.cache (cacheManager st) !! Cache.generateCacheKey ctx = Some e
            /\ Cache.isValidEntry now e = true.

Definition at_most_one (ctx : CodeContext) (now : Z) (st st' : State) : Prop :=
  (framed 0 st st' \/ framed 1 st st')
  /\ (cached now ctx st -> framed 0 st st').

Section WithEnv.
Variable env : Env.

Lemma process_frame ctx st :
  wp (processExplanationRequest env ctx)
     (fun _ st' => at_most_one ctx (now env) st st') (fun _ _ => False) st.
Proof.
  unfold processExplanationRequest, at_most_one.
  apply wp_try_catch.
  apply (wp_mono _ (fun _ st' => (framed 0 st st' \/ framed 1 st st')
                                 /\ (cached (now env) ctx st -> framed 0 st st')) _
           (fun _ st' => (framed 0 st st' \/ framed 1 st st')
                         /\ (cached (now env) ctx st -> framed 0 st st'))); [auto| |].
  { intros e s' [[Hf | Hf] Hc]; apply wp_bind, wp_modify, wp_ret.
    - split; [left; apply framed_log; exact Hf | intros Hh; apply framed_log; auto].
    - split; [right; apply framed_log; exact Hf | intros Hh; apply framed_log; auto]. }
  pose proof (framed_refl st) as H0.
  apply wp_bind, wp_checkpoint; [intros; split; auto|].
  apply wp_bind. unfold wp at 1, cache_retrieve.
  destruct (Cache.retrieve (now env) ctx (cacheManager st)) as [entry c] eqn:Er.
  assert (framed 0 st (set_cache c st)) as H1.
  { apply framed_cache; [exact H0|]. apply (retrieve_defaultTTL _ _ _ _ _ Er). }
  destruct entry as [e|]; [apply wp_ret; split; auto|].
  assert (cached (now env) ctx st -> False) as Hmiss.
  { intros (e & El & Ev). rewrite (retrieve_valid _ _ _ _ El Ev) in Er. discriminate. }
  assert (forall s, framed 1 st s ->
                    (framed 0 st s \/ framed 1 st s)
                    /\ (cached (now env) ctx st -> framed 0 st s)) as Hone
    by (intros s Hs; split; [right; exact Hs | intros Hc; destruct (Hmiss Hc)]).
  apply wp_bind, wp_checkpoint;
    [intros; split; [left; exact H1 | intros Hc; destruct (Hmiss Hc)]|].
  apply wp_bind. unfold wp at 1. rewrite retrieve_run.
  set (ctx' := (generateContextHash ctx).2).
  assert (framed 1 st (after_retrieval env (buildQueryFromContext ctx') (set_cache c st)))
    as H2.
  { unfold after_retrieval.
    destruct (searchSimilar env (buildQueryFromContext ctx') 5%float);
      [apply framed_log|]; apply framed_count; exact H1. }
  set (st2 := after_retrieval env (buildQueryFromContext ctx') (set_cache c st)) in *.
  assert (forall text cited,
             framed 1 st (set_cache (Cache.store (now env) ctx' text cited None
                                       (cacheManager st2)) st2)) as H3
    by (intros; apply framed_cache; [exact H2 | reflexivity]).
  apply wp_bind, wp_checkpoint; [intros; apply Hone; exact H2|].
  destruct (enforceDocumentationRequirement ctx' _) as [ok fb].
  destruct ok; cbn [negb].
  - apply wp_bind, wp_checkpoint; [intros; apply Hone; exact H2|].
    apply wp_bind, wp_checkpoint; [intros; apply Hone; exact H2|].
    destruct (validateExplanationGrounding _ _); cbn [negb].
    + apply wp_bind, wp_checkpoint; [intros; apply Hone; exact H2|].
      apply wp_bind, wp_checkpoint; [intros; apply Hone; exact H2|].
      apply wp_bind, wp_checkpoint; [intros; apply Hone; exact H2|].
      apply wp_bind, wp_modify, wp_ret, Hone, H3.
    + apply wp_bind, wp_checkpoint; [intros; apply Hone; exact H2|].
      apply wp_bind, wp_modify, wp_ret, Hone, H3.
  - apply wp_bind, wp_checkpoint; [intros; apply Hone; exact H2|].
    apply wp_bind, wp_modify, wp_ret, Hone, H3.
Qed.

Lemma explainCode_frame ctx st :
  wp (explainCode env ctx)
     (fun _ st' => at_most_one ctx (now env) st st') (fun _ _ => False) st.
Proof.
  unfold explainCode, at_most_one.
  apply wp_try_catch.
  apply (wp_mono _ (fun _ st' => (framed 0 st st' \/ framed 1 st st')
                                 /\ (cached (now env) ctx st -> framed 0 st st')) _
           (fun _ st' => (framed 0 st st' \/ framed 1 st st')
                         /\ (cached (now env) ctx st -> framed 0 st st'))); [auto| |].
  { intros e s' [[Hf | Hf] Hc]; apply wp_bind, wp_modify, wp_ret.
    - split; [left; apply framed_log; exact Hf | intros Hh; apply framed_log; auto].
    - split; [right; apply framed_log; exact Hf | intros Hh; apply framed_log; auto]. }
  pose proof (framed_refl st) as H0.
  destruct (is_empty (selectedText ctx)); [apply wp_throw; split; auto|].
  destruct (is_empty (trim (selectedText ctx))); [apply wp_ret; split; auto|].
  apply wp_bind, wp_checkpoint; [intros; split; auto|].
  change (generateContextHash ctx)
    with ((generateContextHash ctx).1, sorted_imports ctx).
  cbn [fst snd]. set (contextHash := (generateContextHash ctx).1).
  apply wp_bind, wp_gets.
  destruct (requestDeduplication st !! contextHash) as [ongoing|] eqn:Eo.
  { destruct ongoing as [e|r]; simpl; [apply wp_throw | apply wp_ret]; split; auto. }
  unfold wp at 1.
  pose proof (process_frame (sorted_imports ctx) st) as Hp.
  apply wp_returns in Hp. destruct Hp as (r & st1 & -> & Hany & Hhit).
  apply wp_try_finally. simpl. apply wp_ret.
  assert (forall n, framed n st st1 ->
            framed n st
              (set_registry
                 (delete contextHash
                    (<[contextHash := inr r]> (requestDeduplication st1)))
                 (set_registry (<[contextHash := inr r]> (requestDeduplication st1))
                    st1))) as Hreg.
  { intros n (H1 & H2 & H3 & H4). repeat split; try assumption. simpl.
    rewrite delete_insert_id by (rewrite H1; exact Eo). exact H1. }
  split; [destruct Hany as [Hf | Hf]; [left | right]; apply Hreg; exact Hf|].
  intros (e & El & Ev). apply Hreg, Hhit. exists e. auto.
Qed.

End WithEnv.

(** X6.  Whatever fails, a call of [explainCode] returns and leaves no
    request registered: the deduplication map is as it was before the
    call.  It searches the vector store at most once, and not at all when
    the cache holds a valid entry for the context; and it keeps the default
    time to live of the cache. *)
Theorem explainCode_no_leak (env : Env) (ctx : CodeContext) (st : State) :
  exists r st',
    explainCode env ctx st = (inr r, st')
    /\ requestDeduplication st' = requestDeduplication st
    /\ activeRequests st' = activeRequests st
    /\ (retrievals st' = retrievals st \/ retrievals st' = S (retrievals st))
    /\ ((exists e, Cache.cache (cacheManager st) !! Cache.generateCacheKey ctx = Some e
                   /\ Cache.isValidEntry (now env) e = true) ->
        retrievals st' = retrievals st)
    /\ Cache.defaultTTL (cacheManager st') = Cache.defaultTTL (cacheManager st).
Proof.
  pose proof (explainCode_frame env ctx st) as Hw. apply wp_returns in Hw.
  destruct Hw as (r & st' & E & Hany & Hhit). exists r, st'.
  split; [exact E|].
  assert (requestDeduplication st' = requestDeduplication st
          /\ Cache.defaultTTL (cacheManager st') = Cache.defaultTTL (cacheManager st))
    as [Hr Ht] by (destruct Hany as [(? & _ & ? & _) | (? & _ & ? & _)]; auto).
  split; [exact Hr|]. split; [unfold activeRequests; rewrite Hr; reflexivity|].
  split; [destruct Hany as [(_ & ? & _) | (_ & ? & _)]; [left | right]; assumption|].
  split; [|exact Ht].
  intros Hc. destruct (Hhit Hc) as (_ & ? & _). assumption.
Qed.

End WithHost.
End EngineOpsFacts.

(** *** What makes the engine compute again *)

Module RecomputeFacts.
Import Engine Logic EngineFacts EngineOps.

Section WithHost.
Context `{Host}.

Section Runs.
Variable env : Env.
Hypothesis no_faults : forall stage, fault env stage = None.

(** A call that finds no valid entry answers with what it computes from a
    new search of the store, and stores that under the key of the context
    with the time of the call. *)
Definition recomputed (ctx : CodeContext) (st : State) : Prop :=
  exists st' e,
    explainCode env ctx st
    = (inr (fresh_result (sorted_imports ctx) (docs_of env ctx)), st')
    /\ retrievals st' = S (retrievals st)
    /\ Cache.cache (cacheManager st') !! Cache.generateCacheKey ctx = Some e
    /\ cached_explanation e
       = explanation (fresh_result (sorted_imports ctx) (docs_of env ctx))
    /\ cached_citations e
       = citations (fresh_result (sorted_imports ctx) (docs_of env ctx))
    /\ timestamp e = now env.

Lemma miss_recomputed ctx st c :
  is_empty (trim (selectedText ctx)) = false ->
  requestDeduplication st !! (generateContextHash ctx).1 = None ->
  Cache.retrieve (now env) ctx (cacheManager st) = (None, c) ->
  recomputed ctx st.
Proof using no_faults.
  intros Hb Hreg Hr.
  destruct (after_miss_lookup env ctx c st) as (e & El & He & Hc & Ht & _).
  exists (after_miss env ctx c st), e.
  split; [apply explainCode_miss; assumption|].
  split; [apply after_miss_retrievals|]. auto.
Qed.

End Runs.

(** X7.  After [clearCache] the cache is empty and the next call for any
    context computes its answer again from a new search of the store. *)
Theorem clearCache_recomputes (env : Env) (ctx : CodeContext) (st : State) :
  (forall stage, fault env stage = None) ->
  is_empty (trim (selectedText ctx)) = false ->
  requestDeduplication st !! (generateContextHash ctx).1 = None ->
  Cache.size (cacheManager (clearCache st)) = 0%nat
  /\ recomputed env ctx (clearCache st).
Proof.
  intros Hf Hb Hreg. split; [apply map_size_empty|].
  apply (miss_recomputed env Hf ctx (clearCache st) (cacheManager (clearCache st)));
    [exact Hb | exact Hreg|].
  unfold Cache.retrieve, clearCache. simpl. rewrite lookup_empty. reflexivity.
Qed.

(** X8.  When the entry of a context cites a file, invalidating that file
    removes the entry, and the next call for the context computes its
    answer again from a new search of the store. *)
Theorem invalidateCacheForFile_recomputes (env : Env) (ctx : CodeContext)
    (st : State) (e : ExplanationCache) (c : Citation) :
  (forall stage, fault env stage = None) ->
  is_empty (trim (selectedText ctx)) = false ->
  requestDeduplication st !! (generateContextHash ctx).1 = None ->
  Cache.cache (cacheManager st) !! Cache.generateCacheKey ctx = Some e ->
  In c (cached_citations e) ->
  let st1 := invalidateCacheForFile (cit_filePath c) st in
  Cache.cache (cacheManager st1) !! Cache.generateCacheKey ctx = None
  /\ recomputed env ctx st1.
Proof.
  intros Hf Hb Hreg El Hin st1.
  assert (Cache.cache (cacheManager st1) !! Cache.generateCacheKey ctx = None) as Hn.
  { subst st1.
    change (Cache.cache (Cache.invalidateFile (cit_filePath c) (cacheManager st))
              !! Cache.generateCacheKey ctx = None).
    rewrite CacheFacts.invalidateFile_lookup, El.
    assert (Cache.hasFileReference (cit_filePath c) e = true) as ->
      by (apply CacheFacts.hasFileReference_spec; eauto).
    reflexivity. }
  split; [exact Hn|].
  apply (miss_recomputed env Hf ctx st1 (cacheManager st1)); [exact Hb | exact Hreg|].
  unfold Cache.retrieve. rewrite Hn. reflexivity.
Qed.

(** X9.  Once the entry of a context has expired, the next call for the
    context does not serve it: it computes the answer again from a new
    search of the store and replaces the entry by one that carries the
    time of the call. *)
Theorem expired_entry_recomputes (env : Env) (ctx : CodeContext)
    (st : State) (e : ExplanationCache) :
  (forall stage, fault env stage = None) ->
  is_empty (trim (selectedText ctx)) = false ->
  requestDeduplication st !! (generateContextHash ctx).1 = None ->
  Cache.cache (cacheManager st) !! Cache.generateCacheKey ctx = Some e ->
  (timestamp e + ttl e <= now env)%Z ->
  recomputed env ctx st.
Proof.
  intros Hf Hb Hreg El Hexp.
  exact (miss_recomputed env Hf ctx st _ Hb Hreg
           (CacheFacts.retrieve_expired_run (now env) ctx (cacheManager st) e El Hexp)).
Qed.

End WithHost.

(** The entry of [Examples.ctx_sum] in the examples below: it cites the
    README, and lives five milliseconds. *)
Definition cited_entry : Cache.Manager :=
  Cache.store (H := TestHost.host) 0 Examples.ctx_sum (str "It adds.")
    [{| cit_filePath := str "README.md";
        cit_sectionHeading := str "calculateSum";
        relevanceScore := 1 |}]
    (Some 5%Z) Cache.new.

(** X7 on an engine whose cache holds an entry for the context. *)
Lemma clearCache_recomputes_witness :
  recomputed (H := TestHost.host) (Examples.env_sum 1) Examples.ctx_sum
    (clearCache (set_cache cited_entry Engine.new)).
Proof.
  destruct (clearCache_recomputes (H := TestHost.host) (Examples.env_sum 1)
              Examples.ctx_sum (set_cache cited_entry Engine.new))
    as [_ Hre]; [reflexivity | vm_compute; reflexivity | reflexivity|].
  exact Hre.
Defined.

(** X8 on the same engine, after the README has changed. *)
Lemma invalidateCacheForFile_recomputes_witness :
  recomputed (H := TestHost.host) (Examples.env_sum 1) Examples.ctx_sum
    (invalidateCacheForFile (str "README.md") (set_cache cited_entry Engine.new)).
Proof.
  destruct (invalidateCacheForFile_recomputes (H := TestHost.host) (Examples.env_sum 1)
              Examples.ctx_sum (set_cache cited_entry Engine.new)
              {| key := Cache.generateCacheKey (H := TestHost.host) Examples.ctx_sum;
                 cached_explanation := str "It adds.";
                 cached_citations :=
                   [{| cit_filePath := str "README.md";
                       cit_sectionHeading := str "calculateSum";
                       relevanceScore := 1 |}];
                 timestamp := 0;
                 ttl := 5 |}
              {| cit_filePath := str "README.md";
                 cit_sectionHeading := str "calculateSum";
                 relevanceScore := 1 |})
    as [_ Hre];
    [reflexivity | vm_compute; reflexivity | reflexivity | vm_compute; reflexivity
    | simpl; left; reflexivity |].
  exact Hre.
Defined.

(** X9 on the same engine, ten milliseconds after the entry was stored. *)
Lemma expired_entry_recomputes_witness :
  recomputed (H := TestHost.host) (Examples.env_sum 10) Examples.ctx_sum
    (set_cache cited_entry Engine.new).
Proof.
  exact (expired_entry_recomputes (H := TestHost.host) (Examples.env_sum 10)
           Examples.ctx_sum (set_cache cited_entry Engine.new)
           {| key := Cache.generateCacheKey (H := TestHost.host) Examples.ctx_sum;
              cached_explanation := str "It adds.";
              cached_citations :=
                [{| cit_filePath := str "README.md";
                    cit_sectionHeading := str "calculateSum";
                    relevanceScore := 1 |}];
              timestamp := 0;
              ttl := 5 |}
           ltac:(reflexivity) ltac:(vm_compute; reflexivity) ltac:(reflexivity)
           ltac:(vm_compute; reflexivity) ltac:(vm_compute; discriminate)).
Defined.

End RecomputeFacts.

(** *** Cleaning up, and the check of determinism *)

Module CleanupFacts.
Import Engine Logic EngineFacts EngineOps EngineOpsFacts.

Section WithHost.
Context `{Host}.

Section WithEnv.
Variable env : Env.

(** The answer of a request depends on the state only through what the
    cache answers for the context. *)
Lemma process_result ctx st1 st2 :
  (Cache.retrieve (now env) ctx (cacheManager st1)).1
  = (Cache.retrieve (now env) ctx (cacheManager st2)).1 ->
  (processExplanationRequest env ctx st1).1
  = (processExplanationRequest env ctx st2).1.
Proof.
  intros Hr.
  unfold processExplanationRequest, try_catch, bind, checkpoint, cache_retrieve.
  destruct (fault env AtCacheLookup); [reflexivity|]. cbn [ret].
  destruct (Cache.retrieve (now env) ctx (cacheManager st1)) as [o1 c1].
  destruct (Cache.retrieve (now env) ctx (cacheManager st2)) as [o2 c2].
  simpl in Hr. subst o2. destruct o1 as [e|]; [reflexivity|].
  destruct (fault env AtQuery); [reflexivity|]. cbn [ret].
  rewrite !retrieve_run.
  destruct (fault env AtEnforcement); [reflexivity|]. cbn [ret].
  destruct (enforceDocumentationRequirement _ _) as [ok fb].
  destruct ok; cbn [negb].
  - destruct (fault env AtGeneration); [reflexivity|]. cbn [ret].
    destruct (fault env AtGrounding); [reflexivity|]. cbn [ret].
    destruct (validateExplanationGrounding _ _); cbn [negb].
    + destruct (fault env AtCitations); [reflexivity|]. cbn [ret].
      destruct (fault env AtScoring); [reflexivity|]. cbn [ret].
      destruct (fault env AtCacheStore); reflexivity.
    + destruct (fault env AtCacheStore); reflexivity.
  - destruct (fault env AtCacheStore); reflexivity.
Qed.

Lemma explainCode_result ctx st1 st2 :
  requestDeduplication st1 = requestDeduplication st2 ->
  (Cache.retrieve (now env) ctx (cacheManager st1)).1
  = (Cache.retrieve (now env) ctx (cacheManager st2)).1 ->
  (explainCode env ctx st1).1 = (explainCode env ctx st2).1.
Proof.
  intros Hreg Hr.
  unfold explainCode, try_catch, bind, checkpoint, gets.
  destruct (is_empty (selectedText ctx)); [reflexivity|].
  destruct (is_empty (trim (selectedText ctx))); [reflexivity|].
  destruct (fault env AtHashing); [reflexivity|]. cbn [ret generateContextHash].
  rewrite Hreg.
  destruct (requestDeduplication st2 !! _) as [[e|r]|]; [reflexivity | reflexivity|].
  pose proof (process_result (sorted_imports ctx) st1 st2 Hr) as Hp.
  pose proof (process_frame env (sorted_imports ctx) st1) as H1.
  pose proof (process_frame env (sorted_imports ctx) st2) as H2.
  apply wp_returns in H1, H2.
  destruct H1 as (r1 & s1 & E1 & _), H2 as (r2 & s2 & E2 & _).
  rewrite E1, E2 in *. simpl in Hp. injection Hp as <-. reflexivity.
Qed.

End WithEnv.

Lemma cleanup_retrieve now ctx m :
  (Cache.retrieve now ctx (Cache.cleanupExpired now m)).1
  = (Cache.retrieve now ctx m).1.
Proof.
  unfold Cache.retrieve.
  rewrite CacheFacts.cleanupExpired_lookup.
  destruct (Cache.cache m !! Cache.generateCacheKey ctx) as [e|]; [|reflexivity].
  destruct (Cache.isValidEntry now e) eqn:Ev; [rewrite Ev|]; reflexivity.
Qed.

(** X10.  [cleanupCache] cannot be observed through [explainCode]: called
    at the same time, with or without the clean-up before it, the call
    returns the same result, whatever the context and whatever fails. *)
Theorem cleanupCache_unobservable (env : Env) (ctx : CodeContext) (st : State) :
  (explainCode env ctx (cleanupCache (now env) st)).1 = (explainCode env ctx st).1.
Proof.
  apply explainCode_result; [reflexivity|].
  unfold cleanupCache. simpl. apply cleanup_retrieve.
Qed.

End WithHost.
End CleanupFacts.

Module ValidateFacts.
Import Engine Logic EngineFacts EngineOps.
Import SpecFloat FloatAxioms.

(** A number differs from itself by nothing that counts: [c - c] is a
    zero or NaN. *)
Lemma sub_diag_small (c : float) :
  Num.gtb (Num.Math_abs (c - c)) 0.001 = false.
Proof.
  unfold Num.gtb, Num.Math_abs. rewrite ltb_spec, abs_spec, sub_spec.
  destruct (Prim2SF c) as [s|s| |s m e]; try (destruct s; reflexivity);
    [reflexivity|].
  unfold SF64sub, SFsub. cbv zeta. rewrite Z.sub_diag. reflexivity.
Qed.

(** An entry the new cache stores at [now] expires: thirty minutes later
    is still a date. *)
Definition expirable (now : Z) : bool :=
  (Z.abs (now + Cache.defaultTTL Cache.new) <=? Cache.maxTime)%Z.

Section WithHost.
Context `{Host}.

Lemma set_cache_set_cache m m' st : set_cache m (set_cache m' st) = set_cache m st.
Proof. reflexivity. Qed.

Lemma set_cache_after_retrieval env m query st :
  set_cache m (after_retrieval env query st) = after_retrieval env query (set_cache m st).
Proof. unfold after_retrieval. destruct (searchSimilar env query 5%float); reflexivity. Qed.

Section Runs.
Variable env : Env.
Variable stringify : list Citation -> jsstring.
Hypothesis no_faults : forall stage, fault env stage = None.

(** The turns after the first one find the answer of the first in the new
    cache. *)
Lemma run_iterations_hits ctx st e n :
  Cache.cache (cacheManager st) !! Cache.generateCacheKey ctx = Some e ->
  Cache.isValidEntry (now env) e = true ->
  run_iterations env n ctx st = (inr (repeat (cached_result e) n), st).
Proof using no_faults.
  intros El Ev. induction n as [|n IH]; [reflexivity|].
  cbn [run_iterations repeat]. unfold bind.
  rewrite (process_hit env no_faults ctx st e (cacheManager st)
             (retrieve_valid _ _ _ _ El Ev)).
  rewrite IH. reflexivity.
Qed.

(** The cache while the iterations run: the default time to live is that
    of a new cache and the entry of the context, if there is one, was
    stored at this clock reading with it. *)
Definition fresh_cache (ctx : CodeContext) (st : State) : Prop :=
  Cache.defaultTTL (cacheManager st) = Cache.defaultTTL Cache.new
  /\ forall e,
       Cache.cache (cacheManager st) !! Cache.generateCacheKey ctx = Some e ->
       timestamp e = now env /\ ttl e = Cache.defaultTTL Cache.new.

Lemma fresh_cache_misses ctx st :
  expirable (now env) = false -> fresh_cache ctx st ->
  exists c,
    Cache.retrieve (now env) ctx (cacheManager st) = (None, c)
    /\ Cache.defaultTTL c = Cache.defaultTTL Cache.new.
Proof.
  intros Hx [Hd He]. unfold Cache.retrieve.
  destruct (Cache.cache (cacheManager st) !! Cache.generateCacheKey ctx) as [e|];
    [|eexists; split; [reflexivity | exact Hd]].
  destruct (He e eq_refl) as [Ht Hl].
  rewrite ValidityFacts.isValidEntry_invalid_date.
  - eexists. split; [reflexivity | exact Hd].
  - rewrite Ht, Hl. unfold expirable in Hx. apply Z.leb_gt in Hx. exact Hx.
Qed.

Lemma after_miss_fresh ctx c st :
  Cache.defaultTTL c = Cache.defaultTTL Cache.new ->
  fresh_cache ctx (after_miss env ctx c st).
Proof.
  intros Hc. split.
  - unfold after_miss. simpl. rewrite after_retrieval_cache. exact Hc.
  - intros e El.
    destruct (after_miss_lookup env ctx c st) as (e' & El' & _ & _ & Ht & Hl).
    rewrite El' in El. injection El as <-. rewrite Hl. auto.
Qed.

(** Beyond the last date no stored entry is ever valid, and every turn
    computes again. *)
Lemma run_iterations_misses ctx n : forall st,
  expirable (now env) = false -> fresh_cache ctx st ->
  exists st',
    run_iterations env n ctx st
    = (inr (repeat (fresh_result (sorted_imports ctx) (docs_of env ctx)) n), st')
    /\ retrievals st' = (n + retrievals st)%nat.
Proof using no_faults.
  induction n as [|n IH]; intros st Hx Hf; [exists st; split; reflexivity|].
  destruct (fresh_cache_misses ctx st Hx Hf) as (c & Hr & Hc).
  cbn [run_iterations repeat]. unfold bind.
  rewrite (process_miss env no_faults ctx st c Hr).
  destruct (IH (after_miss env ctx c st) Hx (after_miss_fresh ctx c st Hc))
    as (st' & -> & Hn).
  exists st'. split; [reflexivity|].
  rewrite Hn, after_miss_retrievals. lia.
Qed.

Lemma differs_cached ctx docs e :
  cached_explanation e = explanation (fresh_result ctx docs) ->
  cached_citations e = citations (fresh_result ctx docs) ->
  differs stringify (fresh_result ctx docs) (cached_result e)
  = Num.gtb (Num.Math_abs (confidence (fresh_result ctx docs) - 1)) 0.001%float.
Proof.
  intros He Hc. unfold differs, cached_result. cbn [explanation citations confidence
    hasRelevantDocs]. rewrite He, Hc, <- fresh_result_flag.
  unfold JS.eqb. rewrite !bool_decide_eq_true_2 by reflexivity.
  rewrite eqb_reflx. cbn [negb orb]. apply orb_false_r.
Qed.

Lemma differs_same r : differs stringify r r = false.
Proof.
  unfold differs, JS.eqb. rewrite !bool_decide_eq_true_2 by reflexivity.
  rewrite eqb_reflx, sub_diag_small. reflexivity.
Qed.

Lemma forallb_repeat {A} (p : A -> bool) x n :
  forallb p (repeat x (S n)) = p x.
Proof.
  induction n as [|n IH]; [simpl; apply andb_true_r|].
  change (forallb p (repeat x (S (S n)))) with (p x && forallb p (repeat x (S n))).
  rewrite IH. apply andb_diag.
Qed.

Lemma validate_run ctx st n :
  expirable (now env) = true ->
  validateDeterministicBehavior env stringify ctx (S n) st
  = (inr match n with
         | O => true
         | S _ =>
             negb (Num.gtb
                     (Num.Math_abs
                        (confidence (fresh_result (sorted_imports ctx) (docs_of env ctx))
                         - 1))
                     0.001%float)
         end,
     after_retrieval env (query_of ctx) st).
Proof using no_faults.
  intros Hx.
  unfold validateDeterministicBehavior, try_finally, bind.
  cbn [run_iterations]. unfold bind.
  set (st0 := set_cache Cache.new st).
  assert (Cache.retrieve (now env) ctx (cacheManager st0) = (None, Cache.new)) as Hr
    by reflexivity.
  rewrite (process_miss env no_faults ctx st0 Cache.new Hr).
  destruct (after_miss_lookup env ctx Cache.new st0) as (e & El & He & Hc & Ht & Hl).
  assert (Cache.isValidEntry (now env) e = true) as Ev.
  { apply ValidityFacts.isValidEntry_iff. rewrite Ht, Hl.
    unfold expirable in Hx. apply Z.leb_le in Hx.
    split; [change (Cache.defaultTTL Cache.new) with 1800000%Z; lia | exact Hx]. }
  rewrite (run_iterations_hits ctx _ e n El Ev). cbn [ret].
  f_equal.
  - f_equal. unfold all_identical. destruct n as [|n]; [reflexivity|].
    rewrite forallb_repeat, (differs_cached _ _ e He Hc). reflexivity.
  - unfold after_miss. rewrite !set_cache_set_cache, set_cache_after_retrieval.
    subst st0. rewrite !set_cache_set_cache, set_cache_id. reflexivity.
Qed.

Lemma validate_run_recomputing ctx st n :
  expirable (now env) = false ->
  exists st',
    validateDeterministicBehavior env stringify ctx n st = (inr true, st')
    /\ cacheManager st' = cacheManager st
    /\ retrievals st' = (n + retrievals st)%nat.
Proof using no_faults.
  intros Hx.
  unfold validateDeterministicBehavior, try_finally, bind.
  destruct (run_iterations_misses ctx n (set_cache Cache.new st) Hx)
    as (st' & -> & Hn).
  { split; [reflexivity|]. intros e El. simpl in El. rewrite lookup_empty in El.
    discriminate. }
  cbn [ret]. exists (set_cache (cacheManager st) st').
  split; [|split; [reflexivity | exact Hn]].
  f_equal. f_equal. unfold all_identical. destruct n as [|n]; [reflexivity|].
  cbn [repeat]. destruct n as [|n]; [reflexivity|].
  rewrite forallb_repeat, differs_same. reflexivity.
Qed.

End Runs.

(** X11.  [validateDeterministicBehavior] runs its requests against a new
    cache and puts the original cache back.  With no iteration or one the
    verdict is true.  With two or more, only the first request computes;
    the others are served from the new cache, with confidence 1: the
    verdict is whether the confidence of the computed answer is within
    0.001 of 1, and it is false for every context whose answer is the
    rejection, whose confidence is 0.  (This is so at every clock reading
    from which thirty minutes on is still a date; at the readings beyond,
    no entry is ever valid, every request computes, and the verdict is
    true.) *)
Theorem validateDeterministicBehavior_verdict (env : Env)
    (stringify : list Citation -> jsstring) (ctx : CodeContext) (st : State) :
  (forall stage, fault env stage = None) ->
  let computed := fresh_result (sorted_imports ctx) (docs_of env ctx) in
  validateDeterministicBehavior env stringify ctx 0 st = (inr true, st)
  /\ (exists st', validateDeterministicBehavior env stringify ctx 1 st = (inr true, st')
                  /\ cacheManager st' = cacheManager st)
  /\ (forall n, exists st',
         validateDeterministicBehavior env stringify ctx (S (S n)) st
         = (inr (if expirable (now env)
                 then negb (Num.gtb (Num.Math_abs (confidence computed - 1)) 0.001%float)
                 else true),
            st')
         /\ cacheManager st' = cacheManager st
         /\ retrievals st'
            = ((if expirable (now env) then 1 else S (S n)) + retrievals st)%nat)
  /\ (rejects (sorted_imports ctx) (docs_of env ctx) = true ->
      forall n, exists st',
        validateDeterministicBehavior env stringify ctx (S (S n)) st
        = (inr (negb (expirable (now env))), st')).
Proof.
  intros Hf computed. split; [|split; [|split]].
  - destruct st. reflexivity.
  - destruct (expirable (now env)) eqn:Hx.
    + eexists. split; [apply (validate_run env stringify Hf ctx st 0 Hx)|].
      apply after_retrieval_cache.
    + destruct (validate_run_recomputing env stringify Hf ctx st 1 Hx)
        as (st' & E & Hc & _).
      exists st'. split; [exact E | exact Hc].
  - intros n. destruct (expirable (now env)) eqn:Hx.
    + eexists. split; [apply (validate_run env stringify Hf ctx st (S n) Hx)|].
      split; [apply after_retrieval_cache | apply after_retrieval_count].
    + exact (validate_run_recomputing env stringify Hf ctx st (S (S n)) Hx).
  - intros Hrej n. destruct (expirable (now env)) eqn:Hx.
    + eexists. rewrite (validate_run env stringify Hf ctx st (S n) Hx).
      rewrite (fresh_result_rejects _ _ Hrej). reflexivity.
    + destruct (validate_run_recomputing env stringify Hf ctx st (S (S n)) Hx)
        as (st' & E & _).
      exists st'. exact E.
Qed.

End WithHost.

(** X11 on a request that an empty store makes a rejection: three
    iterations give the verdict false. *)
Lemma validateDeterministicBehavior_verdict_witness :
  exists st',
    validateDeterministicBehavior (H := TestHost.host) (Examples.env_empty 0)
      (fun _ => []) Examples.ctx_sum 3 Engine.new = (inr false, st').
Proof.
  destruct (validateDeterministicBehavior_verdict (H := TestHost.host)
              (Examples.env_empty 0) (fun _ => []) Examples.ctx_sum Engine.new)
    as (_ & _ & _ & Hrej); [reflexivity|].
  apply (Hrej ltac:(vm_compute; reflexivity) 1%nat).
Defined.

End ValidateFacts.

(** *** Where an answer comes from *)

Module GroundingFacts.
Import Engine Logic EngineFacts EngineOps.

Section WithHost.
Context `{Host}.

Definition names (cit : Citation) (d : DocumentationChunk) : Prop :=
  cit_filePath cit = filePath d /\ cit_sectionHeading cit = sectionHeading d.

Lemma citations_from_names docs : forall i cit,
  In cit (citations_from i docs) -> exists d, In d docs /\ names cit d.
Proof.
  induction docs as [|d docs IH]; intros i cit; simpl; [tauto|].
  intros [<- | Hin].
  - exists d. split; [now left | split; reflexivity].
  - destruct (IH _ _ Hin) as (d' & Hd & Hn). exists d'. split; [now right | exact Hn].
Qed.

Lemma extractCitations_names docs cit :
  In cit (extractCitationsWithConsistentOrdering docs) ->
  exists d, In d docs /\ names cit d.
Proof.
  unfold extractCitationsWithConsistentOrdering. intros Hin.
  apply (Permutation_in cit (StoreFacts.sort_perm compareCitations _)) in Hin.
  exact (citations_from_names docs 0 cit Hin).
Qed.

Lemma extractCitations_length docs :
  length (extractCitationsWithConsistentOrdering docs) = length docs.
Proof.
  unfold extractCitationsWithConsistentOrdering.
  rewrite (Permutation_length (StoreFacts.sort_perm compareCitations _)).
  apply citations_from_length.
Qed.

(** The text that closes an explanation. *)
Definition source_of (d : DocumentationChunk) : jsstring :=
  str " (Source: " ++ filePath d ++ str " - " ++ sectionHeading d ++ str ")".

Lemma generated_source ctx docs :
  docs <> [] ->
  exists d body,
    In d docs
    /\ generateDeterministicExplanation ctx docs
       = introduction ctx ++ body ++ source_of d.
Proof.
  intros Hd. unfold generateDeterministicExplanation.
  destruct docs as [|d0 docs]; [congruence|]. cbn [is_empty_list].
  pose proof (SortFacts.sort_nonempty compareDocs (d0 :: docs) Hd) as Hs.
  pose proof (StoreFacts.sort_perm compareDocs (d0 :: docs)) as Hp.
  destruct (Sort.sort compareDocs (d0 :: docs)) as [|primary rest]; [congruence|].
  exists primary. unfold generateImprovedExplanation. eexists. split.
  - apply (Permutation_in primary Hp). now left.
  - unfold source_of. reflexivity.
Qed.

Lemma retrieved_in env query d :
  In d (retrieved env query) ->
  exists chunks, searchSimilar env query 5%float = inr chunks /\ In d chunks.
Proof.
  unfold retrieved. destruct (searchSimilar env query 5%float) as [e|chunks]; [intros []|].
  intros Hin. exists chunks. split; [reflexivity|].
  exact (Permutation_in d (StoreFacts.sort_perm compareDocs chunks) Hin).
Qed.

Lemma retrieved_length env query chunks :
  searchSimilar env query 5%float = inr chunks ->
  length (retrieved env query) = length chunks.
Proof.
  intros E. unfold retrieved. rewrite E.
  apply Permutation_length, StoreFacts.sort_perm.
Qed.

(** X12.  An answer that [explainCode] computes is grounded in what the
    vector store returned for the query of the context: every citation
    carries the file path and the section heading of a returned chunk;
    and when there are citations, there is one for each returned chunk
    and the explanation ends with the source line of a returned
    chunk. *)
Theorem explainCode_citations_grounded (env : Env) (ctx : CodeContext)
    (st : State) (c : Cache.Manager) :
  (forall stage, fault env stage = None) ->
  is_empty (trim (selectedText ctx)) = false ->
  requestDeduplication st !! (generateContextHash ctx).1 = None ->
  Cache.retrieve (now env) ctx (cacheManager st) = (None, c) ->
  let query := buildQueryFromContext (sorted_imports ctx) in
  exists r st',
    explainCode env ctx st = (inr r, st')
    /\ (forall cit, In cit (citations r) ->
          exists chunks d,
            searchSimilar env query 5%float = inr chunks /\ In d chunks /\ names cit d)
    /\ (citations r <> [] ->
        exists chunks d body,
          searchSimilar env query 5%float = inr chunks
          /\ In d chunks
          /\ length (citations r) = length chunks
          /\ explanation r = introduction (sorted_imports ctx) ++ body ++ source_of d).
Proof.
  intros Hf Hb Hreg Hr query.
  eexists. eexists. split; [exact (explainCode_miss env Hf ctx st c Hb Hreg Hr)|].
  unfold fresh_result, docs_of, query_of. fold query.
  destruct ((enforceDocumentationRequirement (sorted_imports ctx)
               (retrieved env query)).1) eqn:Ee;
    cbn [negb]; [|split; [intros cit [] | intros Hc; destruct (Hc eq_refl)]].
  destruct (validateExplanationGrounding _ (retrieved env query));
    cbn [negb]; [|split; [intros cit [] | intros Hc; destruct (Hc eq_refl)]].
  cbn [citations explanation].
  pose proof (enforce_true_nonempty _ _ Ee) as Hne.
  split.
  - intros cit Hin. destruct (extractCitations_names _ _ Hin) as (d & Hd & Hn).
    destruct (retrieved_in env query d Hd) as (chunks & E & Hin').
    exists chunks, d. auto.
  - intros _. destruct (generated_source (sorted_imports ctx) _ Hne) as (d & body & Hd & E).
    destruct (retrieved_in env query d Hd) as (chunks & Es & Hin').
    exists chunks, d, body. split; [exact Es|]. split; [exact Hin'|].
    split; [|exact E].
    rewrite extractCitations_length. apply retrieved_length. exact Es.
Qed.

(** *** When documentation is enough *)

Definition relevant (ctx : CodeContext) (d : DocumentationChunk) : bool :=
  Num.geb (calculateRelevanceScore ctx d) 0.1%float.

Definition substantial (ctx : CodeContext) (d : DocumentationChunk) : bool :=
  relevant ctx d && (20 <=? length (trim (content d)))%nat.

Definition placeholder (d : DocumentationChunk) : bool :=
  existsb (fun phrase => includes (toLowerCase (content d)) phrase) genericPhrases.

Lemma filter_filter_and {A} (p q : A -> bool) l :
  List.filter q (List.filter p l) = List.filter (fun x => p x && q x) l.
Proof.
  induction l as [|x l IH]; simpl; [reflexivity|].
  destruct (p x); simpl; [destruct (q x); [f_equal|]|]; exact IH.
Qed.

Lemma enforce_unfold ctx docs :
  enforceDocumentationRequirement ctx docs
  = match List.filter (substantial ctx) docs with
    | [] => (false, notDocumented)
    | [d] => if placeholder d then (false, notDocumented) else (true, [])
    | _ => (true, [])
    end.
Proof.
  unfold enforceDocumentationRequirement.
  destruct docs as [|d0 docs]; [reflexivity|]. cbn [is_empty_list].
  fold (relevant ctx). rewrite filter_filter_and. fold (substantial ctx).
  destruct (List.filter (relevant ctx) (d0 :: docs)) as [|r0 rs] eqn:Er.
  - cbn [is_empty_list].
    assert (List.filter (substantial ctx) (d0 :: docs) = []) as ->; [|reflexivity].
    unfold substantial. rewrite <- filter_filter_and, Er. reflexivity.
  - cbn [is_empty_list].
    destruct (List.filter (substantial ctx) (d0 :: docs)) as [|s0 ss]; [reflexivity|].
    cbn [is_empty_list existsb length]. fold (placeholder s0).
    destruct ss as [|s1 ss]; cbn [Nat.eqb existsb].
    + rewrite orb_false_r, andb_true_r. destruct (placeholder s0); reflexivity.
    + rewrite andb_false_r. reflexivity.
Qed.

(** X13.  [enforceDocumentationRequirement] accepts the documents exactly
    when, among those that score at least 0.1 against the context and
    whose trimmed content has 20 characters or more, there are two or
    more, or there is one and it holds no placeholder phrase.  So
    documents that are all short are rejected, a lone "TODO" section is
    rejected, and two of them are accepted.  A rejection answers "Not
    documented.", an acceptance the empty string. *)
Theorem enforceDocumentationRequirement_cases (ctx : CodeContext)
    (docs : list DocumentationChunk) :
  let kept := List.filter (substantial ctx) docs in
  ((enforceDocumentationRequirement ctx docs).1 = true
   <-> (2 <= length kept)%nat \/ exists d, kept = [d] /\ placeholder d = false)
  /\ ((enforceDocumentationRequirement ctx docs).1 = true ->
      (enforceDocumentationRequirement ctx docs).2 = []
      /\ exists d, In d docs /\ relevant ctx d = true
                   /\ (20 <= length (trim (content d)))%nat)
  /\ ((enforceDocumentationRequirement ctx docs).1 = false ->
      (enforceDocumentationRequirement ctx docs).2 = notDocumented)
  /\ (Forall (fun d => (length (trim (content d)) < 20)%nat) docs ->
      (enforceDocumentationRequirement ctx docs).1 = false).
Proof.
  intros kept. rewrite enforce_unfold. fold kept.
  assert (forall d, In d kept ->
            In d docs /\ relevant ctx d = true
            /\ (20 <= length (trim (content d)))%nat) as Hk.
  { intros d Hd. apply filter_In in Hd. destruct Hd as [Hd Hs].
    unfold substantial in Hs. apply andb_prop in Hs. destruct Hs as [Hr Hl].
    apply Nat.leb_le in Hl. auto. }
  split; [|split; [|split]].
  - destruct kept as [|d [|d' rest]]; simpl.
    + split; [discriminate | intros [Hl | (d & Hd & _)]; [lia | discriminate]].
    + destruct (placeholder d) eqn:Ep; simpl.
      * split; [discriminate | intros [Hl | (d' & [= <-] & Hp)]; [lia | congruence]].
      * split; [intros _; right; eauto | reflexivity].
    + split; [intros _; left; lia | reflexivity].
  - destruct kept as [|d [|d' rest]]; simpl.
    + discriminate.
    + destruct (placeholder d); [discriminate|]. intros _.
      split; [reflexivity|]. exists d. apply Hk. now left.
    + intros _. split; [reflexivity|]. exists d. apply Hk. now left.
  - destruct kept as [|d [|d' rest]]; simpl; try reflexivity; try discriminate.
    destruct (placeholder d); [reflexivity | discriminate].
  - intros Hshort. destruct kept as [|d rest] eqn:E; [reflexivity|].
    destruct (Hk d (or_introl eq_refl)) as (Hd & _ & Hl).
    rewrite List.Forall_forall in Hshort. specialize (Hshort d Hd). lia.
Qed.

(** *** What a computed answer does not read *)

Lemma calculateRelevanceScore_reads c1 c2 d :
  selectedText c1 = selectedText c2 -> functionName c1 = functionName c2 ->
  className c1 = className c2 -> imports c1 = imports c2 ->
  calculateRelevanceScore c1 d = calculateRelevanceScore c2 d.
Proof. unfold calculateRelevanceScore. intros -> -> -> ->. reflexivity. Qed.

Lemma fresh_result_reads c1 c2 docs :
  selectedText c1 = selectedText c2 -> functionName c1 = functionName c2 ->
  className c1 = className c2 -> imports c1 = imports c2 ->
  fresh_result c1 docs = fresh_result c2 docs.
Proof.
  intros Hs Hf Hc Hi.
  assert (enforceDocumentationRequirement c1 docs
          = enforceDocumentationRequirement c2 docs) as He.
  { rewrite !enforce_unfold.
    assert (List.filter (substantial c1) docs = List.filter (substantial c2) docs) as ->;
      [|reflexivity].
    apply filter_ext. intros d. unfold substantial, relevant.
    rewrite (calculateRelevanceScore_reads c1 c2 d Hs Hf Hc Hi). reflexivity. }
  assert (generateDeterministicExplanation c1 docs
          = generateDeterministicExplanation c2 docs) as Hg.
  { unfold generateDeterministicExplanation, generateImprovedExplanation, introduction.
    rewrite Hs, Hf, Hc. reflexivity. }
  unfold fresh_result. rewrite He, Hg. reflexivity.
Qed.

(** X14.  What [explainCode] computes on a miss reads the selected text,
    the names of the function and the class and the imports (as a
    multiset) of the context and nothing else: two contexts that agree on
    these get the same answer, whatever their file names, languages and
    surrounding code, and whatever the two states. *)
Theorem computed_answer_reads (env : Env) (c1 c2 : CodeContext)
    (st1 st2 : State) (m1 m2 : Cache.Manager) :
  (forall stage, fault env stage = None) ->
  selectedText c1 = selectedText c2 ->
  functionName c1 = functionName c2 ->
  className c1 = className c2 ->
  imports c1 ≡ₚ imports c2 ->
  is_empty (trim (selectedText c1)) = false ->
  requestDeduplication st1 !! (generateContextHash c1).1 = None ->
  requestDeduplication st2 !! (generateContextHash c2).1 = None ->
  Cache.retrieve (now env) c1 (cacheManager st1) = (None, m1) ->
  Cache.retrieve (now env) c2 (cacheManager st2) = (None, m2) ->
  (explainCode env c1 st1).1 = (explainCode env c2 st2).1.
Proof.
  intros Hf Hs Hn Hc Hi Hb Hr1 Hr2 Hm1 Hm2.
  assert (is_empty (trim (selectedText c2)) = false) as Hb2 by (rewrite <- Hs; exact Hb).
  rewrite (explainCode_miss env Hf c1 st1 m1 Hb Hr1 Hm1).
  rewrite (explainCode_miss env Hf c2 st2 m2 Hb2 Hr2 Hm2).
  cbn [fst]. f_equal.
  assert (imports (sorted_imports c1) = imports (sorted_imports c2)) as Hsi
    by (apply SortFacts.sort_default_permutation; exact Hi).
  assert (docs_of env c1 = docs_of env c2) as ->.
  { unfold docs_of, query_of, buildQueryFromContext. rewrite Hsi.
    cbn [functionName className selectedText sorted_imports].
    rewrite Hs, Hn, Hc. reflexivity. }
  apply fresh_result_reads; assumption.
Qed.

End WithHost.

(** X12 on a first request against a store that holds one section: the
    answer has a citation, and it names a chunk the store returned. *)
Lemma explainCode_citations_grounded_witness :
  exists r st',
    explainCode (H := TestHost.host) (Examples.env_sum 0) Examples.ctx_sum Engine.new
    = (inr r, st')
    /\ citations r <> []
    /\ forall cit, In cit (citations r) ->
         exists chunks d,
           searchSimilar (Examples.env_sum 0)
             (buildQueryFromContext (H := TestHost.host)
                (sorted_imports Examples.ctx_sum))
             5%float = inr chunks
           /\ In d chunks /\ names cit d.
Proof.
  assert (exists r0 st0,
             explainCode (H := TestHost.host) (Examples.env_sum 0) Examples.ctx_sum
               Engine.new = (inr r0, st0)
             /\ length (citations r0) = 1%nat)
    as (r0 & st0 & Hrun0 & Hlen)
    by (eexists; eexists; split; [vm_compute; reflexivity | vm_compute; reflexivity]).
  destruct (explainCode_citations_grounded (H := TestHost.host) (Examples.env_sum 0)
              Examples.ctx_sum Engine.new Cache.new)
    as (r & st' & Hrun & Hcit & _);
    [reflexivity | vm_compute; reflexivity | reflexivity | reflexivity|].
  exists r, st'. split; [exact Hrun|]. split; [|exact Hcit].
  rewrite Hrun0 in Hrun. injection Hrun as <- _.
  destruct (citations r0); [discriminate Hlen | discriminate].
Defined.

(** X14 on a selection and the same selection with other lines around
    it. *)
Lemma computed_answer_reads_witness :
  (explainCode (H := TestHost.host) (Examples.env_sum 0) Examples.ctx_sum Engine.new).1
  = (explainCode (H := TestHost.host) (Examples.env_sum 0) Examples.ctx_sum_moved
       Engine.new).1.
Proof.
  apply (computed_answer_reads (H := TestHost.host) (Examples.env_sum 0)
           Examples.ctx_sum Examples.ctx_sum_moved Engine.new Engine.new
           Cache.new Cache.new);
    try reflexivity; vm_compute; reflexivity.
Defined.

End GroundingFacts.

(** ** More on strings *)

Module TrimFacts.

Lemma drop_while_app_last p l c :
  p c = false -> drop_while p (l ++ [c]) = drop_while p l ++ [c].
Proof.
  intros Hc. induction l as [|x l IH]; simpl; [rewrite Hc; reflexivity|].
  destruct (p x); [exact IH | reflexivity].
Qed.

Lemma drop_while_head p l :
  drop_while p l = [] \/ exists c l', drop_while p l = c :: l' /\ p c = false.
Proof.
  induction l as [|x l IH]; simpl; [now left|].
  destruct (p x) eqn:E; [exact IH | right; eauto].
Qed.

Lemma drop_while_fixed p c l : p c = false -> drop_while p (c :: l) = c :: l.
Proof. intros Hc. simpl. rewrite Hc. reflexivity. Qed.

Lemma drop_while_idem p l : drop_while p (drop_while p l) = drop_while p l.
Proof.
  destruct (drop_while_head p l) as [-> | (c & l' & -> & Hc)]; [reflexivity|].
  apply drop_while_fixed. exact Hc.
Qed.

Lemma trimEnd_snoc l x :
  trimEnd (l ++ [x]) = if is_ws x then trimEnd l else l ++ [x].
Proof.
  unfold trimEnd. rewrite rev_unit. simpl.
  destruct (is_ws x); [reflexivity|].
  rewrite <- (rev_unit l x), rev_involutive. reflexivity.
Qed.

(** The end of a string that starts with a character that stays is
    trimmed without touching its start. *)
Lemma trimEnd_head c l :
  is_ws c = false -> exists l', trimEnd (c :: l) = c :: l'.
Proof.
  intros Hc. induction l as [|x l IH] using rev_ind.
  - unfold trimEnd. simpl. rewrite Hc. eexists. reflexivity.
  - change (c :: l ++ [x]) with ((c :: l) ++ [x]). rewrite trimEnd_snoc.
    destruct (is_ws x); [exact IH | eexists; reflexivity].
Qed.

Lemma trimEnd_idem s : trimEnd (trimEnd s) = trimEnd s.
Proof. unfold trimEnd. rewrite rev_involutive, drop_while_idem. reflexivity. Qed.

(** [trim] leaves nothing to trim. *)
Lemma trim_idem s : trim (trim s) = trim s.
Proof.
  unfold trim at 2 3.
  destruct (drop_while_head is_ws s) as [E | (c & l & E & Hc)];
    unfold trimStart; rewrite E; [reflexivity|].
  destruct (trimEnd_head c l Hc) as [l' E'].
  unfold trim, trimStart. rewrite E', (drop_while_fixed _ _ _ Hc), <- E'.
  apply trimEnd_idem.
Qed.

Lemma trim_nil_iff s : trim s = [] <-> forallb is_ws s = true.
Proof.
  unfold trim, trimStart. split.
  - intros Ht. induction s as [|x s IH]; [reflexivity|]. simpl in *.
    destruct (is_ws x) eqn:Ex; [apply IH; exact Ht|].
    destruct (trimEnd_head x s Ex) as [l' E']. congruence.
  - intros Hw. induction s as [|x s IH]; [reflexivity|]. simpl in *.
    apply andb_prop in Hw. destruct Hw as [-> Hw]. apply IH. exact Hw.
Qed.

Lemma drop_while_blank s t :
  forallb is_ws s = true -> drop_while is_ws (s ++ t) = drop_while is_ws t.
Proof.
  induction s as [|x s IH]; simpl; [reflexivity|]. intros Hw.
  apply andb_prop in Hw. destruct Hw as [-> Hw]. apply IH. exact Hw.
Qed.

Lemma split_char_nonnil sep s : split_char sep s <> [].
Proof.
  induction s as [|c s IH]; simpl; [discriminate|].
  destruct (c =? sep)%N; [discriminate|].
  destruct (split_char sep s); [congruence | discriminate].
Qed.

(** Joining what [split] gives with the separator gives the string back. *)
Lemma join_split_char sep s : join [sep] (split_char sep s) = s.
Proof.
  induction s as [|c s IH]; [reflexivity|]. simpl.
  pose proof (split_char_nonnil sep s) as Hne.
  destruct (c =? sep)%N eqn:E.
  - apply N.eqb_eq in E. subst c.
    destruct (split_char sep s) as [|w ws]; [congruence|].
    change (join [sep] ([] :: w :: ws)) with ([] ++ [sep] ++ join [sep] (w :: ws)).
    rewrite IH. reflexivity.
  - destruct (split_char sep s) as [|w ws]; [congruence|].
    destruct ws as [|w' ws]; simpl in *; rewrite <- IH; reflexivity.
Qed.

Lemma join_cons sep w ws :
  ws <> [] -> join sep (w :: ws) = w ++ sep ++ join sep ws.
Proof. destruct ws; [congruence | reflexivity]. Qed.

Lemma join_app_one sep l w :
  l <> [] -> join sep (l ++ [w]) = join sep l ++ sep ++ w.
Proof.
  induction l as [|x l IH]; [congruence|]. intros _.
  destruct l as [|y l]; [reflexivity|].
  change ((x :: y :: l) ++ [w]) with (x :: ((y :: l) ++ [w])).
  rewrite join_cons by (destruct l; discriminate).
  rewrite IH by discriminate.
  rewrite (join_cons sep x (y :: l)) by discriminate.
  rewrite <- !app_assoc. reflexivity.
Qed.

End TrimFacts.

(** ** More on the chunker *)

Module IndexerIdFacts.
Import Indexer IndexerFacts TrimFacts.

(** The characters of an id: lower-case letters, digits and the dash. *)
Definition id_char (c : N) : bool := is_id_char c || is_dash c.

Definition id_wf (s : jsstring) : Prop := s <> [] /\ forallb id_char s = true.

Lemma replace_class_id s :
  forallb id_char (replace_class (fun c => negb (is_id_char c)) [dash] s) = true.
Proof.
  unfold replace_class. induction s as [|c s IH]; [reflexivity|].
  cbn [flat_map]. rewrite forallb_app, IH, andb_true_r.
  unfold id_char. destruct (is_id_char c) eqn:E; simpl; [rewrite E|]; reflexivity.
Qed.

Lemma collapse_dashes_id s : forall in_run,
  forallb id_char s = true -> forallb id_char (collapse_dashes_from in_run s) = true.
Proof.
  induction s as [|c s IH]; intros in_run; [reflexivity|]. simpl.
  intros Hs. apply andb_prop in Hs. destruct Hs as [Hc Hs].
  destruct (is_dash c); [destruct in_run|]; simpl; rewrite ?IH by exact Hs;
    try reflexivity; rewrite ?Hc; reflexivity.
Qed.

Lemma drop_while_forallb (p q : N -> bool) s :
  forallb q s = true -> forallb q (drop_while p s) = true.
Proof.
  induction s as [|c s IH]; [reflexivity|]. simpl. intros Hs.
  destruct (p c); [|exact Hs]. apply andb_prop in Hs. apply IH, Hs.
Qed.

Lemma forallb_rev {A} (q : A -> bool) s : forallb q (rev s) = forallb q s.
Proof.
  induction s as [|c s IH]; [reflexivity|]. simpl.
  rewrite forallb_app, IH. simpl. rewrite andb_true_r. apply andb_comm.
Qed.

Lemma strip_dashes_id s :
  forallb id_char s = true -> forallb id_char (strip_dashes s) = true.
Proof.
  intros Hs. unfold strip_dashes. rewrite forallb_rev.
  apply drop_while_forallb. rewrite forallb_rev.
  apply drop_while_forallb. exact Hs.
Qed.

Lemma uint_digits d :
  forallb is_digit (str (NilEmpty.string_of_uint d)) = true.
Proof. induction d; simpl; try exact IHd; reflexivity. Qed.

Lemma decimal_id n : forallb id_char (decimal n) = true.
Proof.
  unfold decimal. pose proof (uint_digits (Nat.to_uint n)) as Hd.
  rewrite forallb_forall in *. intros c Hc. specialize (Hd c Hc).
  unfold id_char, is_id_char. rewrite Hd, orb_true_r. reflexivity.
Qed.

Lemma unique_loop_shape cleanId used fuel : forall uniqueId counter,
  unique_loop fuel cleanId used uniqueId counter = uniqueId
  \/ exists k, unique_loop fuel cleanId used uniqueId counter
               = cleanId ++ [dash] ++ decimal k.
Proof.
  induction fuel as [|fuel IH]; intros uniqueId counter; cbn [unique_loop]; [now left|].
  destruct (bool_decide (uniqueId ∈ used)); [|now left].
  destruct (IH (cleanId ++ [dash] ++ decimal counter) (S counter)) as [-> | Hk];
    right; [eauto | exact Hk].
Qed.

Section WithHost.
Context `{Host}.
Variable clock : nat -> Z.
Variable file : jsstring.

(** An id is never empty and holds lower-case letters, digits and dashes
    only, whatever the host's [toLowerCase] does to the other
    characters. *)
Lemma generateUniqueChunkId_wf relativePath heading used :
  id_wf (fst (generateUniqueChunkId relativePath heading used)).
Proof.
  unfold generateUniqueChunkId. cbn [fst].
  set (base := replace_class _ _ _).
  set (cleanId := if is_empty (strip_dashes (collapse_dashes base))
                  then str "unnamed-section"
                  else strip_dashes (collapse_dashes base)).
  assert (id_wf cleanId) as [Hne Hch].
  { subst cleanId. destruct (strip_dashes (collapse_dashes base)) as [|c s] eqn:E.
    - split; [discriminate | reflexivity].
    - split; [discriminate|]. cbn [is_empty]. rewrite <- E.
      apply strip_dashes_id, collapse_dashes_id. apply replace_class_id. }
  destruct (unique_loop_shape cleanId used (S (length used)) cleanId 1) as [-> | [k ->]].
  - split; assumption.
  - split; [destruct cleanId; [congruence | discriminate]|].
    rewrite !forallb_app, Hch, decimal_id. reflexivity.
Qed.

(** The loop state: the ids in use are those of the chunks pushed, each
    once and well-formed; headings and contents are trimmed. *)
Definition trimmed (s : jsstring) : Prop := trim s = s.

Definition chunk_tidy (c : DocumentationChunk) : Prop :=
  id_wf (id c) /\ trimmed (sectionHeading c) /\ trimmed (content c)
  /\ filePath c = path_relative file
  /\ embedding c = None.

Definition state_tidy (st : State) : Prop :=
  usedIds st = map id (chunks st)
  /\ NoDup (usedIds st)
  /\ Forall chunk_tidy (chunks st)
  /\ forall c, current st = Some c -> trimmed (cur_heading c).

Lemma push_chunk_tidy c text st :
  state_tidy st -> trimmed (cur_heading c) -> trimmed text ->
  state_tidy (push_chunk clock file c text st).
Proof.
  intros (Hu & Hn & Hf & Hc) Hh Ht. unfold push_chunk, createDocumentationChunk.
  pose proof (generateUniqueChunkId_fresh (path_relative file) (cur_heading c)
                (usedIds st)) as [Hfresh Hused].
  pose proof (generateUniqueChunkId_wf (path_relative file) (cur_heading c)
                (usedIds st)) as Hwf.
  destruct (generateUniqueChunkId _ _ _) as [newId used']. cbn [fst snd] in *.
  subst used'. unfold state_tidy. cbn [chunks usedIds current].
  split; [rewrite map_app, Hu; reflexivity|].
  split.
  { apply NoDup_app. split; [exact Hn|]. split; [|apply NoDup_singleton].
    intros x Hx Hin. apply list_elem_of_singleton in Hin. subst x.
    apply Hfresh. exact Hx. }
  split; [|exact Hc]. apply Forall_app. split; [exact Hf|].
  constructor; [|constructor]. repeat split; try assumption; apply Hwf.
Qed.

Lemma save_previous_tidy st :
  state_tidy st -> state_tidy (save_previous clock file st).
Proof.
  intros Hst. unfold save_previous.
  destruct (current st) as [c|] eqn:Ec; [|exact Hst].
  destruct (_ || _); [|exact Hst].
  apply push_chunk_tidy; [exact Hst | apply Hst; exact Ec | apply trim_idem].
Qed.

Lemma set_current_tidy c st :
  state_tidy st -> trimmed (cur_heading c) -> state_tidy (set_current (Some c) st).
Proof.
  intros (Hu & Hn & Hf & _) Hc. repeat split; try assumption.
  simpl. intros c' [= <-]. exact Hc.
Qed.

Lemma step_tidy st i line : state_tidy st -> state_tidy (step clock file st i line).
Proof.
  intros Hst. unfold step.
  destruct (header_match line) as [[hashes text]|].
  - pose proof (save_previous_tidy st Hst) as Hst1.
    destruct (is_empty (trim text)); [exact Hst1|].
    apply set_current_tidy; [exact Hst1 | apply trim_idem].
  - destruct (current st) as [c|] eqn:Ec.
    + apply set_current_tidy; [exact Hst|].
      destruct Hst as (_ & _ & _ & Hc). exact (Hc c Ec).
    + destruct (nonempty (trim line)); [|exact Hst].
      apply set_current_tidy; [exact Hst | reflexivity].
Qed.

Lemma run_tidy lines : forall st i,
  state_tidy st -> state_tidy (run clock file st i lines).
Proof.
  induction lines as [|line rest IH]; intros st i Hst; simpl; [exact Hst|].
  apply IH, step_tidy, Hst.
Qed.

Lemma save_final_tidy st : state_tidy st -> state_tidy (save_final clock file st).
Proof.
  intros Hst. unfold save_final.
  destruct (current st) as [c|] eqn:Ec; [|exact Hst].
  apply push_chunk_tidy; [exact Hst | apply Hst; exact Ec | apply trim_idem].
Qed.

Lemma initial_tidy : state_tidy initial.
Proof. repeat split; try constructor. discriminate. Qed.

Lemma NoDup_map_filter {A B} (f : A -> B) (p : A -> bool) l :
  NoDup (map f l) -> NoDup (map f (List.filter p l)).
Proof.
  induction l as [|x l IH]; simpl; [auto|].
  rewrite NoDup_cons. intros [Hx Hl].
  destruct (p x); [|apply IH; exact Hl]. simpl.
  apply NoDup_cons. split; [|apply IH; exact Hl].
  intros Hin. apply Hx. apply list_elem_of_In in Hin. apply list_elem_of_In.
  apply in_map_iff in Hin. destruct Hin as (y & <- & Hy).
  apply filter_In in Hy. apply in_map. apply Hy.
Qed.

Lemma splitByHeaders_tidy markdown :
  NoDup (map id (splitByHeaders clock markdown file))
  /\ Forall chunk_tidy (splitByHeaders clock markdown file).
Proof.
  unfold splitByHeaders.
  destruct (is_empty markdown); [split; constructor|].
  set (st := save_final clock file (run clock file initial 0 (split_char 10 markdown))).
  assert (state_tidy st) as (Hu & Hn & Hf & _)
    by (apply save_final_tidy, run_tidy, initial_tidy).
  split.
  - apply NoDup_map_filter. rewrite <- Hu. exact Hn.
  - apply List.Forall_forall. intros c Hc. apply filter_In in Hc.
    rewrite List.Forall_forall in Hf. apply Hf, Hc.
Qed.

End WithHost.

(** X15.  The ids of the chunks of a document are pairwise different, and
    each is a non-empty string of lower-case ASCII letters, digits and
    dashes, whatever characters the path and the headings hold. *)
Theorem splitByHeaders_ids `{Host} (clock : nat -> Z) (markdown file : jsstring) :
  NoDup (map id (splitByHeaders clock markdown file))
  /\ Forall (fun c => id c <> [] /\ forallb id_char (id c) = true)
            (splitByHeaders clock markdown file).
Proof.
  destruct (splitByHeaders_tidy clock file markdown) as [Hn Hf].
  split; [exact Hn|].
  apply List.Forall_forall. intros c Hc. rewrite List.Forall_forall in Hf.
  destruct (Hf c Hc) as (Hwf & _). exact Hwf.
Qed.

(** X16.  Every chunk of a document has its heading and its content
    trimmed (neither starts or ends with white space), carries the path of
    the file relative to the workspace, and has no embedding yet. *)
Theorem splitByHeaders_trimmed `{Host} (clock : nat -> Z) (markdown file : jsstring) :
  Forall (fun c =>
            trim (sectionHeading c) = sectionHeading c
            /\ trim (content c) = content c
            /\ filePath c = path_relative file
            /\ embedding c = None)
         (splitByHeaders clock markdown file).
Proof.
  destruct (splitByHeaders_tidy clock file markdown) as [_ Hf].
  apply List.Forall_forall. intros c Hc. rewrite List.Forall_forall in Hf.
  destruct (Hf c Hc) as (_ & Hh & Hc' & Hp & He). auto.
Qed.

End IndexerIdFacts.

Module IndexerPlainFacts.
Import Indexer IndexerFacts TrimFacts.

(** The lines of a document from its first line that is not blank. *)
Fixpoint skip_blank (lines : list jsstring) : list jsstring :=
  match lines with
  | [] => []
  | line :: rest => if nonempty (trim line) then lines else skip_blank rest
  end.

Lemma blank_ws line : nonempty (trim line) = false -> forallb is_ws line = true.
Proof.
  intros Hb. apply trim_nil_iff. unfold nonempty in Hb.
  destruct (trim line); [reflexivity | discriminate].
Qed.

Lemma trimStart_skip_blank lines :
  trimStart (join newline lines) = trimStart (join newline (skip_blank lines)).
Proof.
  induction lines as [|b ls IH]; [reflexivity|]. cbn [skip_blank].
  destruct (nonempty (trim b)) eqn:Eb; [reflexivity|].
  pose proof (blank_ws b Eb) as Hw. rewrite <- IH. unfold trimStart.
  destruct ls as [|l ls].
  - simpl. rewrite <- (app_nil_r b). apply drop_while_blank. exact Hw.
  - rewrite join_cons by discriminate.
    rewrite (drop_while_blank b _ Hw). reflexivity.
Qed.

Lemma skip_blank_nonblank lines l rest :
  skip_blank lines = l :: rest -> trim (join newline (l :: rest)) <> [].
Proof.
  intros Hs Ht.
  assert (nonempty (trim l) = true) as Hl.
  { clear Ht. induction lines as [|b ls IH]; [discriminate|]. cbn [skip_blank] in Hs.
    destruct (nonempty (trim b)) eqn:Eb; [injection Hs as -> _; exact Eb | auto]. }
  apply trim_nil_iff in Ht.
  assert (forallb is_ws l = true) as Hw.
  { destruct rest; [exact Ht|]. rewrite join_cons in Ht by discriminate.
    rewrite forallb_app in Ht. apply andb_prop in Ht. apply Ht. }
  apply trim_nil_iff in Hw. rewrite Hw in Hl. discriminate.
Qed.

Definition noheader (line : jsstring) : Prop := header_match line = None.

Lemma heading_lines_none markdown :
  heading_lines markdown = 0%nat -> Forall noheader (split_char 10 markdown).
Proof.
  unfold heading_lines. generalize (split_char 10 markdown). intros lines.
  induction lines as [|l ls IH]; simpl; [constructor|].
  destruct (header_match l) eqn:E.
  - rewrite bool_decide_true by eauto. discriminate.
  - rewrite bool_decide_false by (intros [? ?]; discriminate).
    intros Hz. constructor; [exact E | apply IH; exact Hz].
Qed.

Section WithHost.
Context `{Host}.
Variable clock : nat -> Z.
Variable file : jsstring.

Lemma set_current_eta st : set_current (current st) st = st.
Proof. destruct st; reflexivity. Qed.

Lemma run_open lines : forall st i c,
  Forall noheader lines -> current st = Some c ->
  run clock file st i lines
  = set_current (Some {| cur_heading := cur_heading c; cur_level := cur_level c;
                         cur_content := cur_content c ++ lines;
                         cur_startLine := cur_startLine c |}) st.
Proof.
  induction lines as [|l ls IH]; intros st i c Hn Hc.
  - simpl. rewrite app_nil_r. destruct c. simpl. rewrite <- Hc. symmetry.
    apply set_current_eta.
  - inversion Hn as [|? ? Hl Hls]; subst. cbn [run]. unfold step at 1.
    rewrite Hl, Hc. erewrite IH; [|exact Hls | reflexivity].
    cbn [cur_heading cur_level cur_content cur_startLine].
    rewrite <- app_assoc. reflexivity.
Qed.

Lemma run_closed lines : forall st i,
  Forall noheader lines -> current st = None ->
  match skip_blank lines with
  | [] => run clock file st i lines = st
  | l :: rest =>
      exists startLine,
        run clock file st i lines
        = set_current (Some {| cur_heading := str "Introduction"; cur_level := 1;
                               cur_content := l :: rest;
                               cur_startLine := startLine |}) st
  end.
Proof.
  induction lines as [|b ls IH]; intros st i Hn Hc; [reflexivity|].
  inversion Hn as [|? ? Hb Hls]; subst. cbn [skip_blank run]. unfold step.
  rewrite Hb, Hc. destruct (nonempty (trim b)) eqn:Eb.
  - exists i. erewrite run_open; [|exact Hls | reflexivity]. reflexivity.
  - apply IH; assumption.
Qed.

Lemma keep_trimmed chunk :
  trim (content chunk) <> [] -> keep_chunk chunk = true.
Proof.
  intros Hc. unfold keep_chunk, nonempty.
  destruct (trim (content chunk)); [congruence | reflexivity].
Qed.

(** X17.  A document in which no line is a heading gives no chunk when
    it is blank, and otherwise exactly one: the section "Introduction",
    of level 1, whose content is the whole document, trimmed. *)
Theorem splitByHeaders_without_headings (markdown : jsstring) :
  heading_lines markdown = 0%nat ->
  (trim markdown = [] -> splitByHeaders clock markdown file = [])
  /\ (trim markdown <> [] ->
      exists c,
        splitByHeaders clock markdown file = [c]
        /\ sectionHeading c = str "Introduction"
        /\ content c = trim markdown
        /\ level (metadata c) = 1%float
        /\ wordCount (metadata c) = number_of_nat (count_tokens (trim markdown))).
Proof using Type.
  intros Hh. apply heading_lines_none in Hh.
  unfold splitByHeaders.
  destruct (is_empty markdown) eqn:Em.
  { destruct markdown; [|discriminate]. split; [reflexivity | intros Hc; destruct (Hc eq_refl)]. }
  pose proof (join_split_char 10 markdown) as Hj.
  pose proof (trimStart_skip_blank (split_char 10 markdown)) as Hs.
  unfold newline in Hs. rewrite Hj in Hs.
  pose proof (run_closed (split_char 10 markdown) initial 0 Hh eq_refl) as Hr.
  pose proof (skip_blank_nonblank (split_char 10 markdown)) as Hnb.
  destruct (skip_blank (split_char 10 markdown)) as [|l rest].
  - rewrite Hr. split; [reflexivity|].
    intros Hc. exfalso. apply Hc. unfold trim. rewrite Hs. reflexivity.
  - destruct Hr as [startLine ->].
    assert (trim markdown = trim (join newline (l :: rest))) as Ht
      by (unfold trim; rewrite Hs; reflexivity).
    specialize (Hnb l rest eq_refl). rewrite <- Ht in Hnb.
    split; [intros Hc; congruence|]. intros _.
    unfold save_final. cbn [current set_current].
    cbn [cur_content]. rewrite <- Ht.
    destruct (push_chunk_chunks clock file
                {| cur_heading := str "Introduction"; cur_level := 1;
                   cur_content := l :: rest; cur_startLine := startLine |}
                (trim markdown)
                (set_current
                   (Some {| cur_heading := str "Introduction"; cur_level := 1;
                            cur_content := l :: rest; cur_startLine := startLine |})
                   initial))
      as (chunk & -> & _ & Hsh & Hct & Hlv & Hwc).
    exists chunk. cbn [chunks set_current initial app List.filter].
    rewrite keep_trimmed by (rewrite Hct, trim_idem; exact Hnb).
    split; [reflexivity|]. split; [exact Hsh|]. split; [exact Hct|].
    split; [rewrite Hlv; reflexivity|].
    rewrite Hwc. f_equal. apply JSFacts.wordCountOf_tokens.
Qed.

End WithHost.

(** X17 on two lines of text after a blank line. *)
Lemma splitByHeaders_without_headings_witness :
  exists c,
    splitByHeaders (H := TestHost.host) (fun _ => 0%Z)
      (newline ++ str "Install it." ++ newline ++ str "Run it. ") (str "README.md")
    = [c]
    /\ sectionHeading c = str "Introduction"
    /\ content c = str "Install it." ++ newline ++ str "Run it.".
Proof.
  destruct (splitByHeaders_without_headings (H := TestHost.host) (fun _ => 0%Z)
              (str "README.md")
              (newline ++ str "Install it." ++ newline ++ str "Run it. "))
    as [_ Hc]; [vm_compute; reflexivity|].
  destruct Hc as (c & Hrun & Hh & Hct & _); [vm_compute; discriminate|].
  exists c. split; [exact Hrun|]. split; [exact Hh | exact Hct].
Defined.

End IndexerPlainFacts.

(** ** Embeddings for the chunks *)

Module IndexerEmbedFacts.
Import Indexer IndexerEmbed.

Section WithHost.
Context `{Host}.

Lemma generateEmbedding_length random text :
  text <> [] ->
  exists v, Store.generateEmbedding random text = inr v /\ length v = 128%nat.
Proof.
  intros Ht. unfold Store.generateEmbedding.
  destruct text as [|c text]; [congruence|]. cbn [is_empty].
  destruct (is_empty (trim (c :: text))); [eexists; split; reflexivity|].
  destruct (is_empty_list (Store.words_of (c :: text))); [eexists; split; reflexivity|].
  destruct (Num.gt0 _); eexists; (split; [reflexivity|]).
  - rewrite length_map. apply StoreFacts.accumulated_length.
  - rewrite StoreFacts.randomise_length. apply StoreFacts.accumulated_length.
Qed.

(** What the loop does to one chunk. *)
Definition embedded (c c' : DocumentationChunk) : Prop :=
  id c' = id c /\ filePath c' = filePath c /\ sectionHeading c' = sectionHeading c
  /\ content c' = content c /\ metadata c' = metadata c
  /\ (content c = [] -> embedding c' = embedding c)
  /\ (content c <> [] -> exists v, embedding c' = Some v /\ length v = 128%nat).

Lemma embed_from_embedded random chunks : forall n,
  Forall2 embedded chunks (embed_from (store_embedder random) n chunks).
Proof.
  induction chunks as [|c chunks IH]; intros n; simpl; [constructor|].
  constructor; [|apply IH].
  unfold store_embedder at 1. unfold embedded.
  destruct (content c) as [|ch text] eqn:Ec.
  - cbn. rewrite Ec. repeat split; try reflexivity. intros Hc. destruct (Hc eq_refl).
  - destruct (generateEmbedding_length (random n) (ch :: text)) as (v & -> & Hv);
      [discriminate|].
    cbn. repeat split; try assumption; try discriminate. eauto.
Qed.

(** X18.  [generateEmbeddings] returns the chunks it is given, one for
    one and in their order, with ids, paths, headings, contents and
    metadata untouched.  A chunk with content gets an embedding of 128
    numbers; a chunk with empty content, for which the vector store
    refuses to embed, keeps what it had.  Without a vector store nothing
    changes.  Hence every chunk of a document, once through the loop,
    either has no content and no embedding or has an embedding of 128
    numbers. *)
Theorem generateEmbeddings_keeps_chunks (random : nat -> nat -> float)
    (chunks : list DocumentationChunk) :
  Forall2 embedded chunks (generateEmbeddings (Some (store_embedder random)) chunks)
  /\ length (generateEmbeddings (Some (store_embedder random)) chunks) = length chunks
  /\ generateEmbeddings None chunks = chunks
  /\ forall (clock : nat -> Z) (markdown file : jsstring),
       Forall (fun c => (content c = [] /\ embedding c = None)
                        \/ exists v, embedding c = Some v /\ length v = 128%nat)
              (generateEmbeddings (Some (store_embedder random))
                 (splitByHeaders clock markdown file)).
Proof.
  pose proof (embed_from_embedded random) as He.
  split; [apply He|]. split; [|split; [reflexivity|]].
  - symmetry. exact (Forall2_length _ _ _ (He chunks 0)).
  - intros clock markdown file.
    destruct (IndexerIdFacts.splitByHeaders_tidy clock file markdown) as [_ Ht].
    specialize (He (splitByHeaders clock markdown file) 0).
    unfold generateEmbeddings.
    induction He as [|c c' cs cs' Hc Hcs IH]; [constructor|].
    inversion Ht as [|? ? Hct Hcst]; subst.
    constructor; [|apply IH; exact Hcst].
    destruct Hc as (_ & _ & _ & Hcontent & _ & Hempty & Hfull).
    destruct Hct as (_ & _ & _ & _ & Hnone).
    destruct (content c) as [|ch text] eqn:Ec.
    + left. split; [congruence|]. rewrite Hempty by reflexivity. exact Hnone.
    + right. apply Hfull. discriminate.
Qed.

End WithHost.
End IndexerEmbedFacts.

(** ** More on the vector store *)

Module StoreMoreFacts.
Import Store SpecFloat FloatAxioms.

Lemma SFmul_comm prec emax x y : SFmul prec emax x y = SFmul prec emax y x.
Proof.
  destruct x as [sx|sx| |sx mx ex], y as [sy|sy| |sy my ey]; simpl;
    rewrite ?(xorb_comm sx sy), ?(Pos.mul_comm mx my), ?(Z.add_comm ex ey);
    reflexivity.
Qed.

Lemma mul_comm (x y : float) : (x * y = y * x)%float.
Proof.
  apply Prim2SF_inj. rewrite !mul_spec. apply SFmul_comm.
Qed.

Lemma accumulate_swap a : forall b dotProduct normA normB,
  accumulate b a dotProduct normB normA
  = let '(d, na, nb) := accumulate a b dotProduct normA normB in (d, nb, na).
Proof.
  induction a as [|valA a IH]; intros [|valB b] dotProduct normA normB;
    try reflexivity.
  cbn [accumulate]. rewrite (orb_comm (negb (Num.isFinite valB))).
  destruct (negb (Num.isFinite valA) || negb (Num.isFinite valB)); [apply IH|].
  rewrite (mul_comm valB valA). apply IH.
Qed.

(** X19.  [cosineSimilarity] is symmetric: the two vectors can be given in
    either order, bit for bit, whatever they hold. *)
Theorem cosineSimilarity_symmetric (a b : list float) :
  cosineSimilarity a b = cosineSimilarity b a.
Proof.
  unfold cosineSimilarity. rewrite (Nat.eqb_sym (length b) (length a)).
  destruct (length a =? length b)%nat eqn:El; [|reflexivity]. cbn [negb].
  apply Nat.eqb_eq in El. rewrite <- El.
  destruct (length a =? 0)%nat; [reflexivity|].
  rewrite (accumulate_swap a b 0 0 0).
  destruct (accumulate a b 0 0 0) as [[d na] nb].
  rewrite (orb_comm (Num.Math_sqrt nb =? 0)%float).
  rewrite (mul_comm (Num.Math_sqrt nb)). reflexivity.
Qed.

Section WithHost.
Context `{Host}.

(** A row that [searchSimilar] can use. *)
Definition usable (row : Row) : bool :=
  nonempty (row_id row) && nonempty (file_path row)
  && nonempty (section_heading row) && nonempty (row_content row)
  && match row_embedding row with
     | Some (_ :: _) => true
     | _ => false
     end.

Lemma score_row_unusable now threshold q row :
  usable row = false -> score_row now threshold q row = None.
Proof.
  unfold usable, score_row, nonempty.
  destruct (row_id row), (file_path row), (section_heading row), (row_content row);
    try reflexivity.
  cbn. destruct (row_embedding row) as [[|v e]|]; [reflexivity | discriminate | reflexivity].
Qed.

Lemma collect_usable now threshold q rows :
  collect now threshold q (List.filter usable rows) = collect now threshold q rows.
Proof.
  unfold collect. induction rows as [|row rows IH]; [reflexivity|]. simpl.
  destruct (usable row) eqn:Eu; simpl; [f_equal; exact IH|].
  rewrite (score_row_unusable _ _ _ _ Eu). exact IH.
Qed.

Lemma score_row_usable now threshold q row sc :
  score_row now threshold q row = Some sc ->
  usable row = true /\ id (chunk sc) = row_id row
  /\ filePath (chunk sc) = file_path row
  /\ sectionHeading (chunk sc) = section_heading row
  /\ content (chunk sc) = row_content row
  /\ embedding (chunk sc) = row_embedding row.
Proof.
  intros Hs. destruct (usable row) eqn:Eu;
    [|rewrite (score_row_unusable _ _ _ _ Eu) in Hs; discriminate].
  split; [reflexivity|]. revert Hs. unfold score_row.
  destruct (_ || _); [discriminate|].
  destruct (row_embedding row) as [emb|]; [|discriminate].
  destruct (is_empty_list emb); [discriminate|].
  destruct (_ || _); [discriminate|].
  destruct (Num.geb _ _); [|discriminate].
  intros [= <-]. simpl. auto.
Qed.

Lemma collect_rows now threshold q rows sc :
  In sc (collect now threshold q rows) ->
  exists row, In row rows /\ score_row now threshold q row = Some sc.
Proof.
  unfold collect. rewrite in_flat_map. intros (row & Hr & Hin).
  exists row. split; [exact Hr|].
  destruct (score_row now threshold q row) as [sc'|]; [|destruct Hin].
  destruct Hin as [-> | []]. reflexivity.
Qed.

(** X20.  [searchSimilar] returns stored rows only: each chunk it returns
    has the id, path, heading, content and embedding of a row that has
    all four texts and an embedding.  The rows that lack one of them have
    no influence: the result is the same as without them. *)
Theorem searchSimilar_usable_rows (random : nat -> float) (now : Z)
    (store : VectorStore) (rows : list Row) (query : jsstring) (topK : Z) :
  searchSimilar random now store (inr (List.filter usable rows)) query topK
  = searchSimilar random now store (inr rows) query topK
  /\ forall results c,
       searchSimilar random now store (inr rows) query topK = inr results ->
       In c results ->
       exists row,
         In row rows /\ usable row = true
         /\ id c = row_id row /\ filePath c = file_path row
         /\ sectionHeading c = section_heading row
         /\ content c = row_content row
         /\ embedding c = row_embedding row.
Proof.
  split.
  - unfold searchSimilar.
    destruct (generateEmbedding random query) as [e|q]; [reflexivity|].
    rewrite collect_usable. reflexivity.
  - unfold searchSimilar.
    destruct (negb (db_open store)); [discriminate|].
    destruct (negb (isInitialized store)); [discriminate|].
    destruct (is_empty query); [discriminate|].
    destruct (is_empty (trim query)); [intros results c [= <-] []|].
    destruct (topK <=? 0)%Z; [discriminate|].
    destruct (generateEmbedding random query) as [e|q]; [discriminate|].
    intros results c [= <-] Hin.
    apply in_map_iff in Hin. destruct Hin as (sc & <- & Hsc).
    destruct (StoreFacts.slice0_firstn
                (Z.min topK (maxResults (config store)))
                (Sort.sort bySimilarity
                   (collect now (similarityThreshold (config store)) q rows)))
      as [k Hk].
    rewrite Hk in Hsc. apply StoreFacts.firstn_incl in Hsc.
    apply (Permutation_in sc (StoreFacts.sort_perm bySimilarity _)) in Hsc.
    destruct (collect_rows _ _ _ _ _ Hsc) as (row & Hrow & Hs).
    exists row. split; [exact Hrow|]. apply (score_row_usable _ _ _ _ _ Hs).
Qed.

Lemma firstn_firstn_le {A} (j k : nat) (l : list A) :
  (j <= k)%nat -> firstn j (firstn k l) = firstn j l.
Proof. intros Hjk. rewrite firstn_firstn. f_equal. lia. Qed.

Lemma slice0_prefix {A} (n n' : Z) (l : list A) :
  (n <= n')%Z -> (0 <= n \/ n = n')%Z ->
  slice0 n l = firstn (length (slice0 n l)) (slice0 n' l).
Proof.
  intros Hle [Hn | ->]; [|rewrite firstn_all; reflexivity].
  unfold slice0.
  assert ((n <? 0)%Z = false) as -> by (apply Z.ltb_ge; lia).
  assert ((n' <? 0)%Z = false) as -> by (apply Z.ltb_ge; lia).
  rewrite length_firstn, firstn_firstn.
  replace (Init.Nat.min (Init.Nat.min (Z.to_nat n) (length l)) (Z.to_nat n'))
    with (Init.Nat.min (Z.to_nat n) (length l)) by lia.
  rewrite <- firstn_firstn, firstn_all. reflexivity.
Qed.

(** X21.  Asking for more gives what asking for less gave, and more after
    it: for [topK <= topK'], the result for [topK] is the beginning of the
    result for [topK'] (the query, the rows and the configuration being
    the same). *)
Theorem searchSimilar_topK_prefix (random : nat -> float) (now : Z)
    (store : VectorStore) (rows : Thrown + list Row) (query : jsstring)
    (topK topK' : Z) (results : list DocumentationChunk) :
  (topK <= topK')%Z ->
  searchSimilar random now store rows query topK = inr results ->
  exists results',
    searchSimilar random now store rows query topK' = inr results'
    /\ results = firstn (length results) results'.
Proof.
  intros Hle. unfold searchSimilar.
  destruct (negb (db_open store)); [discriminate|].
  destruct (negb (isInitialized store)); [discriminate|].
  destruct (is_empty query); [discriminate|].
  destruct (is_empty (trim query)); [intros [= <-]; exists []; auto|].
  destruct (topK <=? 0)%Z eqn:Ek; [discriminate|].
  assert ((topK' <=? 0)%Z = false) as ->
    by (apply Z.leb_gt; apply Z.leb_gt in Ek; lia).
  destruct (generateEmbedding random query) as [e|q]; [discriminate|].
  destruct rows as [err|rows]; [discriminate|].
  intros [= <-]. eexists. split; [reflexivity|].
  rewrite length_map, List.firstn_map. f_equal.
  apply slice0_prefix; [lia|].
  apply Z.leb_gt in Ek. lia.
Qed.

(** X22.  When [searchSimilar] answers and when it throws.  It returns a
    list exactly when the database is open and initialised, the query is
    not the empty string, and either the query is blank (the answer is
    the empty list, whatever [topK] and the database say) or [topK] is
    positive and the [SELECT] succeeds.  The tests come in this order:
    the database, the empty query, the blank query, [topK]; a failure of
    the [SELECT] is reported with its own message. *)
Theorem searchSimilar_answers (random : nat -> float) (now : Z)
    (store : VectorStore) (rows : Thrown + list Row) (query : jsstring) (topK : Z) :
  ((exists results, searchSimilar random now store rows query topK = inr results)
   <-> db_open store = true /\ isInitialized store = true /\ query <> []
       /\ (trim query = [] \/ ((0 < topK)%Z /\ exists rs, rows = inr rs)))
  /\ (db_open store = false ->
      searchSimilar random now store rows query topK
      = inl (Error (str "Similarity search failed: Error: Database not initialized")))
  /\ (db_open store = true -> isInitialized store = false ->
      searchSimilar random now store rows query topK
      = inl (Error (str "Similarity search failed: Error: VectorStore not properly initialized")))
  /\ (db_open store = true -> isInitialized store = true ->
      (query = [] ->
       searchSimilar random now store rows query topK
       = inl (Error (str "Similarity search failed: Error: Query must be a non-empty string")))
      /\ (query <> [] -> trim query = [] ->
          searchSimilar random now store rows query topK = inr [])
      /\ (trim query <> [] -> (topK <= 0)%Z ->
          searchSimilar random now store rows query topK
          = inl (Error (str "Similarity search failed: Error: topK must be a positive integer")))
      /\ (forall err, trim query <> [] -> (0 < topK)%Z -> rows = inl err ->
          searchSimilar random now store rows query topK
          = inl (Error (str "Failed to search chunks: " ++ thrown_message err)))).
Proof.
  unfold searchSimilar.
  destruct (db_open store), (isInitialized store); cbn [negb];
    try (split; [split; [intros [? ?]; discriminate | intros (? & ? & _); discriminate]|];
         repeat split; intros; try reflexivity; discriminate).
  destruct query as [|ch query]; cbn [is_empty].
  { assert (trim [] = []) as Et by reflexivity.
    split; [split; [intros [? ?]; discriminate | intros (_ & _ & Hq & _); congruence]|].
    repeat split; intros; try reflexivity; try discriminate; congruence. }
  destruct (trim (ch :: query)) as [|t ts] eqn:Et; cbn [is_empty].
  { split; [split; [intros _; repeat split; auto; discriminate | eauto]|].
    repeat split; intros; try reflexivity; try discriminate; congruence. }
  assert (exists q, generateEmbedding random (ch :: query) = inr q) as [q Hq].
  { destruct (IndexerEmbedFacts.generateEmbedding_length random (ch :: query))
      as (v & Hv & _); [discriminate | eauto]. }
  rewrite Hq.
  destruct (topK <=? 0)%Z eqn:Ek.
  { apply Z.leb_le in Ek.
    split; [split; [intros [? ?]; discriminate
                   | intros (_ & _ & _ & [? | [? _]]); [discriminate | lia]]|].
    repeat split; intros; try reflexivity; try discriminate; try congruence; lia. }
  apply Z.leb_gt in Ek.
  destruct rows as [err|rs].
  { split; [split; [intros [? ?]; discriminate
                   | intros (_ & _ & _ & [? | [_ [? ?]]]); discriminate]|].
    repeat split; intros; try reflexivity; try discriminate; try congruence; lia. }
  split; [split; [intros _; repeat split; auto; try discriminate; right; eauto
                 | eauto]|].
  repeat split; intros; try reflexivity; try discriminate; try congruence; lia.
Qed.

End WithHost.

(** X21 on a store of three sections: the answer for [topK] 1 is the
    first chunk of the answer for [topK] 2. *)
Lemma searchSimilar_topK_prefix_witness :
  exists results results',
    searchSimilar (H := TestHost.host) (fun _ => 0.5%float) 0 Examples.store
      (inr Examples.rows) (str "calculate sum") 1 = inr results
    /\ searchSimilar (H := TestHost.host) (fun _ => 0.5%float) 0 Examples.store
         (inr Examples.rows) (str "calculate sum") 2 = inr results'
    /\ results = firstn (length results) results'.
Proof.
  assert (exists results,
             searchSimilar (H := TestHost.host) (fun _ => 0.5%float) 0 Examples.store
               (inr Examples.rows) (str "calculate sum") 1 = inr results)
    as [results Hrun] by (eexists; vm_compute; reflexivity).
  destruct (searchSimilar_topK_prefix (H := TestHost.host) (fun _ => 0.5%float) 0
              Examples.store (inr Examples.rows) (str "calculate sum") 1 2 results)
    as (results' & Hrun' & Hpre); [lia | exact Hrun|].
  exists results, results'. auto.
Defined.

End StoreMoreFacts.

(** ** The confidence of an answer *)

Module ConfidenceFacts.
Import Engine Logic EngineFacts EngineOps.

(** A confidence that is not above 1. *)
Definition bounded (r : ExplanationResult) : Prop :=
  (1 <? confidence r)%float = false.

(** The requests in flight hold bounded results. *)
Definition in_flight_bounded (st : State) : Prop :=
  map_Forall (fun _ (p : Promise) =>
                match p with inr r => bounded r | inl _ => True end)
             (requestDeduplication st).

Lemma Math_min_1 x : (1 <? Num.Math_min x 1)%float = false.
Proof.
  unfold Num.Math_min.
  destruct (Num.isNaN x || Num.isNaN 1); [reflexivity|].
  destruct (x <? 1)%float eqn:E1; [apply FloatFacts.ltb_asym; exact E1|].
  destruct (1 <? x)%float eqn:E2; [reflexivity|].
  destruct (PrimFloat.get_sign x); [exact E2 | reflexivity].
Qed.

Lemma calculateDeterministicConfidence_bound `{Host} docs :
  (1 <? calculateDeterministicConfidence docs)%float = false.
Proof.
  unfold calculateDeterministicConfidence.
  destruct (is_empty_list docs); [reflexivity | apply Math_min_1].
Qed.

Section WithHost.
Context `{Host}.

Section WithEnv.
Variable env : Env.

Lemma process_bounded ctx st :
  wp (processExplanationRequest env ctx) (fun r _ => bounded r) (fun _ _ => False) st.
Proof.
  unfold processExplanationRequest.
  apply wp_try_catch.
  apply (wp_mono _ (fun r _ => bounded r) _ (fun _ _ => True)); [auto| |].
  { intros e s' _. apply wp_bind, wp_modify, wp_ret. reflexivity. }
  apply wp_bind, wp_checkpoint; [intros; exact I|].
  apply wp_bind. unfold wp at 1, cache_retrieve.
  destruct (Cache.retrieve (now env) ctx (cacheManager st)) as [entry c].
  destruct entry as [e|]; [apply wp_ret; reflexivity|].
  apply wp_bind, wp_checkpoint; [intros; exact I|].
  apply wp_bind. unfold wp at 1. rewrite retrieve_run.
  apply wp_bind, wp_checkpoint; [intros; exact I|].
  destruct (enforceDocumentationRequirement _ _) as [ok fb].
  destruct ok; cbn [negb].
  - apply wp_bind, wp_checkpoint; [intros; exact I|].
    apply wp_bind, wp_checkpoint; [intros; exact I|].
    destruct (validateExplanationGrounding _ _); cbn [negb].
    + apply wp_bind, wp_checkpoint; [intros; exact I|].
      apply wp_bind, wp_checkpoint; [intros; exact I|].
      apply wp_bind, wp_checkpoint; [intros; exact I|].
      apply wp_bind, wp_modify, wp_ret.
      apply calculateDeterministicConfidence_bound.
    + apply wp_bind, wp_checkpoint; [intros; exact I|].
      apply wp_bind, wp_modify, wp_ret. reflexivity.
  - apply wp_bind, wp_checkpoint; [intros; exact I|].
    apply wp_bind, wp_modify, wp_ret. reflexivity.
Qed.

Lemma explainCode_bounded ctx st :
  in_flight_bounded st ->
  wp (explainCode env ctx) (fun r _ => bounded r) (fun _ _ => False) st.
Proof.
  intros Hreg. unfold explainCode.
  apply wp_try_catch.
  apply (wp_mono _ (fun r _ => bounded r) _ (fun _ _ => True)); [auto| |].
  { intros e s' _. apply wp_bind, wp_modify, wp_ret. reflexivity. }
  destruct (is_empty (selectedText ctx)); [apply wp_throw; exact I|].
  destruct (is_empty (trim (selectedText ctx))); [apply wp_ret; reflexivity|].
  apply wp_bind, wp_checkpoint; [intros; exact I|].
  change (generateContextHash ctx)
    with ((generateContextHash ctx).1, sorted_imports ctx).
  cbn [fst snd]. set (contextHash := (generateContextHash ctx).1).
  apply wp_bind, wp_gets.
  destruct (requestDeduplication st !! contextHash) as [ongoing|] eqn:Eo.
  { pose proof (Hreg _ _ Eo) as Ho.
    destruct ongoing as [e|r]; simpl; [apply wp_throw; exact I | apply wp_ret; exact Ho]. }
  unfold wp at 1.
  pose proof (process_bounded (sorted_imports ctx) st) as Hp.
  apply wp_returns in Hp. destruct Hp as (r & st1 & -> & Hb).
  apply wp_try_finally. simpl. apply wp_ret. exact Hb.
Qed.

End WithEnv.

(** X23.  No answer has a confidence above 1.  Whatever the documents
    and their word counts, [calculateDeterministicConfidence] is not
    greater than 1, and so is the confidence of every result of
    [explainCode], whatever fails, as long as the results of the requests
    in flight are so. *)
Theorem explainCode_confidence_bound (env : Env) (ctx : CodeContext) (st : State) :
  in_flight_bounded st ->
  (forall docs, (1 <? calculateDeterministicConfidence docs)%float = false)
  /\ exists r st',
       explainCode env ctx st = (inr r, st')
       /\ (1 <? confidence r)%float = false.
Proof.
  intros Hreg. split; [intros docs; apply calculateDeterministicConfidence_bound|].
  pose proof (explainCode_bounded env ctx st Hreg) as Hw.
  apply wp_returns in Hw. destruct Hw as (r & st' & E & Hb). eauto.
Qed.

End WithHost.

(** X23 on a first request against a store that holds one section. *)
Lemma explainCode_confidence_bound_witness :
  exists r st',
    explainCode (H := TestHost.host) (Examples.env_sum 0) Examples.ctx_sum Engine.new
    = (inr r, st')
    /\ (1 <? confidence r)%float = false.
Proof.
  destruct (explainCode_confidence_bound (H := TestHost.host) (Examples.env_sum 0)
              Examples.ctx_sum Engine.new)
    as [_ Hrun]; [apply map_Forall_empty | exact Hrun].
Defined.

End ConfidenceFacts.

(** ** The store without a database *)

Module SimpleStoreFacts.
Import SimpleStore.

Lemma filter_sublist {A} (p : A -> bool) l : List.filter p l `sublist_of` l.
Proof.
  induction l as [|x l IH]; simpl; [constructor|].
  destruct (p x); [apply sublist_skip | apply sublist_cons]; exact IH.
Qed.

Lemma slice0_sublist {A} n (l : list A) : Store.slice0 n l `sublist_of` l.
Proof.
  destruct (StoreFacts.slice0_firstn n l) as [k ->]. apply sublist_take.
Qed.

Lemma map_submseteq {A B} (f : A -> B) l1 l2 :
  l1 ⊆+ l2 -> map f l1 ⊆+ map f l2.
Proof.
  induction 1; simpl; try (econstructor; eassumption); constructor; assumption.
Qed.

Lemma sort_constant {A} (cmp : A -> A -> float) l :
  (forall x y, In x l -> In y l -> Num.gt0 (cmp x y) = false) ->
  Sort.sort cmp l = l.
Proof.
  induction l as [|x l IH]; intros Hc; [reflexivity|]. simpl.
  rewrite IH by (intros; apply Hc; now right).
  destruct l as [|y l]; [reflexivity|]. simpl.
  rewrite Hc; [reflexivity | now left | right; now left].
Qed.

Lemma includes_empty s : includes s [] = true.
Proof. destruct s; reflexivity. Qed.

Lemma slice0_map {A B} (f : A -> B) n l :
  Store.slice0 n (map f l) = map f (Store.slice0 n l).
Proof.
  unfold Store.slice0. rewrite length_map.
  destruct (n <? 0)%Z; apply List.firstn_map.
Qed.

Section WithHost.
Context `{Host}.

Lemma score_chunk_chunk ql qw l : map chunk (map (score_chunk ql qw) l) = l.
Proof. rewrite map_map. apply map_id. Qed.

(** X24.  [SimpleVectorStore.searchSimilar] throws when the store is not
    initialised and returns otherwise.  What it returns is taken from the
    stored chunks, no chunk more often than it is stored; each returned
    chunk has a score of at least ten times the threshold; and there are
    at most [min(topK, maxResults)] of them when that is not negative. *)
Theorem simple_searchSimilar_selects (store : SimpleVectorStore)
    (query : jsstring) (topK : Z) :
  (isInitialized store = false -> searchSimilar store query topK = inl notInitialized)
  /\ (isInitialized store = true ->
      exists results,
        searchSimilar store query topK = inr results
        /\ results ⊆+ chunks store
        /\ (forall c, In c results ->
              passes store
                (score_chunk (toLowerCase query) (queryWords_of (toLowerCase query)) c)
              = true)
        /\ ((0 <= Z.min topK (Store.maxResults (config store)))%Z ->
            (Z.of_nat (length results)
             <= Z.min topK (Store.maxResults (config store)))%Z)).
Proof.
  unfold searchSimilar. split; intros ->; cbn [negb]; [reflexivity|].
  set (ql := toLowerCase query). set (qw := queryWords_of ql).
  set (limit := Z.min topK (Store.maxResults (config store))).
  eexists. split; [reflexivity|].
  set (kept := List.filter (passes store) (map (score_chunk ql qw) (chunks store))).
  assert (Store.slice0 limit (Sort.sort byScore kept) ⊆+ kept) as Hsub.
  { transitivity (Sort.sort byScore kept);
      [apply sublist_submseteq, slice0_sublist
      | apply Permutation_submseteq, StoreFacts.sort_perm]. }
  split; [|split].
  - transitivity (map chunk (map (score_chunk ql qw) (chunks store)));
      [|rewrite score_chunk_chunk; reflexivity].
    apply map_submseteq.
    transitivity kept; [exact Hsub|]. subst kept.
    apply sublist_submseteq, filter_sublist.
  - intros c Hc. apply in_map_iff in Hc. destruct Hc as (item & <- & Hitem).
    apply list_elem_of_In in Hitem.
    apply (elem_of_submseteq _ _ _ Hitem) in Hsub.
    apply list_elem_of_In in Hsub. subst kept. apply filter_In in Hsub.
    destruct Hsub as [Hin Hp]. apply in_map_iff in Hin.
    destruct Hin as (c' & <- & _). exact Hp.
  - intros Hl. rewrite length_map. unfold Store.slice0.
    assert ((limit <? 0)%Z = false) as -> by (apply Z.ltb_ge; exact Hl).
    rewrite length_firstn. lia.
Qed.

Lemma score_empty_query c :
  toLowerCase [] = [] ->
  score_chunk (toLowerCase []) (queryWords_of (toLowerCase [])) c
  = {| chunk := c; score := 18 |}.
Proof.
  intros ->. unfold score_chunk. rewrite !includes_empty. reflexivity.
Qed.

(** X25.  The empty query matches everything: every stored chunk scores
    18 (the phrase is found in every content and every heading), so
    [searchSimilar] returns the first [min(topK, maxResults)] stored
    chunks in the order in which they are stored, or none when ten times
    the threshold is above 18. *)
Theorem simple_searchSimilar_empty_query (store : SimpleVectorStore) (topK : Z) :
  toLowerCase [] = [] ->
  isInitialized store = true ->
  searchSimilar store [] topK
  = inr (if Num.geb 18 (Store.similarityThreshold (config store) * 10)%float
         then Store.slice0 (Z.min topK (Store.maxResults (config store)))
                (chunks store)
         else []).
Proof.
  intros Hl Hi. unfold searchSimilar. rewrite Hi. cbn [negb]. f_equal.
  set (scored := map _ (chunks store)).
  assert (scored = map (fun c => {| chunk := c; score := 18 |}) (chunks store)) as ->.
  { subst scored. apply map_ext. intros c. apply score_empty_query. exact Hl. }
  assert (forall l : list DocumentationChunk,
             List.filter (passes store)
               (map (fun c => {| chunk := c; score := 18 |}) l)
             = if Num.geb 18 (Store.similarityThreshold (config store) * 10)%float
               then map (fun c => {| chunk := c; score := 18 |}) l else []) as ->.
  { intros l. induction l as [|c l IH]; [destruct (Num.geb 18 _); reflexivity|].
    cbn [map List.filter]. unfold passes at 1. cbn [score]. rewrite IH.
    destruct (Num.geb 18 _); reflexivity. }
  destruct (Num.geb 18 _).
  - rewrite sort_constant.
    + rewrite slice0_map, map_map. apply map_id.
    + intros x y Hx Hy. apply in_map_iff in Hx, Hy.
      destruct Hx as (? & <- & _), Hy as (? & <- & _). reflexivity.
  - unfold Store.slice0. simpl. destruct (_ <? 0)%Z; rewrite firstn_nil; reflexivity.
Qed.

Lemma count_word_length embedding word :
  length (count_word embedding word) = length embedding.
Proof. unfold count_word. apply length_alter. Qed.

Lemma counted_length words : forall embedding,
  length (fold_left count_word words embedding) = length embedding.
Proof.
  induction words as [|w ws IH]; intros embedding; simpl; [reflexivity|].
  rewrite IH. apply count_word_length.
Qed.

Lemma generateEmbedding_simple_length text : length (generateEmbedding text) = 100%nat.
Proof.
  unfold generateEmbedding. destruct (Num.gt0 _); rewrite ?length_map, counted_length;
    apply repeat_length.
Qed.

(** What [storeChunks] makes of a chunk. *)
Definition stored (c c' : DocumentationChunk) : Prop :=
  id c' = id c /\ filePath c' = filePath c /\ sectionHeading c' = sectionHeading c
  /\ content c' = content c /\ metadata c' = metadata c
  /\ exists v, embedding c' = Some v /\ length v = 100%nat.

(** X26.  [storeChunks] replaces what the store holds: afterwards the
    store holds the given chunks, one for one and in their order, each
    with a new embedding of 100 numbers (the one it came with is
    dropped), and nothing of what it held before.  This is so even when
    writing the file fails and the call throws; only a store that is not
    initialised is left as it was.  [clearIndex] empties the store, also
    when writing fails, and after [close] a search throws. *)
Theorem simple_storeChunks_replaces (save : Thrown + unit)
    (given : list DocumentationChunk) (store : SimpleVectorStore) :
  (isInitialized store = false ->
   storeChunks save given store = (inl notInitialized, store))
  /\ (isInitialized store = true ->
      (storeChunks save given store).1 = save
      /\ Forall2 stored given (chunks (storeChunks save given store).2)
      /\ config (storeChunks save given store).2 = config store
      /\ isInitialized (storeChunks save given store).2 = true)
  /\ ((clearIndex save store).1 = save
      /\ chunks (clearIndex save store).2 = []
      /\ forall query topK,
           isInitialized store = true ->
           searchSimilar (clearIndex save store).2 query topK = inr [])
  /\ forall query topK, searchSimilar (close store) query topK = inl notInitialized.
Proof.
  unfold storeChunks. split; [intros ->; reflexivity|].
  split; [intros Hi; rewrite Hi; cbn [negb fst snd chunks config isInitialized]|].
  - split; [reflexivity|]. split; [|split; reflexivity].
    induction given as [|c given IH]; simpl; constructor; [|exact IH].
    unfold stored, embed. cbn. repeat split.
    eexists. split; [reflexivity | apply generateEmbedding_simple_length].
  - split; [|reflexivity].
    split; [reflexivity|]. split; [reflexivity|].
    intros query topK Hi. unfold searchSimilar, clearIndex.
    cbn [snd isInitialized chunks config]. rewrite Hi. cbn [negb map List.filter].
    f_equal. unfold Store.slice0. simpl.
    destruct (_ <? 0)%Z; rewrite firstn_nil; reflexivity.
Qed.

End WithHost.

(** X25 on a store of two sections with [maxResults] 5, asked for one
    result. *)
Lemma simple_searchSimilar_empty_query_witness :
  searchSimilar (H := TestHost.host)
    {| chunks := [Examples.doc_sum; Examples.doc_sum];
       config := {| Store.similarityThreshold := 0.7; Store.maxResults := 5 |};
       isInitialized := true |} [] 1
  = inr [Examples.doc_sum].
Proof.
  exact (simple_searchSimilar_empty_query (H := TestHost.host)
           {| chunks := [Examples.doc_sum; Examples.doc_sum];
              config := {| Store.similarityThreshold := 0.7; Store.maxResults := 5 |};
              isInitialized := true |} 1 eq_refl eq_refl).
Defined.

End SimpleStoreFacts.
